(** * Base arbitrage bot: price normalisation, spread selection and
      arbitrage simulation, verified over a shallow embedding.

    JavaScript [Number]s are IEEE 754 binary64 values; they are modelled
    with the [spec_float] type of the Standard Library and its binary64
    operations (round to nearest, ties to even).  [BigInt]s are [Z]. *)

From Stdlib Require Import ZArith QArith Qpower Lqa Lia Bool List String Ascii.
From Stdlib Require Import Floats.SpecFloat.
Import ListNotations.

Local Open Scope Z_scope.

(** ** JavaScript numbers *)

(** The binary64 format: 53 bits of precision, exponents below 1024. *)
Definition prec : Z := 53.
Definition emax : Z := 1024.

Module Js.

Definition number := spec_float.

Definition add : number -> number -> number := SFadd prec emax.
Definition sub : number -> number -> number := SFsub prec emax.
Definition mul : number -> number -> number := SFmul prec emax.
Definition div : number -> number -> number := SFdiv prec emax.
Definition abs : number -> number := SFabs.

(** [a < b], [a > b] and [a <= b] of JavaScript: false when either side is
    NaN. *)
Definition lt (a b : number) : bool := SFltb a b.
Definition gt (a b : number) : bool := SFltb b a.
Definition le (a b : number) : bool := SFleb a b.

(** [a === b] on numbers: false for NaN, true for [+0] and [-0]. *)
Definition eqb (a b : number) : bool := SFeqb a b.

(** [Number(z)] for a BigInt [z]: the nearest binary64 value, ties to
    even, overflowing to an infinity. *)
Definition ofBigInt (z : Z) : number := binary_normalize prec emax z 0 false.

(** A decimal literal [m / 10^k] of the source (such as [0.004]): the
    binary64 value nearest to the quotient of two exactly represented
    integers. *)
Definition decimal (m : Z) (k : Z) : number := div (ofBigInt m) (ofBigInt (10 ^ k)).

Definition zero : number := S754_zero false.
Definition one : number := ofBigInt 1.
Definition infinity : number := S754_infinity false.

(** [Number.isFinite(x)] *)
Definition isFinite (x : number) : bool :=
  match x with S754_zero _ | S754_finite _ _ _ => true | _ => false end.

(** [Number.isInteger(x)] together with the mathematical value of an
    integral number: what [BigInt(x)] needs. *)
Definition toInteger (x : number) : option Z :=
  match x with
  | S754_zero _ => Some 0
  | S754_finite s m e =>
      if 0 <=? e then Some (cond_Zopp s (Z.pos m * 2 ^ e))
      else if (Z.pos m) mod (2 ^ (- e)) =? 0
           then Some (cond_Zopp s (Z.pos m / 2 ^ (- e)))
           else None
  | _ => None
  end.

End Js.

(** ** Exceptions

    A JavaScript function either returns a value or throws.  The source
    throws a [RangeError] from [BigInt(..)] and [**] on BigInts, a
    [TypeError] from [reduce] on an empty array, and its own
    [new Error(msg)] from the cost-model lookup. *)

Inductive JsError : Type :=
| RangeError
| TypeError
| Error (message : string).

Definition Result (A : Type) : Type := (JsError + A)%type.

Definition ok {A} (a : A) : Result A := inr a.
Definition throw {A} (e : JsError) : Result A := inl e.

Definition bindR {A B} (r : Result A) (k : A -> Result B) : Result B :=
  match r with
  | inl e => inl e
  | inr a => k a
  end.

Declare Scope result_scope.
Delimit Scope result_scope with result.
Notation "'let?' x ':=' r 'in' k" := (bindR r (fun x => k))
  (at level 10, x name, r at level 100, k at level 200) : result_scope.

(** ** BigInt primitives *)

(** The raw value handed to the price functions: the event decoder
    delivers a BigInt; a JavaScript Number is the other numeric value a
    caller can pass. *)
Inductive RawSample : Type :=
| RawBigInt (z : Z)
| RawNumber (x : Js.number).

(** [BigInt(v)]: the identity on a BigInt, the exact integer for an
    integral Number, a [RangeError] for any other Number. *)
Definition BigInt (v : RawSample) : Result Z :=
  match v with
  | RawBigInt z => ok z
  | RawNumber x =>
      match Js.toInteger x with
      | Some z => ok z
      | None => throw RangeError
      end
  end.

(** [b ** e] on BigInts: a [RangeError] for a negative exponent. *)
Definition bigPow (b e : Z) : Result Z :=
  if e <? 0 then throw RangeError else ok (b ^ e).

(** ** Configuration (config.js) *)

(** [config.costs].  The two PancakeSwap entries are read by
    [getDexCostModel]; the configuration loader that defines them is not
    among the sources, so they are fields like the others. *)
Record Costs : Type := {
  uniswapGasFeeUSDC : Js.number;
  aerodromeGasFeeUSDC : Js.number;
  aerodromeFeeBps : Js.number;
  pancakeFixedFeeUSDC : Js.number;
  pancakeGasFeeUSDC : Js.number
}.

Record Config : Type := {
  cbBTC_decimals : Z;        (* config.tokens.cbBTC.decimals, from parseInt *)
  USDC_decimals : Z;         (* config.tokens.USDC.decimals, from parseInt *)
  priceChange : Js.number;   (* config.thresholds.priceChange *)
  costs : Costs
}.

(** ** Price derivation *)

Section Price.

Variable config : Config.

Local Open Scope result_scope.

Definition Q96 : Z := 2 ^ 96.

Definition calculatePrice (sqrtPriceX96 : RawSample) (isInverted : bool)
  : Result Js.number :=
  let? sqrtPriceX96BigInt := BigInt sqrtPriceX96 in
  if isInverted then
    let? pq := bigPow 10 (USDC_decimals config) in
    let numerator := sqrtPriceX96BigInt * sqrtPriceX96BigInt * pq in
    let? pb := bigPow 10 (cbBTC_decimals config) in
    let denominator := Q96 * Q96 * pb in
    let cbBTCperUSDC := Js.div (Js.ofBigInt numerator) (Js.ofBigInt denominator) in
    ok (Js.div Js.one cbBTCperUSDC)
  else
    let? pq := bigPow 10 (USDC_decimals config) in
    let numerator := sqrtPriceX96BigInt * sqrtPriceX96BigInt * pq in
    let? pb := bigPow 10 (cbBTC_decimals config) in
    let denominator := Q96 * Q96 * pb in
    ok (Js.div (Js.ofBigInt numerator) (Js.ofBigInt denominator)).

Definition calculateAerodromePrice (sqrtPriceX96 : RawSample) (isInverted : bool)
  : Result Js.number :=
  let? sqrtPriceX96BigInt := BigInt sqrtPriceX96 in
  if isInverted then
    let? pq := bigPow 10 (USDC_decimals config) in
    let numerator := sqrtPriceX96BigInt * sqrtPriceX96BigInt * pq in
    let? pb := bigPow 10 (cbBTC_decimals config) in
    let denominator := Q96 * Q96 * pb in
    let cbBTCperUSDC := Js.div (Js.ofBigInt numerator) (Js.ofBigInt denominator) in
    ok (Js.div Js.one cbBTCperUSDC)
  else
    let? pq := bigPow 10 (USDC_decimals config) in
    let numerator := sqrtPriceX96BigInt * sqrtPriceX96BigInt * pq in
    let? pb := bigPow 10 (cbBTC_decimals config) in
    let denominator := Q96 * Q96 * pb in
    ok (Js.div (Js.ofBigInt numerator) (Js.ofBigInt denominator)).

End Price.

(** ** Spread *)

Definition hundred : Js.number := Js.ofBigInt 100.
Definition tenThousand : Js.number := Js.ofBigInt 10000.

Definition calculateSpread (price1 price2 : Js.number) : Js.number :=
  Js.mul (Js.div (Js.sub price1 price2) price2) hundred.

(** ** Fee and gas helpers *)

Definition getArbTradeSizeUSDC (overallBudgetUSDC budgetPercent : Js.number)
  : Js.number :=
  Js.mul overallBudgetUSDC (Js.div budgetPercent hundred).

(** The object returned by [getDexCostModel] has one of two shapes; the
    simulation tells them apart with [fixedFeeUSDC !== undefined]. *)
Inductive CostModel : Type :=
| Proportional (feeBps gasFeeUSDC : Js.number)
| FixedFee (fixedFeeUSDC gasFeeUSDC : Js.number).

Definition gasFeeUSDC (m : CostModel) : Js.number :=
  match m with
  | Proportional _ g => g
  | FixedFee _ g => g
  end.

Section Simulation.

Variable config : Config.

Local Open Scope result_scope.
Local Open Scope string_scope.

Definition getDexCostModel (dexName : string) : Result CostModel :=
  if String.eqb dexName "Uniswap" then
    ok (Proportional Js.zero (uniswapGasFeeUSDC (costs config)))
  else if String.eqb dexName "Aerodrome" then
    ok (Proportional (aerodromeFeeBps (costs config))
                     (aerodromeGasFeeUSDC (costs config)))
  else if String.eqb dexName "PancakeSwap" then
    ok (FixedFee (pancakeFixedFeeUSDC (costs config))
                 (pancakeGasFeeUSDC (costs config)))
  else throw (Error ("Unknown DEX: " ++ dexName)).

Definition totalGasCostForDirection (buyDex sellDex : string) : Result Js.number :=
  let? buyModel := getDexCostModel buyDex in
  let buyGas := gasFeeUSDC buyModel in
  let? sellModel := getDexCostModel sellDex in
  let sellGas := gasFeeUSDC sellModel in
  ok (Js.add buyGas sellGas).

Record Details : Type := {
  currentBudgetUSDC : Js.number;
  tradeSizeUSDC : Js.number;
  tradeSizeCbBTC : Js.number;
  buyPrice : Js.number;
  sellPrice : Js.number;
  usdcSpentBeforeFee : Js.number;
  usdcSpentAfterFee : Js.number;
  usdcReceivedBeforeFee : Js.number;
  usdcReceivedAfterFee : Js.number;
  buyDexName : string;
  sellDexName : string;
  buyModel : CostModel;
  sellModel : CostModel;
  buyTradeFeesUSDC : Js.number;
  sellTradeFeesUSDC : Js.number;
  totalGasCostUSDC : Js.number
}.

Record ArbResult : Type := {
  isProfitable : bool;
  netProfitUSDC : Js.number;
  netProfitPct : Js.number;
  direction : string;
  buyDex : string;
  sellDex : string;
  details : Details
}.

(** The argument object of [calculateArbDirection]. *)
Record DirectionParams : Type := {
  p_buyDex : string;
  p_sellDex : string;
  p_buyPrice : Js.number;
  p_sellPrice : Js.number;
  p_tradeSizeCbBTC : Js.number;
  p_tradeSizeUSDC : Js.number;
  p_currentBudgetUSDC : Js.number
}.

Definition calculateArbDirection (p : DirectionParams) : Result ArbResult :=
  let? buyModel := getDexCostModel (p_buyDex p) in
  let? sellModel := getDexCostModel (p_sellDex p) in
  (* buy leg *)
  let usdcSpentBeforeFee := Js.mul (p_tradeSizeCbBTC p) (p_buyPrice p) in
  let '(usdcSpentAfterFee, buyTradeFeesUSDC) :=
    match buyModel with
    | FixedFee fixedFeeUSDC _ =>
        (Js.add usdcSpentBeforeFee fixedFeeUSDC, fixedFeeUSDC)
    | Proportional feeBps _ =>
        let fees := Js.mul usdcSpentBeforeFee (Js.div feeBps tenThousand) in
        (Js.add usdcSpentBeforeFee fees, fees)
    end in
  (* sell leg *)
  let usdcReceivedBeforeFee := Js.mul (p_tradeSizeCbBTC p) (p_sellPrice p) in
  let '(usdcReceivedAfterFee, sellTradeFeesUSDC) :=
    match sellModel with
    | FixedFee fixedFeeUSDC _ =>
        (Js.sub usdcReceivedBeforeFee fixedFeeUSDC, fixedFeeUSDC)
    | Proportional feeBps _ =>
        let fees := Js.mul usdcReceivedBeforeFee (Js.div feeBps tenThousand) in
        (Js.sub usdcReceivedBeforeFee fees, fees)
    end in
  (* gas *)
  let? totalGasCostUSDC := totalGasCostForDirection (p_buyDex p) (p_sellDex p) in
  (* profit *)
  let netUSDC := Js.sub usdcReceivedAfterFee totalGasCostUSDC in
  let netProfitUSDC := Js.sub netUSDC usdcSpentAfterFee in
  let netProfitPct := Js.mul (Js.div netProfitUSDC usdcSpentAfterFee) hundred in
  ok {| isProfitable := Js.gt netProfitUSDC Js.zero;
        netProfitUSDC := netProfitUSDC;
        netProfitPct := netProfitPct;
        direction := "Buy on " ++ p_buyDex p ++ ", Sell on " ++ p_sellDex p;
        buyDex := p_buyDex p;
        sellDex := p_sellDex p;
        details :=
          {| currentBudgetUSDC := p_currentBudgetUSDC p;
             tradeSizeUSDC := p_tradeSizeUSDC p;
             tradeSizeCbBTC := p_tradeSizeCbBTC p;
             buyPrice := p_buyPrice p;
             sellPrice := p_sellPrice p;
             usdcSpentBeforeFee := usdcSpentBeforeFee;
             usdcSpentAfterFee := usdcSpentAfterFee;
             usdcReceivedBeforeFee := usdcReceivedBeforeFee;
             usdcReceivedAfterFee := usdcReceivedAfterFee;
             buyDexName := p_buyDex p;
             sellDexName := p_sellDex p;
             buyModel := buyModel;
             sellModel := sellModel;
             buyTradeFeesUSDC := buyTradeFeesUSDC;
             sellTradeFeesUSDC := sellTradeFeesUSDC;
             totalGasCostUSDC := totalGasCostUSDC |} |}.

(** The two directions evaluated by [simulateArbitrageForPair]: its
    local constants [directionA] (buy on DEX1, sell on DEX2) and
    [directionB] (buy on DEX2, sell on DEX1). *)
Definition directionA
    (dex1Name : string) (dex1Price : Js.number)
    (dex2Name : string) (dex2Price : Js.number)
    (currentBudgetUSDC budgetPct : Js.number) : Result ArbResult :=
  let tradeSizeUSDC := getArbTradeSizeUSDC currentBudgetUSDC budgetPct in
  let tradeSizeCbBTC_A := Js.div tradeSizeUSDC dex1Price in
  calculateArbDirection
    {| p_buyDex := dex1Name; p_sellDex := dex2Name;
       p_buyPrice := dex1Price; p_sellPrice := dex2Price;
       p_tradeSizeCbBTC := tradeSizeCbBTC_A;
       p_tradeSizeUSDC := tradeSizeUSDC;
       p_currentBudgetUSDC := currentBudgetUSDC |}.

Definition directionB
    (dex1Name : string) (dex1Price : Js.number)
    (dex2Name : string) (dex2Price : Js.number)
    (currentBudgetUSDC budgetPct : Js.number) : Result ArbResult :=
  let tradeSizeUSDC := getArbTradeSizeUSDC currentBudgetUSDC budgetPct in
  let tradeSizeCbBTC_B := Js.div tradeSizeUSDC dex2Price in
  calculateArbDirection
    {| p_buyDex := dex2Name; p_sellDex := dex1Name;
       p_buyPrice := dex2Price; p_sellPrice := dex1Price;
       p_tradeSizeCbBTC := tradeSizeCbBTC_B;
       p_tradeSizeUSDC := tradeSizeUSDC;
       p_currentBudgetUSDC := currentBudgetUSDC |}.

Definition simulateArbitrageForPair
    (dex1Name : string) (dex1Price : Js.number)
    (dex2Name : string) (dex2Price : Js.number)
    (currentBudgetUSDC budgetPct : Js.number) : Result ArbResult :=
  let? a := directionA dex1Name dex1Price dex2Name dex2Price
                       currentBudgetUSDC budgetPct in
  let? b := directionB dex1Name dex1Price dex2Name dex2Price
                       currentBudgetUSDC budgetPct in
  ok (if Js.gt (netProfitUSDC a) (netProfitUSDC b) then a else b).

End Simulation.

(** ** The monitor: state, console and event handlers *)

Inductive Venue : Type := Uniswap | Aerodrome | PancakeSwap.

(** One element of the [spreads] array. *)
Record SpreadEntry : Type := {
  dex1 : string;
  dex2 : string;
  spread : Js.number;
  price1 : Js.number;
  price2 : Js.number
}.

(** What the monitor writes to the console, without the formatting. *)
Inductive LogLine : Type :=
| LogPriceUpdate (v : Venue) (newPrice priceChangePct : Js.number)
| LogMaxSpread (dex1 dex2 : string) (spread : Js.number)
| LogArbitrage (arbResult : ArbResult)
| LogBudgetUpdated (previousBudget profit newBudget : Js.number)
| LogError (v : Venue) (error : JsError).

(** The [let] variables of [monitorPool] that the handlers share. *)
Record MonitorState : Type := {
  lastUniswapPrice : Js.number;
  lastAerodromePrice : Js.number;
  lastPancakePrice : Js.number;
  overallBudgetUSDC : Js.number;
  console : list LogLine
}.

(** What the handlers only read: the configuration, the budget
    percentage and the token ordering found at initialisation. *)
Record MonitorEnv : Type := {
  config : Config;
  budgetPercent : Js.number;
  uniswapIsInverted : bool;
  aerodromeIsInverted : bool;
  pancakeIsInverted : bool
}.

(** Statements run on the shared state and may throw; what was assigned
    before a throw stays assigned. *)
Definition M (A : Type) : Type := MonitorState -> Result A * MonitorState.

Definition ret {A} (a : A) : M A := fun st => (ok a, st).

Definition bind {A B} (m : M A) (k : A -> M B) : M B :=
  fun st =>
    match m st with
    | (inl e, st') => (inl e, st')
    | (inr a, st') => k a st'
    end.

Definition get : M MonitorState := fun st => (ok st, st).
Definition liftR {A} (r : Result A) : M A := fun st => (r, st).

(** [try { body } catch (error) { handler error }] *)
Definition tryCatch (body : M unit) (handler : JsError -> M unit) : M unit :=
  fun st =>
    match body st with
    | (inl e, st') => handler e st'
    | (inr tt, st') => (ok tt, st')
    end.

Declare Scope monitor_scope.
Delimit Scope monitor_scope with monitor.
Notation "x <- m ;; k" := (bind m (fun x => k))
  (at level 61, m at next level, right associativity) : monitor_scope.
Notation "m ;;; k" := (bind m (fun _ => k))
  (at level 61, right associativity) : monitor_scope.

Definition log (l : LogLine) : M unit :=
  fun st => (ok tt,
             {| lastUniswapPrice := lastUniswapPrice st;
                lastAerodromePrice := lastAerodromePrice st;
                lastPancakePrice := lastPancakePrice st;
                overallBudgetUSDC := overallBudgetUSDC st;
                console := console st ++ [l] |}).

Definition setBudget (b : Js.number) : M unit :=
  fun st => (ok tt,
             {| lastUniswapPrice := lastUniswapPrice st;
                lastAerodromePrice := lastAerodromePrice st;
                lastPancakePrice := lastPancakePrice st;
                overallBudgetUSDC := b;
                console := console st |}).

Definition lastPrice (v : Venue) (st : MonitorState) : Js.number :=
  match v with
  | Uniswap => lastUniswapPrice st
  | Aerodrome => lastAerodromePrice st
  | PancakeSwap => lastPancakePrice st
  end.

Definition setLastPrice (v : Venue) (p : Js.number) : M unit :=
  fun st => (ok tt,
             {| lastUniswapPrice :=
                  match v with Uniswap => p | _ => lastUniswapPrice st end;
                lastAerodromePrice :=
                  match v with Aerodrome => p | _ => lastAerodromePrice st end;
                lastPancakePrice :=
                  match v with PancakeSwap => p | _ => lastPancakePrice st end;
                overallBudgetUSDC := overallBudgetUSDC st;
                console := console st |}).

(** [array.reduce(f)] without an initial value. *)
Definition reduce {A} (f : A -> A -> A) (l : list A) : Result A :=
  match l with
  | [] => throw TypeError
  | x :: r => ok (fold_left f r x)
  end.

Section Monitor.

Variable env : MonitorEnv.

Local Open Scope monitor_scope.
Local Open Scope string_scope.

(** The [spreads] array built from the three last prices. *)
Definition spreadTable (st : MonitorState) : list SpreadEntry :=
  let spreadUniAero := calculateSpread (lastAerodromePrice st) (lastUniswapPrice st) in
  let spreadUniPancake := calculateSpread (lastPancakePrice st) (lastUniswapPrice st) in
  let spreadAeroPancake := calculateSpread (lastPancakePrice st) (lastAerodromePrice st) in
  [ {| dex1 := "Uniswap"; dex2 := "Aerodrome"; spread := Js.abs spreadUniAero;
       price1 := lastUniswapPrice st; price2 := lastAerodromePrice st |};
    {| dex1 := "Uniswap"; dex2 := "PancakeSwap"; spread := Js.abs spreadUniPancake;
       price1 := lastUniswapPrice st; price2 := lastPancakePrice st |};
    {| dex1 := "Aerodrome"; dex2 := "PancakeSwap"; spread := Js.abs spreadAeroPancake;
       price1 := lastAerodromePrice st; price2 := lastPancakePrice st |} ].

(** The callback of [spreads.reduce]. *)
Definition pickMax (max curr : SpreadEntry) : SpreadEntry :=
  if Js.gt (spread curr) (spread max) then curr else max.

Definition maxSpreadPair (st : MonitorState) : Result SpreadEntry :=
  reduce pickMax (spreadTable st).

(** Simulate the chosen pair with the current budget and compound the
    budget when the result is profitable.  [announce] tells the handler
    variant (which prints the budget update) from the initial analysis
    (which does not). *)
Definition simulateAndCompound (announce : bool) (best : SpreadEntry) : M unit :=
  st <- get ;;
  arbResult <- liftR (simulateArbitrageForPair (config env)
                        (dex1 best) (price1 best) (dex2 best) (price2 best)
                        (overallBudgetUSDC st) (budgetPercent env)) ;;
  log (LogArbitrage arbResult) ;;;
  if isProfitable arbResult && Js.gt (netProfitUSDC arbResult) Js.zero then
    let previousBudget := overallBudgetUSDC st in
    let newBudget := Js.add previousBudget (netProfitUSDC arbResult) in
    setBudget newBudget ;;;
    if announce
    then log (LogBudgetUpdated previousBudget (netProfitUSDC arbResult) newBudget)
    else ret tt
  else ret tt.

Definition findAndSimulateBestSpread : M unit :=
  st <- get ;;
  best <- liftR (maxSpreadPair st) ;;
  log (LogMaxSpread (dex1 best) (dex2 best) (spread best)) ;;;
  simulateAndCompound true best.

(** The initial spread analysis of [monitorPool]. *)
Definition initialSpreadAnalysis : M unit :=
  st <- get ;;
  best <- liftR (maxSpreadPair st) ;;
  log (LogMaxSpread (dex1 best) (dex2 best) (spread best)) ;;;
  simulateAndCompound false best.

Definition isInverted (v : Venue) : bool :=
  match v with
  | Uniswap => uniswapIsInverted env
  | Aerodrome => aerodromeIsInverted env
  | PancakeSwap => pancakeIsInverted env
  end.

(** Uniswap and PancakeSwap use [calculatePrice], Aerodrome its copy. *)
Definition venuePrice (v : Venue) : RawSample -> bool -> Result Js.number :=
  match v with
  | Aerodrome => calculateAerodromePrice (config env)
  | _ => calculatePrice (config env)
  end.

(** The body of the [try] block of a Swap listener. *)
Definition swapBody (v : Venue) (sqrtPriceX96 : RawSample) : M unit :=
  newPrice <- liftR (venuePrice v sqrtPriceX96 (isInverted v)) ;;
  st <- get ;;
  if Js.gt (Js.abs (Js.sub newPrice (lastPrice v st))) (priceChange (config env)) then
    let priceChangePct :=
      Js.mul (Js.div (Js.sub newPrice (lastPrice v st)) (lastPrice v st)) hundred in
    log (LogPriceUpdate v newPrice priceChangePct) ;;;
    setLastPrice v newPrice ;;;
    findAndSimulateBestSpread
  else ret tt.

(** A Swap listener: one event cycle.  The [catch] clause logs the error,
    so the listener itself never throws. *)
Definition onSwap (v : Venue) (sqrtPriceX96 : RawSample) : M unit :=
  tryCatch (swapBody v sqrtPriceX96) (fun error => log (LogError v error)).

Definition runCycle (st : MonitorState) (ev : Venue * RawSample) : MonitorState :=
  snd (onSwap (fst ev) (snd ev) st).

(** The monitor after a sequence of Swap events, in arrival order. *)
Definition runEvents (evs : list (Venue * RawSample)) (st : MonitorState)
  : MonitorState :=
  fold_left runCycle evs st.

(** Start-up: the three initial prices, then the initial analysis.  An
    exception here ends the process. *)
Definition startMonitor (initialBudget : Js.number)
    (uniSlot0 aeroSlot0 pancakeSlot0 : RawSample) : Result MonitorState :=
  (let? pu := calculatePrice (config env) uniSlot0 (uniswapIsInverted env) in
   let? pa := calculateAerodromePrice (config env) aeroSlot0 (aerodromeIsInverted env) in
   let? pp := calculatePrice (config env) pancakeSlot0 (pancakeIsInverted env) in
   match initialSpreadAnalysis
           {| lastUniswapPrice := pu; lastAerodromePrice := pa;
              lastPancakePrice := pp; overallBudgetUSDC := initialBudget;
              console := [] |} with
   | (inl e, _) => throw e
   | (inr _, st) => ok st
   end)%result.

End Monitor.
(** ** Number tests and the fee helper *)

(** [isNaN(x)] and [x === 0] on numbers. *)
Definition isNaN (x : Js.number) : bool :=
  match x with S754_nan => true | _ => false end.

Definition isZero (x : Js.number) : bool := Js.eqb x Js.zero.

(** [applyTradeFeeUSDC] of the source; the simulation does not call it. *)
Definition applyTradeFeeUSDC (amountUSDC feeBps : Js.number) : Js.number :=
  if Js.eqb feeBps Js.zero then amountUSDC
  else Js.mul amountUSDC (Js.sub Js.one (Js.div feeBps tenThousand)).

(** ** The arbitrage report

    [logArbitrageOpportunity] prints either two lines (not profitable) or
    the full report.  The numbers and labels it prints, without the
    formatting. *)

Inductive FeeLabel : Type :=
| NoFeeLabel                                  (* the empty string *)
| FixedFeeLabel (fixedFeeUSDC : Js.number)    (* "$... (fixed)" *)
| BpsFeeLabel (feeBps : Js.number).           (* "... bps" *)

Definition feeLabel (m : CostModel) : FeeLabel :=
  match m with
  | FixedFee fixedFeeUSDC _ => FixedFeeLabel fixedFeeUSDC
  | Proportional feeBps _ =>
      if Js.gt feeBps Js.zero then BpsFeeLabel feeBps else NoFeeLabel
  end.

Record FullReport : Type := {
  r_direction : string;
  r_tradeSizeUSDC : Js.number;
  r_tradeSizeCbBTC : Js.number;
  r_netProfitUSDC : Js.number;
  r_netProfitPct : Js.number;
  r_buyDexName : string;
  r_buyPrice : Js.number;
  r_usdcSpentBeforeFee : Js.number;
  r_buyFeeLabel : FeeLabel;
  r_usdcSpentAfterFee : Js.number;
  r_sellDexName : string;
  r_sellPrice : Js.number;
  r_usdcReceivedBeforeFee : Js.number;
  r_sellFeeLabel : FeeLabel;
  r_usdcReceivedAfterFee : Js.number;
  r_spread : Js.number;
  r_totalFees : Js.number;
  r_totalGasCostUSDC : Js.number;
  r_currentBudgetUSDC : Js.number;
  r_newBudgetUSDC : Js.number
}.

Inductive ArbReport : Type :=
| NotProfitableReport (direction : string)
    (netProfitUSDC spread totalFees totalGasCostUSDC : Js.number)
| ProfitableReport (report : FullReport).

Definition logArbitrageOpportunity (arbResult : ArbResult) : ArbReport :=
  let d := details arbResult in
  let newBudgetUSDC := Js.add (currentBudgetUSDC d) (netProfitUSDC arbResult) in
  let buyFeeLabel := feeLabel (buyModel d) in
  let sellFeeLabel := feeLabel (sellModel d) in
  let totalFees := Js.add (buyTradeFeesUSDC d) (sellTradeFeesUSDC d) in
  let spread := Js.sub (usdcReceivedBeforeFee d) (usdcSpentBeforeFee d) in
  if negb (isProfitable arbResult) then
    NotProfitableReport (direction arbResult) (netProfitUSDC arbResult)
      spread totalFees (totalGasCostUSDC d)
  else
    ProfitableReport
      {| r_direction := direction arbResult;
         r_tradeSizeUSDC := tradeSizeUSDC d;
         r_tradeSizeCbBTC := tradeSizeCbBTC d;
         r_netProfitUSDC := netProfitUSDC arbResult;
         r_netProfitPct := netProfitPct arbResult;
         r_buyDexName := buyDexName d;
         r_buyPrice := buyPrice d;
         r_usdcSpentBeforeFee := usdcSpentBeforeFee d;
         r_buyFeeLabel := buyFeeLabel;
         r_usdcSpentAfterFee := usdcSpentAfterFee d;
         r_sellDexName := sellDexName d;
         r_sellPrice := sellPrice d;
         r_usdcReceivedBeforeFee := usdcReceivedBeforeFee d;
         r_sellFeeLabel := sellFeeLabel;
         r_usdcReceivedAfterFee := usdcReceivedAfterFee d;
         r_spread := spread;
         r_totalFees := totalFees;
         r_totalGasCostUSDC := totalGasCostUSDC d;
         r_currentBudgetUSDC := currentBudgetUSDC d;
         r_newBudgetUSDC := newBudgetUSDC |}.

(** ** The dual monitor (index.js)

    Two venues, no simulation and no budget.  A Swap listener does not
    use the price carried by the event: it reads [slot0()] again, which
    may fail. *)

Module Dual.

Inductive Venue : Type := Uniswap | Aerodrome.

Inductive LogLine : Type :=
| LogPriceUpdate (v : Venue) (newPrice priceChange spread : Js.number)
| LogError (v : Venue) (error : JsError).

Record State : Type := {
  lastUniswapPrice : Js.number;
  lastAerodromePrice : Js.number;
  console : list LogLine
}.

Record Env : Type := {
  config : Config;
  uniswapIsInverted : bool;
  aerodromeIsInverted : bool
}.

Definition log (l : LogLine) (st : State) : State :=
  {| lastUniswapPrice := lastUniswapPrice st;
     lastAerodromePrice := lastAerodromePrice st;
     console := console st ++ [l] |}.

Definition lastPrice (v : Venue) (st : State) : Js.number :=
  match v with
  | Uniswap => lastUniswapPrice st
  | Aerodrome => lastAerodromePrice st
  end.

Definition setLastPrice (v : Venue) (p : Js.number) (st : State) : State :=
  {| lastUniswapPrice := match v with Uniswap => p | _ => lastUniswapPrice st end;
     lastAerodromePrice := match v with Aerodrome => p | _ => lastAerodromePrice st end;
     console := console st |}.

Section Handlers.

Variable env : Env.

Definition isInverted (v : Venue) : bool :=
  match v with
  | Uniswap => uniswapIsInverted env
  | Aerodrome => aerodromeIsInverted env
  end.

Definition venuePrice (v : Venue) : RawSample -> bool -> Result Js.number :=
  match v with
  | Uniswap => calculatePrice (config env)
  | Aerodrome => calculateAerodromePrice (config env)
  end.

(** A Swap listener.  [sqrtPriceX96] is the event's argument, [slot0]
    what the read of [slot0()] returned or threw. *)
Definition onSwap (v : Venue) (sqrtPriceX96 : RawSample)
    (slot0 : Result RawSample) (st : State) : State :=
  match (let? slot0_sqrtPriceX96 := slot0 in
         venuePrice v slot0_sqrtPriceX96 (isInverted v))%result with
  | inl error => log (LogError v error) st
  | inr newPrice =>
      if Js.gt (Js.abs (Js.sub newPrice (lastPrice v st))) (priceChange (config env)) then
        let priceChange :=
          Js.mul (Js.div (Js.sub newPrice (lastPrice v st)) (lastPrice v st)) hundred in
        let spread :=
          match v with
          | Uniswap => calculateSpread (lastAerodromePrice st) newPrice
          | Aerodrome => calculateSpread newPrice (lastUniswapPrice st)
          end in
        setLastPrice v newPrice (log (LogPriceUpdate v newPrice priceChange spread) st)
      else st
  end.

End Handlers.

End Dual.

(** The venue of the triple monitor that a venue of the dual monitor is. *)
Definition ofDualVenue (v : Dual.Venue) : Venue :=
  match v with
  | Dual.Uniswap => Uniswap
  | Dual.Aerodrome => Aerodrome
  end.

(** The two monitors hold the same Uniswap and Aerodrome prices. *)
Definition same_prices (d : Dual.State) (st : MonitorState) : Prop :=
  Dual.lastUniswapPrice d = lastUniswapPrice st /\
  Dual.lastAerodromePrice d = lastAerodromePrice st.

Definition same_setup (denv : Dual.Env) (env : MonitorEnv) : Prop :=
  Dual.config denv = config env /\
  Dual.uniswapIsInverted denv = uniswapIsInverted env /\
  Dual.aerodromeIsInverted denv = aerodromeIsInverted env.

(** ** The configuration loader (config.js)

    [process.env] maps a key to a string or to [undefined]; [parseInt]
    (radix 10) and [parseFloat] are the built-in parsers. *)

Section ConfigLoader.

Variable processEnv : string -> option string.
Variable parseInt : string -> Js.number.
Variable parseFloat : string -> Js.number.

Local Open Scope string_scope.

Definition getRequiredEnv (key description : string) : Result string :=
  match processEnv key with
  | Some value =>
      if String.eqb value EmptyString then
        throw (Error ("Missing required environment variable: " ++ key
                        ++ " (" ++ description ++ ")"))
      else ok value
  | None =>
      throw (Error ("Missing required environment variable: " ++ key
                      ++ " (" ++ description ++ ")"))
  end.

Definition getOptionalEnv (key defaultValue : string) : string :=
  match processEnv key with
  | Some value => if String.eqb value EmptyString then defaultValue else value
  | None => defaultValue
  end.

Definition parseIntSafe (value key : string) : Result Js.number :=
  let parsed := parseInt value in
  if isNaN parsed then
    throw (Error ("Invalid integer value for " ++ key ++ ": " ++ value))
  else ok parsed.

Definition parseFloatSafe (value key : string) : Result Js.number :=
  let parsed := parseFloat value in
  if isNaN parsed then
    throw (Error ("Invalid float value for " ++ key ++ ": " ++ value))
  else ok parsed.

(** The numbers of the [config] object, in the order in which the object
    literal evaluates them. *)
Record LoadedConfig : Type := {
  rpc_baseUrl : string;
  tokens_cbBTC_address : string;
  tokens_cbBTC_decimals : Js.number;
  tokens_USDC_address : string;
  tokens_USDC_decimals : Js.number;
  pools_uniswap : string;
  pools_aerodrome : string;
  thresholds_priceChange : Js.number;
  thresholds_spread : Js.number;
  costs_uniswapGasFeeUSDC : Js.number;
  costs_aerodromeGasFeeUSDC : Js.number;
  costs_aerodromeFeeBps : Js.number;
  arbitrage_tradeSizeCbBTC : Js.number
}.

Local Open Scope result_scope.

Definition loadConfig : Result LoadedConfig :=
  let? baseUrl := getRequiredEnv "BASE_RPC_URL" "Base mainnet RPC endpoint" in
  let? cbBTCAddress := getRequiredEnv "CB_BTC_ADDRESS" "cbBTC token address on Base" in
  let? cbBTCDecimalsText := getRequiredEnv "CB_BTC_DECIMALS" "cbBTC token decimals" in
  let? cbBTCDecimals := parseIntSafe cbBTCDecimalsText "CB_BTC_DECIMALS" in
  let? usdcAddress := getRequiredEnv "USDC_ADDRESS" "USDC token address on Base" in
  let? usdcDecimalsText := getRequiredEnv "USDC_DECIMALS" "USDC token decimals" in
  let? usdcDecimals := parseIntSafe usdcDecimalsText "USDC_DECIMALS" in
  let? uniswapPool :=
    getRequiredEnv "UNISWAP_POOL_ADDRESS" "Uniswap V3 cbBTC/USDC pool address" in
  let? aerodromePool :=
    getRequiredEnv "AERODROME_POOL_ADDRESS"
                   "Aerodrome Slipstream cbBTC/USDC pool address" in
  let? priceChange :=
    parseFloatSafe (getOptionalEnv "PRICE_CHANGE_THRESHOLD" "0.01")
                   "PRICE_CHANGE_THRESHOLD" in
  let? spread :=
    parseFloatSafe (getOptionalEnv "SPREAD_LOG_THRESHOLD" "0.0")
                   "SPREAD_LOG_THRESHOLD" in
  let? uniswapGas :=
    parseFloatSafe (getOptionalEnv "UNISWAP_GAS_FEE_USDC" "0.004")
                   "UNISWAP_GAS_FEE_USDC" in
  let? aerodromeGas :=
    parseFloatSafe (getOptionalEnv "AERODROME_GAS_FEE_USDC" "0.005")
                   "AERODROME_GAS_FEE_USDC" in
  let? aerodromeBps :=
    parseFloatSafe (getOptionalEnv "AERODROME_FEE_BPS" "1") "AERODROME_FEE_BPS" in
  let? tradeSize :=
    parseFloatSafe (getOptionalEnv "ARB_TRADE_SIZE_CBBTC" "0.1")
                   "ARB_TRADE_SIZE_CBBTC" in
  ok {| rpc_baseUrl := baseUrl;
        tokens_cbBTC_address := cbBTCAddress;
        tokens_cbBTC_decimals := cbBTCDecimals;
        tokens_USDC_address := usdcAddress;
        tokens_USDC_decimals := usdcDecimals;
        pools_uniswap := uniswapPool;
        pools_aerodrome := aerodromePool;
        thresholds_priceChange := priceChange;
        thresholds_spread := spread;
        costs_uniswapGasFeeUSDC := uniswapGas;
        costs_aerodromeGasFeeUSDC := aerodromeGas;
        costs_aerodromeFeeBps := aerodromeBps;
        arbitrage_tradeSizeCbBTC := tradeSize |}.

End ConfigLoader.

(** * Rounding

    What [binary_round_aux], the rounding step shared by the binary64
    operations, computes: the definitions used to state it.  Values are
    rationals. *)

Definition bpow (e : Z) : Q := Qpower 2 e.
Definition F2Q (m e : Z) : Q := (inject_Z m * bpow e)%Q.

Definition locates (x : Q) (m e : Z) (l : location) : Prop :=
  match l with
  | loc_Exact => (x == inject_Z m * bpow e)%Q
  | loc_Inexact Lt =>
      (inject_Z m * bpow e < x /\ x < (inject_Z m + (1 # 2)) * bpow e)%Q
  | loc_Inexact Eq => (x == (inject_Z m + (1 # 2)) * bpow e)%Q
  | loc_Inexact Gt =>
      ((inject_Z m + (1 # 2)) * bpow e < x /\ x < (inject_Z m + 1) * bpow e)%Q
  end.

Abbreviation fexp64 := (SpecFloat.fexp prec emax).
Abbreviation emin64 := (-1074).

Definition mag (x : Q) (g : Z) : Prop := (bpow (g - 1) <= x /\ x < bpow g)%Q.

(** The inputs on which [binary_round_aux] rounds [x] correctly. *)
Definition rounds_in (x : Q) (m e : Z) (l : location) : Prop :=
  0 <= m /\ locates x m e l /\ exists g, mag x g /\ e <= fexp64 g.

Definition finish (s : bool) (r c : Z) : spec_float :=
  let '(mrs, e) := shr_fexp prec emax r c loc_Exact in
  match shr_m mrs with
  | Z0 => S754_zero s
  | Zpos m => if e <=? emax - prec then S754_finite s m e else S754_infinity s
  | Zneg _ => S754_nan
  end.

Definition norm_m (r : Z) : Z := if r =? 2 ^ prec then 2 ^ (prec - 1) else r.
Definition norm_e (r c : Z) : Z := if r =? 2 ^ prec then c + 1 else c.

(** The rounded mantissa of [x] at its canonical exponent. *)
Definition rounded (x : Q) (g r : Z) : Prop :=
  exists k l, locates x k (fexp64 g) l /\ 0 <= k /\ r = round_nearest_even k l.

(** The result of rounding a positive value is [+0], a positive finite
    number or [+Infinity]. *)
Definition nonneg_float (f : spec_float) : Prop :=
  match f with
  | S754_zero false | S754_finite false _ _ | S754_infinity false => True
  | _ => False
  end.

Definition pos_float (f : spec_float) : Prop :=
  match f with
  | S754_finite false _ _ | S754_infinity false => True
  | _ => False
  end.

(** A budget the monitor can compound: a canonical binary64 value other
    than NaN and [-Infinity]. *)
Definition addable (b : spec_float) : bool :=
  valid_binary prec emax b &&
  match b with
  | S754_nan | S754_infinity true => false
  | _ => true
  end.

(** * Well-formed data

    A binary64 value is a canonical [spec_float]; the operations return
    canonical values on canonical arguments. *)

Definition valid (x : Js.number) : bool := valid_binary prec emax x.

Definition wf_costs (c : Costs) : bool :=
  valid (uniswapGasFeeUSDC c) && valid (aerodromeGasFeeUSDC c) &&
  valid (aerodromeFeeBps c) && valid (pancakeFixedFeeUSDC c) &&
  valid (pancakeGasFeeUSDC c).

Definition wf_model (m : CostModel) : bool :=
  match m with
  | Proportional feeBps gas => valid feeBps && valid gas
  | FixedFee fixedFee gas => valid fixedFee && valid gas
  end.

Definition wf_state (st : MonitorState) : bool :=
  valid (lastUniswapPrice st) && valid (lastAerodromePrice st) &&
  valid (lastPancakePrice st) && addable (overallBudgetUSDC st).

(** Two states with the same prices and budget: they differ in the
    console at most. *)
Definition same_data (st st' : MonitorState) : Prop :=
  lastUniswapPrice st' = lastUniswapPrice st /\
  lastAerodromePrice st' = lastAerodromePrice st /\
  lastPancakePrice st' = lastPancakePrice st /\
  overallBudgetUSDC st' = overallBudgetUSDC st.

(** The budget [b'] after a step that started with the budget [b]:
    unchanged, or increased by the positive net profit of a simulation
    judged profitable. *)
Definition compounded (b b' : Js.number) : Prop :=
  b' = b \/
  exists r : ArbResult,
    isProfitable r = true /\ Js.gt (netProfitUSDC r) Js.zero = true /\
    b' = Js.add b (netProfitUSDC r).

(** * Example data

    The defaults of config.js (gas 0.004 and 0.005 USDC, 1 bps), a
    PancakeSwap fee of 0.01 USDC, 8 and 6 decimals, 5% of a 10000 USDC
    budget per trade. *)

Definition example_costs : Costs := {|
  uniswapGasFeeUSDC := Js.decimal 4 3;
  aerodromeGasFeeUSDC := Js.decimal 5 3;
  aerodromeFeeBps := Js.ofBigInt 1;
  pancakeFixedFeeUSDC := Js.decimal 1 2;
  pancakeGasFeeUSDC := Js.decimal 5 3
|}.

Definition example_config : Config := {|
  cbBTC_decimals := 8;
  USDC_decimals := 6;
  priceChange := Js.decimal 1 2;
  costs := example_costs
|}.

(** The same tokens with the two decimal counts exchanged. *)
Definition swapped_config : Config := {|
  cbBTC_decimals := 6;
  USDC_decimals := 8;
  priceChange := Js.decimal 1 2;
  costs := example_costs
|}.

Definition example_env : MonitorEnv := {|
  config := example_config;
  budgetPercent := Js.ofBigInt 5;
  uniswapIsInverted := true;
  aerodromeIsInverted := true;
  pancakeIsInverted := true
|}.

(** Uniswap at 90000, Aerodrome at 89900, PancakeSwap at 90200. *)
Definition example_state : MonitorState := {|
  lastUniswapPrice := Js.ofBigInt 90000;
  lastAerodromePrice := Js.ofBigInt 89900;
  lastPancakePrice := Js.ofBigInt 90200;
  overallBudgetUSDC := Js.ofBigInt 10000;
  console := []
|}.

(** * Costs and amounts that are not negative *)

(** Fees and gas that are at least zero. *)
Definition nonneg_model (m : CostModel) : bool :=
  match m with
  | Proportional feeBps gas => Js.le Js.zero feeBps && Js.le Js.zero gas
  | FixedFee fixedFee gas => Js.le Js.zero fixedFee && Js.le Js.zero gas
  end.

Definition nonneg_costs (c : Costs) : bool :=
  Js.le Js.zero (uniswapGasFeeUSDC c) && Js.le Js.zero (aerodromeGasFeeUSDC c) &&
  Js.le Js.zero (aerodromeFeeBps c) && Js.le Js.zero (pancakeFixedFeeUSDC c) &&
  Js.le Js.zero (pancakeGasFeeUSDC c).

(** [x] is not below zero: a number that is at least zero, or NaN. *)
Definition not_negative (x : Js.number) : bool := negb (Js.lt x Js.zero).

(** [x] is a zero or NaN. *)
Definition nothing (x : Js.number) : bool := isZero x || isNaN x.

(** The fee a venue charges on an amount, as [calculateArbDirection]
    computes it. *)
Definition tradeFee (m : CostModel) (amount : Js.number) : Js.number :=
  match m with
  | Proportional feeBps _ => Js.mul amount (Js.div feeBps tenThousand)
  | FixedFee fixedFee _ => fixedFee
  end.

(** * Runs of events *)

(** An error line of the console. *)
Definition isErrorLine (l : LogLine) : bool :=
  match l with LogError _ _ => true | _ => false end.

(** Swap events that carry integer samples, as the event decoder
    delivers them. *)
Definition integerEvents (zs : list (Venue * Z)) : list (Venue * RawSample) :=
  map (fun ev => (fst ev, RawBigInt (snd ev))) zs.

(** * More example data *)

(** The three venues at one price. *)
Definition flat_state : MonitorState := {|
  lastUniswapPrice := Js.ofBigInt 90000;
  lastAerodromePrice := Js.ofBigInt 90000;
  lastPancakePrice := Js.ofBigInt 90000;
  overallBudgetUSDC := Js.ofBigInt 10000;
  console := []
|}.

(** The example state after a zero sample on an inverted Uniswap pool:
    the Uniswap price is [Infinity]. *)
Definition stalled_state : MonitorState := {|
  lastUniswapPrice := Js.infinity;
  lastAerodromePrice := Js.ofBigInt 89900;
  lastPancakePrice := Js.ofBigInt 90200;
  overallBudgetUSDC := Js.ofBigInt 10000;
  console := []
|}.

(** The example state without a budget. *)
Definition unfunded_state : MonitorState := {|
  lastUniswapPrice := Js.ofBigInt 90000;
  lastAerodromePrice := Js.ofBigInt 89900;
  lastPancakePrice := Js.ofBigInt 90200;
  overallBudgetUSDC := Js.zero;
  console := []
|}.

(** A configuration whose quote decimals were parsed from [-6]. *)
Definition negative_config : Config := {|
  cbBTC_decimals := 8;
  USDC_decimals := -6;
  priceChange := Js.decimal 1 2;
  costs := example_costs
|}.

Definition negative_env : MonitorEnv := {|
  config := negative_config;
  budgetPercent := Js.ofBigInt 5;
  uniswapIsInverted := true;
  aerodromeIsInverted := true;
  pancakeIsInverted := true
|}.

Definition example_dual_env : Dual.Env := {|
  Dual.config := example_config;
  Dual.uniswapIsInverted := true;
  Dual.aerodromeIsInverted := true
|}.

Definition example_dual_state : Dual.State := {|
  Dual.lastUniswapPrice := Js.ofBigInt 90000;
  Dual.lastAerodromePrice := Js.ofBigInt 89900;
  Dual.console := []
|}.

(** The sample at which an inverted pool with 8 and 6 decimals is priced
    near 89000. *)
Definition example_sample : RawSample := RawBigInt (2 ^ 96 * 1000 / 29833).

(** An environment in which every variable holds [8], except the price
    threshold, which is set to the empty string, and the Uniswap gas fee,
    which is not set. *)
Definition example_processEnv (key : string) : option string :=
  if String.eqb key "PRICE_CHANGE_THRESHOLD"%string then Some EmptyString
  else if String.eqb key "UNISWAP_GAS_FEE_USDC"%string then None
  else Some "8"%string.

(** A parser that reads [8] and takes any other text for [0.01]. *)
Definition example_parse (text : string) : Js.number :=
  if String.eqb text "8"%string then Js.ofBigInt 8 else Js.decimal 1 2.

(** * Properties of rounding *)

(** The model computes: [1], [1/3], [0.1] and [0.1 + 0.2] are the
    binary64 values a JavaScript engine prints as 1, 0.3333333333333333,
    0.1 and 0.30000000000000004. *)
Example number_one : Js.one = S754_finite false 4503599627370496 (-52).
Proof. reflexivity. Qed.
Example number_third :
  Js.div Js.one (Js.ofBigInt 3) = S754_finite false 6004799503160661 (-54).
Proof. reflexivity. Qed.
Example number_tenth : Js.decimal 1 1 = S754_finite false 7205759403792794 (-56).
Proof. reflexivity. Qed.
Example number_sum :
  Js.add (Js.decimal 1 1) (Js.decimal 2 1) = S754_finite false 5404319552844596 (-54).
Proof. reflexivity. Qed.
Example number_not_integer : Js.toInteger (Js.decimal 15 1) = None.
Proof. reflexivity. Qed.
Example number_integer : Js.toInteger (Js.ofBigInt 90000) = Some 90000.
Proof. reflexivity. Qed.
(** ** Powers of two *)

Lemma bpow_pos e : (0 < bpow e)%Q.
Proof. apply Qpower_0_lt. reflexivity. Qed.
Lemma bpow_add a b : (bpow (a + b) == bpow a * bpow b)%Q.
Proof. apply Qpower_plus. discriminate. Qed.
Lemma bpow_succ a : (bpow (a + 1) == 2 * bpow a)%Q.
Proof. rewrite bpow_add. unfold bpow at 2. simpl. ring. Qed.
Lemma bpow_le a b : a <= b -> (bpow a <= bpow b)%Q.
Proof. intros H. apply Qpower_le_compat_l; [exact H | discriminate]. Qed.
Lemma bpow_lt a b : a < b -> (bpow a < bpow b)%Q.
Proof. intros H. apply Qpower_lt_compat_l; [exact H | reflexivity]. Qed.
Lemma bpow_lt_inv a b : (bpow a < bpow b)%Q -> a < b.
Proof.
  intros H. destruct (Z_lt_le_dec a b) as [L|L]; [exact L|].
  apply bpow_le in L. lra.
Qed.

Lemma bpow_Z n : 0 <= n -> (bpow n == inject_Z (2 ^ n))%Q.
Proof. intros H. unfold bpow. rewrite Zpower_Qpower by exact H. reflexivity. Qed.
Lemma inject_Z_lt a b : a < b -> (inject_Z a < inject_Z b)%Q.
Proof. intros. rewrite <- Zlt_Qlt. assumption. Qed.
Lemma inject_Z_le a b : a <= b -> (inject_Z a <= inject_Z b)%Q.
Proof. intros. rewrite <- Zle_Qle. assumption. Qed.
(** ** Binary digits *)
Lemma digits2_pos_bounds p :
  2 ^ (Z.pos (digits2_pos p) - 1) <= Z.pos p < 2 ^ Z.pos (digits2_pos p).
Proof.
  induction p as [p IH|p IH|]; simpl digits2_pos.
  - rewrite Pos2Z.inj_succ.
    replace (Z.succ (Z.pos (digits2_pos p)) - 1) with (Z.succ (Z.pos (digits2_pos p) - 1)) by lia.
    rewrite !Z.pow_succ_r by lia. lia.
  - rewrite Pos2Z.inj_succ.
    replace (Z.succ (Z.pos (digits2_pos p)) - 1) with (Z.succ (Z.pos (digits2_pos p) - 1)) by lia.
    rewrite !Z.pow_succ_r by lia. lia.
  - simpl. lia.
Qed.

Lemma Zdigits2_bounds m : 0 < m ->
  2 ^ (Zdigits2 m - 1) <= m < 2 ^ Zdigits2 m /\ 0 < Zdigits2 m.
Proof.
  destruct m as [|p|p]; try lia. intros _. simpl Zdigits2.
  split; [apply digits2_pos_bounds | lia].
Qed.

Lemma Zdigits2_unique m d : 0 < m -> 2 ^ (d - 1) <= m < 2 ^ d -> 0 < d -> Zdigits2 m = d.
Proof.
  intros Hm [H1 H2] Hd.
  destruct (Zdigits2_bounds m Hm) as [[B1 B2] B3].
  destruct (Z.lt_trichotomy (Zdigits2 m) d) as [L|[L|L]]; [|exact L|].
  - assert (2 ^ Zdigits2 m <= 2 ^ (d - 1)) by (apply Z.pow_le_mono_r; lia). lia.
  - assert (2 ^ d <= 2 ^ (Zdigits2 m - 1)) by (apply Z.pow_le_mono_r; lia). lia.
Qed.

(** ** Locations and right shifts

    [locates x m e l]: the value [x] lies in [[m * 2^e, (m+1) * 2^e)] at
    the place [l] says (on [m * 2^e], below, on or above the midpoint).
    A right shift of the mantissa keeps locating the same value. *)

Lemma locates_bounds x m e l :
  locates x m e l ->
  (inject_Z m * bpow e <= x /\ x < (inject_Z m + 1) * bpow e)%Q.
Proof.
  pose proof (bpow_pos e) as Ht.
  destruct l as [|[| |]]; simpl; intros H;
    set (t := bpow e) in *; set (M := inject_Z m) in *; nra.
Qed.

Lemma shr_1_spec mrs x e :
  0 <= shr_m mrs ->
  locates x (shr_m mrs) e (loc_of_shr_record mrs) ->
  locates x (shr_m (shr_1 mrs)) (e + 1) (loc_of_shr_record (shr_1 mrs)) /\
  shr_m (shr_1 mrs) = shr_m mrs / 2.
Proof.
  intros Hm H.
  pose proof (bpow_pos e) as Ht. pose proof (bpow_succ e) as Hs.
  destruct mrs as [m r s]. simpl in Hm.
  destruct m as [|p|p]; [| |lia].
  - split; [|reflexivity].
    destruct r, s; simpl in *; rewrite ?Hs; set (t := bpow e) in *;
      unfold inject_Z in *; nra.
  - destruct p as [p|p|].
    + split.
      * assert (E : (inject_Z (Z.pos p~1) == 2 * inject_Z (Z.pos p) + 1)%Q).
        { rewrite Pos2Z.inj_xI, inject_Z_plus, inject_Z_mult. reflexivity. }
        destruct r, s; simpl in *; rewrite ?Hs; rewrite E in H;
          set (t := bpow e) in *; set (P := inject_Z (Z.pos p)) in *; nra.
      * simpl. rewrite Pos2Z.inj_xI.
        apply Z.div_unique with (r := 1); lia.
    + split.
      * assert (E : (inject_Z (Z.pos p~0) == 2 * inject_Z (Z.pos p))%Q).
        { rewrite Pos2Z.inj_xO, inject_Z_mult. reflexivity. }
        destruct r, s; simpl in *; rewrite ?Hs; rewrite E in H;
          set (t := bpow e) in *; set (P := inject_Z (Z.pos p)) in *; nra.
      * simpl. rewrite Pos2Z.inj_xO.
        apply Z.div_unique with (r := 0); lia.
    + split; [|reflexivity].
      destruct r, s; simpl in *; rewrite ?Hs; set (t := bpow e) in *;
        unfold inject_Z in *; nra.
Qed.

Lemma iter_pos_nat {A} (f : A -> A) p x :
  iter_pos f p x = Nat.iter (Pos.to_nat p) f x.
Proof.
  revert x. induction p as [p IH|p IH|]; intros x; simpl iter_pos.
  - rewrite !IH, Pos2Nat.inj_xI.
    replace (S (2 * Pos.to_nat p))%nat with (Pos.to_nat p + (Pos.to_nat p + 1))%nat by lia.
    rewrite !Nat.iter_add. simpl. reflexivity.
  - rewrite !IH, Pos2Nat.inj_xO.
    replace (2 * Pos.to_nat p)%nat with (Pos.to_nat p + Pos.to_nat p)%nat by lia.
    rewrite Nat.iter_add. reflexivity.
  - reflexivity.
Qed.

Lemma shr_iter_spec x (n : nat) : forall mrs e,
  0 <= shr_m mrs ->
  locates x (shr_m mrs) e (loc_of_shr_record mrs) ->
  let mrs' := Nat.iter n shr_1 mrs in
  locates x (shr_m mrs') (e + Z.of_nat n) (loc_of_shr_record mrs') /\
  shr_m mrs' = shr_m mrs / 2 ^ Z.of_nat n.
Proof.
  induction n as [|n IH]; intros mrs e Hm H.
  - simpl. rewrite Z.add_0_r, Z.div_1_r. auto.
  - cbn zeta. rewrite Nat.iter_succ.
    destruct (IH mrs e Hm H) as [IH1 IH2]. clear IH.
    assert (Hm' : 0 <= shr_m (Nat.iter n shr_1 mrs)).
    { rewrite IH2. apply Z.div_pos; [exact Hm | apply Z.pow_pos_nonneg; lia]. }
    destruct (shr_1_spec _ x _ Hm' IH1) as [S1 S2].
    split.
    + replace (e + Z.of_nat (S n)) with (e + Z.of_nat n + 1) by lia. exact S1.
    + rewrite S2, IH2, Nat2Z.inj_succ, Z.pow_succ_r by lia.
      rewrite Z.div_div by (try lia; apply Z.pow_pos_nonneg; lia).
      f_equal. lia.
Qed.

Lemma shr_record_of_loc_m m l : shr_m (shr_record_of_loc m l) = m.
Proof. destruct l as [|[| |]]; reflexivity. Qed.
Lemma loc_of_shr_record_of_loc m l :
  loc_of_shr_record (shr_record_of_loc m l) = l.
Proof. destruct l as [|[| |]]; reflexivity. Qed.
Lemma shr_spec x m e l n :
  0 <= m -> 0 <= n -> locates x m e l ->
  let '(mrs', e') := shr (shr_record_of_loc m l) e n in
  e' = e + n /\
  locates x (shr_m mrs') e' (loc_of_shr_record mrs') /\
  shr_m mrs' = m / 2 ^ n.
Proof.
  intros Hm Hn H. unfold shr. destruct n as [|p|p]; [| |lia].
  - rewrite shr_record_of_loc_m, loc_of_shr_record_of_loc, Z.add_0_r, Z.div_1_r. auto.
  - rewrite iter_pos_nat.
    pose proof (shr_iter_spec x (Pos.to_nat p) (shr_record_of_loc m l) e) as S.
    rewrite shr_record_of_loc_m, loc_of_shr_record_of_loc in S.
    specialize (S Hm H). cbn zeta in S. rewrite positive_nat_Z in S.
    destruct S as [S1 S2]. auto.
Qed.

(** ** Magnitude and canonical exponent *)

Lemma fexp_eq g : fexp64 g = Z.max (g - 53) emin64.
Proof. reflexivity. Qed.
Lemma mag_unique x g1 g2 : mag x g1 -> mag x g2 -> g1 = g2.
Proof.
  intros [A1 A2] [B1 B2].
  assert (g1 - 1 < g2) by (apply bpow_lt_inv; lra).
  assert (g2 - 1 < g1) by (apply bpow_lt_inv; lra).
  lia.
Qed.

Lemma mag_le x1 x2 g1 g2 : mag x1 g1 -> mag x2 g2 -> (x1 <= x2)%Q -> g1 <= g2.
Proof.
  intros [A1 A2] [B1 B2] H.
  assert (g1 - 1 < g2) by (apply bpow_lt_inv; lra).
  lia.
Qed.

Lemma Qmul_lt_inj a b t :
  (0 < t)%Q -> (inject_Z a * t < inject_Z b * t)%Q -> a < b.
Proof.
  intros Ht H. rewrite Zlt_Qlt.
  set (A := inject_Z a) in *; set (B := inject_Z b) in *. nra.
Qed.

Lemma bpow_split g c : c <= g -> (bpow g == inject_Z (2 ^ (g - c)) * bpow c)%Q.
Proof.
  intros H. rewrite <- bpow_Z by lia. rewrite <- bpow_add. f_equal.
  replace (g - c + c) with g by lia. reflexivity.
Qed.

Lemma mag_of_mantissa x m e l :
  0 < m -> locates x m e l -> mag x (Zdigits2 m + e).
Proof.
  intros Hm H. apply locates_bounds in H. destruct H as [H1 H2].
  destruct (Zdigits2_bounds m Hm) as [[B1 B2] B3].
  pose proof (bpow_pos e) as Ht.
  split.
  - rewrite (bpow_split (Zdigits2 m + e - 1) e) by lia.
    replace (Zdigits2 m + e - 1 - e) with (Zdigits2 m - 1) by lia.
    apply inject_Z_le in B1.
    set (t := bpow e) in *. set (M := inject_Z m) in *.
    set (D := inject_Z (2 ^ (Zdigits2 m - 1))) in *.
    clearbody t M D. nra.
  - rewrite (bpow_split (Zdigits2 m + e) e) by lia.
    replace (Zdigits2 m + e - e) with (Zdigits2 m) by lia.
    assert (B : m + 1 <= 2 ^ Zdigits2 m) by lia.
    apply inject_Z_le in B. rewrite inject_Z_plus in B.
    set (t := bpow e) in *. set (M := inject_Z m) in *.
    set (D := inject_Z (2 ^ Zdigits2 m)) in *.
    change (inject_Z 1) with 1%Q in B. clearbody t M D. nra.
Qed.

Lemma round_stage x m e l g :
  0 <= m -> locates x m e l -> mag x g -> e <= fexp64 g ->
  let '(mrs', e') := shr_fexp prec emax m e l in
  e' = fexp64 g /\
  locates x (shr_m mrs') e' (loc_of_shr_record mrs') /\
  0 <= shr_m mrs'.
Proof.
  intros Hm H Hg He. unfold shr_fexp.
  assert (E : fexp64 (Zdigits2 m + e) = fexp64 g).
  { destruct (Z.eq_dec m 0) as [->|N].
    - simpl Zdigits2. apply locates_bounds in H. destruct H as [_ H].
      destruct Hg as [G1 _].
      assert (g - 1 < e).
      { apply bpow_lt_inv. change (inject_Z 0) with 0%Q in H.
        generalize dependent (bpow e). generalize dependent (bpow (g - 1)).
        intros; lra. }
      rewrite !fexp_eq in *. lia.
    - f_equal. apply (mag_unique x); [|exact Hg].
      apply (mag_of_mantissa x m e l); [lia | exact H]. }
  rewrite E.
  pose proof (shr_spec x m e l (fexp64 g - e) Hm ltac:(lia) H) as S.
  destruct (shr (shr_record_of_loc m l) e (fexp64 g - e)) as [mrs' e'].
  destruct S as [S1 [S2 S3]].
  split; [lia|]. split; [exact S2|].
  rewrite S3. apply Z.div_pos; [exact Hm | apply Z.pow_pos_nonneg; lia].
Qed.

Lemma trunc_bounds x k c l g :
  locates x k c l -> mag x g -> c = fexp64 g -> 0 <= k ->
  k < 2 ^ prec /\ (c = emin64 \/ 2 ^ (prec - 1) <= k) /\
  (c <= g - 1 -> 0 < k).
Proof.
  intros H [G1 G2] Hc Hk. apply locates_bounds in H. destruct H as [H1 H2].
  pose proof (bpow_pos c) as Ht.
  assert (U : k < 2 ^ prec).
  { destruct (Z_le_gt_dec c g) as [L|L].
    - assert (k < 2 ^ (g - c)).
      { apply (Qmul_lt_inj _ _ (bpow c) Ht). rewrite <- bpow_split by lia. lra. }
      assert (2 ^ (g - c) <= 2 ^ prec).
      { apply Z.pow_le_mono_r; [lia|]. rewrite fexp_eq in Hc. unfold prec. lia. }
      lia.
    - assert (k < 1).
      { apply (Qmul_lt_inj _ _ (bpow c) Ht).
        assert (bpow g < bpow c)%Q by (apply bpow_lt; lia).
        change (inject_Z 1) with 1%Q. lra. }
      assert (0 < 2 ^ prec) by (apply Z.pow_pos_nonneg; unfold prec; lia). lia. }
  assert (Lw : forall j, 0 <= j -> c + j <= g - 1 -> 2 ^ j <= k).
  { intros j Hj Hcj.
    assert (2 ^ j < k + 1); [|lia].
    apply (Qmul_lt_inj _ _ (bpow c) Ht).
    assert (bpow (c + j) <= bpow (g - 1))%Q by (apply bpow_le; lia).
    rewrite (bpow_split (c + j) c) in H by lia.
    replace (c + j - c) with j in H by lia.
    rewrite inject_Z_plus. change (inject_Z 1) with 1%Q. lra. }
  split; [exact U|]. split.
  - destruct (Z.eq_dec c emin64) as [E|N]; [left; exact E|right].
    apply Lw; [unfold prec; lia|]. rewrite fexp_eq in Hc. unfold prec. lia.
  - intros L. specialize (Lw 0 ltac:(lia) ltac:(lia)). simpl in Lw. lia.
Qed.

(** ** The last step: carry and overflow *)

Lemma bra_finish s m e l :
  binary_round_aux prec emax s m e l =
  let '(mrs', e') := shr_fexp prec emax m e l in
  finish s (round_nearest_even (shr_m mrs') (loc_of_shr_record mrs')) e'.
Proof.
  unfold binary_round_aux, finish.
  destruct (shr_fexp prec emax m e l) as [mrs' e']. reflexivity.
Qed.

Lemma shr_nonpos mrs e n : n <= 0 -> shr mrs e n = (mrs, e).
Proof. destruct n; try reflexivity. lia. Qed.
Lemma Zdigits2_le_prec r : 0 < r < 2 ^ prec -> Zdigits2 r <= prec.
Proof.
  intros [H1 H2]. destruct (Zdigits2_bounds r H1) as [[B1 B2] B3].
  destruct (Z_le_gt_dec (Zdigits2 r) prec) as [L|L]; [exact L|].
  assert (2 ^ prec <= 2 ^ (Zdigits2 r - 1)) by (apply Z.pow_le_mono_r; lia).
  lia.
Qed.

Lemma Zdigits2_normal r : 2 ^ (prec - 1) <= r < 2 ^ prec -> Zdigits2 r = prec.
Proof.
  intros H. apply Zdigits2_unique; unfold prec in *; lia.
Qed.

Lemma finish_spec s r c :
  0 <= r <= 2 ^ prec -> emin64 <= c -> (c = emin64 \/ 2 ^ (prec - 1) <= r) ->
  finish s r c =
    if r =? 0 then S754_zero s
    else if norm_e r c <=? emax - prec
         then S754_finite s (Z.to_pos (norm_m r)) (norm_e r c)
         else S754_infinity s.
Proof.
  intros Hr Hc Hn. unfold finish, shr_fexp, norm_e, norm_m.
  destruct (Z.eqb_spec r 0) as [->|N0].
  - rewrite shr_nonpos by (simpl Zdigits2; rewrite fexp_eq; lia). reflexivity.
  - destruct (Z.eqb_spec r (2 ^ prec)) as [->|N1].
    + replace (fexp64 (Zdigits2 (2 ^ prec) + c) - c) with 1
        by (change (Zdigits2 (2 ^ prec)) with 54; rewrite fexp_eq; lia).
      reflexivity.
    + assert (D : Zdigits2 r <= prec) by (apply Zdigits2_le_prec; lia).
      rewrite shr_nonpos by (rewrite fexp_eq; unfold prec in D; lia).
      simpl shr_m. destruct r as [|p|p]; try lia. reflexivity.
Qed.

Lemma finish_valid s r c :
  0 <= r <= 2 ^ prec -> emin64 <= c -> (c = emin64 \/ 2 ^ (prec - 1) <= r) ->
  valid_binary prec emax (finish s r c) = true.
Proof.
  intros Hr Hc Hn. rewrite finish_spec by assumption.
  destruct (Z.eqb_spec r 0) as [E0|N0]; [reflexivity|].
  destruct (Z.leb_spec (norm_e r c) (emax - prec)) as [L|L]; [|reflexivity].
  unfold valid_binary, bounded, canonical_mantissa.
  apply andb_true_intro. split; [|apply Z.leb_le; exact L].
  apply Z.eqb_eq. revert L. unfold norm_e, norm_m.
  destruct (Z.eqb_spec r (2 ^ prec)) as [E1|N1]; intros L.
  - change (Z.pos (digits2_pos (Z.to_pos (2 ^ (prec - 1))))) with 53.
    rewrite fexp_eq. lia.
  - change (Z.pos (digits2_pos (Z.to_pos r))) with (Zdigits2 (Z.pos (Z.to_pos r))).
    rewrite Z2Pos.id by lia.
    destruct Hn as [Hn|Hn].
    + assert (D : Zdigits2 r <= prec) by (apply Zdigits2_le_prec; lia).
      destruct (Zdigits2_bounds r ltac:(lia)) as [_ B].
      rewrite fexp_eq. unfold prec in D. lia.
    + rewrite Zdigits2_normal by lia. rewrite fexp_eq. unfold prec. lia.
Qed.

Lemma SFleb_finite_pos p1 e1 p2 e2 :
  e1 < e2 \/ (e1 = e2 /\ (p1 <= p2)%positive) ->
  SFleb (S754_finite false p1 e1) (S754_finite false p2 e2) = true.
Proof.
  intros H. unfold SFleb, SFcompare.
  destruct (Z.compare_spec e1 e2) as [C|C|C]; try reflexivity; try lia.
  rewrite Pos.compare_cont_spec. unfold Pos.switch_Eq.
  destruct (Pos.compare_spec p1 p2); try reflexivity; lia.
Qed.

Lemma finish_mono r1 c1 r2 c2 :
  0 <= r1 <= 2 ^ prec -> emin64 <= c1 -> (c1 = emin64 \/ 2 ^ (prec - 1) <= r1) ->
  0 <= r2 <= 2 ^ prec -> emin64 <= c2 -> (c2 = emin64 \/ 2 ^ (prec - 1) <= r2) ->
  (c1 = c2 /\ r1 <= r2) \/ c1 < c2 ->
  SFleb (finish false r1 c1) (finish false r2 c2) = true.
Proof.
  intros Hr1 Hc1 Hn1 Hr2 Hc2 Hn2 Hord.
  rewrite !finish_spec by assumption.
  assert (P : 2 ^ (prec - 1) = 4503599627370496) by reflexivity.
  assert (P' : 2 ^ prec = 9007199254740992) by reflexivity.
  unfold norm_e, norm_m. rewrite P, P' in *.
  destruct (Z.eqb_spec r1 0) as [E1|N1].
  - destruct (r2 =? 0); [reflexivity|].
    destruct (_ <=? _); reflexivity.
  - destruct (Z.eqb_spec r2 0) as [E2|N2]; [lia|].
    destruct (Z.eqb_spec r1 9007199254740992) as [F1|F1];
    destruct (Z.eqb_spec r2 9007199254740992) as [F2|F2];
    repeat match goal with
           | |- context [?a <=? ?b] => destruct (Z.leb_spec a b)
           end; try reflexivity; try lia;
    apply SFleb_finite_pos; lia.
Qed.

(** ** Rounding is canonical and monotone *)

Lemma rne_bounds k l : k <= round_nearest_even k l <= k + 1.
Proof.
  destruct l as [|[| |]]; simpl; try lia. destruct (Z.even k); lia.
Qed.

Lemma rne_mono x1 x2 k c l1 l2 :
  locates x1 k c l1 -> locates x2 k c l2 -> (x1 <= x2)%Q ->
  round_nearest_even k l1 <= round_nearest_even k l2.
Proof.
  intros H1 H2 H. pose proof (bpow_pos c) as Ht.
  destruct (Z.even k) eqn:Ev;
  destruct l1 as [|[| |]], l2 as [|[| |]]; simpl in *; rewrite ?Ev; try lia;
    exfalso; generalize dependent (bpow c); generalize dependent (inject_Z k);
    intros; nra.
Qed.

Lemma bra_rounded s x m e l g :
  0 <= m -> locates x m e l -> mag x g -> e <= fexp64 g ->
  exists r, binary_round_aux prec emax s m e l = finish s r (fexp64 g) /\
            rounded x g r.
Proof.
  intros Hm H Hg He. rewrite bra_finish.
  pose proof (round_stage x m e l g Hm H Hg He) as S.
  destruct (shr_fexp prec emax m e l) as [mrs' e'].
  destruct S as [S1 [S2 S3]]. subst e'.
  eexists. split; [reflexivity|].
  exists (shr_m mrs'), (loc_of_shr_record mrs'). auto.
Qed.

Lemma rounded_bounds x g r :
  mag x g -> rounded x g r ->
  0 <= r <= 2 ^ prec /\ emin64 <= fexp64 g /\
  (fexp64 g = emin64 \/ 2 ^ (prec - 1) <= r) /\
  (fexp64 g <= g - 1 -> 0 < r).
Proof.
  intros Hg (k & l & H & Hk & ->).
  destruct (trunc_bounds x k (fexp64 g) l g H Hg eq_refl Hk) as [B1 [B2 B3]].
  pose proof (rne_bounds k l) as R.
  split; [lia|]. split; [rewrite fexp_eq; lia|]. split.
  - destruct B2 as [B2|B2]; [left; exact B2 | right; lia].
  - intros L. specialize (B3 L). lia.
Qed.

Lemma rounded_mono x1 x2 g1 g2 r1 r2 :
  mag x1 g1 -> mag x2 g2 -> (x1 <= x2)%Q ->
  rounded x1 g1 r1 -> rounded x2 g2 r2 ->
  (fexp64 g1 = fexp64 g2 /\ r1 <= r2) \/ fexp64 g1 < fexp64 g2.
Proof.
  intros M1 M2 H (k1 & l1 & L1 & K1 & ->) (k2 & l2 & L2 & K2 & ->).
  pose proof (mag_le _ _ _ _ M1 M2 H) as G.
  destruct (Z.eq_dec (fexp64 g1) (fexp64 g2)) as [E|N].
  2:{ right. rewrite !fexp_eq in *. lia. }
  left. split; [exact E|].
  rewrite E in L1.
  pose proof (locates_bounds _ _ _ _ L1) as [A1 A2].
  pose proof (locates_bounds _ _ _ _ L2) as [B1 B2].
  pose proof (bpow_pos (fexp64 g2)) as Ht.
  assert (k1 < k2 + 1).
  { apply (Qmul_lt_inj _ _ (bpow (fexp64 g2)) Ht).
    rewrite inject_Z_plus. change (inject_Z 1) with 1%Q. lra. }
  destruct (Z.eq_dec k1 k2) as [<-|Nk].
  - apply (rne_mono x1 x2 k1 (fexp64 g2)); assumption.
  - pose proof (rne_bounds k1 l1). pose proof (rne_bounds k2 l2). lia.
Qed.

Theorem bra_valid s x m e l :
  rounds_in x m e l -> valid_binary prec emax (binary_round_aux prec emax s m e l) = true.
Proof.
  intros (Hm & H & g & Hg & He).
  destruct (bra_rounded s x m e l g Hm H Hg He) as (r & -> & R).
  destruct (rounded_bounds x g r Hg R) as (B1 & B2 & B3 & _).
  apply finish_valid; assumption.
Qed.

Theorem bra_mono x1 m1 e1 l1 x2 m2 e2 l2 :
  rounds_in x1 m1 e1 l1 -> rounds_in x2 m2 e2 l2 -> (x1 <= x2)%Q ->
  SFleb (binary_round_aux prec emax false m1 e1 l1)
        (binary_round_aux prec emax false m2 e2 l2) = true.
Proof.
  intros (Hm1 & H1 & g1 & Hg1 & He1) (Hm2 & H2 & g2 & Hg2 & He2) H.
  destruct (bra_rounded false x1 m1 e1 l1 g1 Hm1 H1 Hg1 He1) as (r1 & -> & R1).
  destruct (bra_rounded false x2 m2 e2 l2 g2 Hm2 H2 Hg2 He2) as (r2 & -> & R2).
  destruct (rounded_bounds x1 g1 r1 Hg1 R1) as (A1 & A2 & A3 & _).
  destruct (rounded_bounds x2 g2 r2 Hg2 R2) as (B1 & B2 & B3 & _).
  apply finish_mono; try assumption.
  apply (rounded_mono x1 x2 g1 g2); assumption.
Qed.

Lemma finish_nonneg r c :
  0 <= r <= 2 ^ prec -> emin64 <= c -> (c = emin64 \/ 2 ^ (prec - 1) <= r) ->
  nonneg_float (finish false r c) /\ (0 < r -> pos_float (finish false r c)).
Proof.
  intros Hr Hc Hn. rewrite finish_spec by assumption.
  destruct (Z.eqb_spec r 0) as [E|N]; [simpl; split; [exact I | lia]|].
  destruct (_ <=? _); simpl; auto.
Qed.

Theorem bra_nonneg x m e l :
  rounds_in x m e l -> nonneg_float (binary_round_aux prec emax false m e l).
Proof.
  intros (Hm & H & g & Hg & He).
  destruct (bra_rounded false x m e l g Hm H Hg He) as (r & -> & R).
  destruct (rounded_bounds x g r Hg R) as (B1 & B2 & B3 & _).
  apply finish_nonneg; assumption.
Qed.

Theorem bra_pos x m e l :
  rounds_in x m e l -> (bpow emin64 <= x)%Q ->
  pos_float (binary_round_aux prec emax false m e l).
Proof.
  intros (Hm & H & g & Hg & He) Hx.
  destruct (bra_rounded false x m e l g Hm H Hg He) as (r & -> & R).
  destruct (rounded_bounds x g r Hg R) as (B1 & B2 & B3 & B4).
  apply finish_nonneg; try assumption.
  apply B4. destruct Hg as [_ G].
  assert (emin64 < g) by (apply bpow_lt_inv; lra).
  rewrite fexp_eq. lia.
Qed.

Lemma bra_opp m e l :
  binary_round_aux prec emax true m e l =
  SFopp (binary_round_aux prec emax false m e l).
Proof.
  unfold binary_round_aux.
  destruct (shr_fexp prec emax m e l) as [mrs' e'].
  destruct (shr_fexp prec emax _ e' loc_Exact) as [mrs'' e''].
  destruct (shr_m mrs''); try reflexivity.
  destruct (_ <=? _); reflexivity.
Qed.

(** ** Rounding a mantissa and an exponent *)

Lemma F2Q_pos m e : 0 < m -> (0 < F2Q m e)%Q.
Proof.
  intros H. unfold F2Q. pose proof (bpow_pos e).
  apply inject_Z_lt in H. change (inject_Z 0) with 0%Q in H.
  generalize dependent (bpow e). generalize dependent (inject_Z m). intros; nra.
Qed.

Lemma F2Q_shift m e n : 0 <= n -> (F2Q (m * 2 ^ n) (e - n) == F2Q m e)%Q.
Proof.
  intros H. unfold F2Q. rewrite inject_Z_mult, <- bpow_Z by exact H.
  rewrite <- Qmult_assoc, <- bpow_add.
  replace (n + (e - n)) with e by lia. reflexivity.
Qed.

Lemma mag_F2Q m e : 0 < m -> mag (F2Q m e) (Zdigits2 m + e).
Proof.
  intros H. apply (mag_of_mantissa _ m e loc_Exact H). simpl. reflexivity.
Qed.

Lemma iter_xO m d : Z.pos (Pos.iter xO m d) = Z.pos m * 2 ^ Z.pos d.
Proof.
  induction d as [|d IH] using Pos.peano_ind.
  - simpl. lia.
  - rewrite Pos.iter_succ, Pos2Z.inj_xO, IH, Pos2Z.inj_succ, Z.pow_succ_r by lia.
    lia.
Qed.

Lemma shl_align_spec mx ex ex' :
  let '(mz, ez) := shl_align mx ex ex' in
  ez = Z.min ex ex' /\ Z.pos mz = Z.pos mx * 2 ^ (ex - ez).
Proof.
  unfold shl_align. destruct (ex' - ex) as [|d|d] eqn:E.
  - split; [lia|]. replace (ex - ex) with 0 by lia. simpl. lia.
  - split; [lia|]. replace (ex - ex) with 0 by lia. simpl. lia.
  - split; [lia|]. rewrite iter_xO. f_equal. f_equal. lia.
Qed.

Lemma binary_round_spec s mx ex :
  exists mz ez,
    binary_round prec emax s mx ex = binary_round_aux prec emax s (Z.pos mz) ez loc_Exact /\
    rounds_in (F2Q (Z.pos mx) ex) (Z.pos mz) ez loc_Exact.
Proof.
  unfold binary_round.
  pose proof (shl_align_spec mx ex (fexp64 (Z.pos (digits2_pos mx) + ex))) as S.
  destruct (shl_align mx ex _) as [mz ez]. destruct S as [S1 S2].
  exists mz, ez. split; [reflexivity|].
  split; [lia|]. split.
  - simpl. rewrite S2. symmetry.
    rewrite <- (F2Q_shift (Z.pos mx) ex (ex - ez)) by lia.
    unfold F2Q. replace (ex - (ex - ez)) with ez by lia. reflexivity.
  - exists (Zdigits2 (Z.pos mx) + ex). split.
    + apply mag_F2Q. lia.
    + simpl Zdigits2. lia.
Qed.

Theorem binary_round_valid s mx ex :
  valid_binary prec emax (binary_round prec emax s mx ex) = true.
Proof.
  destruct (binary_round_spec s mx ex) as (mz & ez & -> & R).
  apply (bra_valid _ _ _ _ _ R).
Qed.

Theorem binary_round_mono m1 e1 m2 e2 :
  (F2Q (Z.pos m1) e1 <= F2Q (Z.pos m2) e2)%Q ->
  SFleb (binary_round prec emax false m1 e1) (binary_round prec emax false m2 e2) = true.
Proof.
  intros H.
  destruct (binary_round_spec false m1 e1) as (mz1 & ez1 & -> & R1).
  destruct (binary_round_spec false m2 e2) as (mz2 & ez2 & -> & R2).
  apply (bra_mono _ _ _ _ _ _ _ _ R1 R2 H).
Qed.

Theorem binary_round_pos mx ex :
  emin64 <= ex -> pos_float (binary_round prec emax false mx ex).
Proof.
  intros He.
  destruct (binary_round_spec false mx ex) as (mz & ez & -> & R).
  apply (bra_pos _ _ _ _ R).
  unfold F2Q. pose proof (bpow_le emin64 ex He). pose proof (bpow_pos ex).
  assert (1 <= inject_Z (Z.pos mx))%Q.
  { change 1%Q with (inject_Z 1). apply inject_Z_le. lia. }
  generalize dependent (bpow ex). generalize dependent (bpow emin64).
  generalize dependent (inject_Z (Z.pos mx)). intros; nra.
Qed.

Lemma binary_round_opp mx ex :
  binary_round prec emax true mx ex = SFopp (binary_round prec emax false mx ex).
Proof.
  unfold binary_round. destruct (shl_align mx ex _) as [mz ez]. apply bra_opp.
Qed.

(** A canonical float is a fixed point of rounding. *)
Lemma bra_exact_id s m e :
  bounded prec emax m e = true ->
  binary_round_aux prec emax s (Z.pos m) e loc_Exact = S754_finite s m e.
Proof.
  unfold bounded, canonical_mantissa. intros H.
  apply andb_prop in H. destruct H as [H1 H2]. apply Z.eqb_eq in H1.
  unfold binary_round_aux, shr_fexp. simpl Zdigits2. rewrite H1.
  replace (e - e) with 0 by lia.
  cbn [shr shr_record_of_loc shr_m loc_of_shr_record round_nearest_even Zdigits2].
  rewrite H1. replace (e - e) with 0 by lia.
  cbn [shr shr_record_of_loc shr_m]. rewrite H2. reflexivity.
Qed.

Lemma bounded_rounds_in m e :
  bounded prec emax m e = true ->
  rounds_in (F2Q (Z.pos m) e) (Z.pos m) e loc_Exact.
Proof.
  unfold bounded, canonical_mantissa. intros H.
  apply andb_prop in H. destruct H as [H1 H2]. apply Z.eqb_eq in H1.
  split; [lia|]. split; [simpl; reflexivity|].
  exists (Zdigits2 (Z.pos m) + e). split; [apply mag_F2Q; lia|].
  simpl Zdigits2. lia.
Qed.

(** ** The order [SFcompare] *)

Lemma SFcompare_antisym a b :
  SFcompare b a = option_map CompOpp (SFcompare a b).
Proof.
  destruct a as [sa|sa| |sa ma ea], b as [sb|sb| |sb mb eb];
    try destruct sa; try destruct sb; try reflexivity; simpl;
    rewrite (Z.compare_antisym ea eb); destruct (ea ?= eb); simpl;
    rewrite ?Pos.compare_cont_antisym; simpl; try reflexivity;
    rewrite <- (Pos.compare_cont_antisym mb ma Eq); simpl;
    rewrite ?CompOpp_involutive; reflexivity.
Qed.

Lemma SFcompare_opp a b : SFcompare (SFopp a) (SFopp b) = SFcompare b a.
Proof.
  destruct a as [sa|sa| |sa ma ea], b as [sb|sb| |sb mb eb];
    try destruct sa; try destruct sb; try reflexivity; simpl;
    rewrite (Z.compare_antisym ea eb); destruct (ea ?= eb); simpl;
    rewrite ?Pos.compare_cont_antisym; simpl; try reflexivity;
    rewrite <- (Pos.compare_cont_antisym mb ma Eq); simpl;
    rewrite ?CompOpp_involutive; reflexivity.
Qed.

Lemma SFleb_opp a b : SFleb (SFopp a) (SFopp b) = SFleb b a.
Proof. unfold SFleb. rewrite SFcompare_opp. reflexivity. Qed.
Lemma SFltb_asym a b : SFltb a b = true -> SFltb b a = false.
Proof.
  unfold SFltb. rewrite (SFcompare_antisym a b).
  destruct (SFcompare a b) as [[| |]|]; simpl; congruence.
Qed.

Lemma SFeqb_not_ltb a b : SFeqb a b = true -> SFltb b a = false.
Proof.
  unfold SFltb, SFeqb. rewrite (SFcompare_antisym a b).
  destruct (SFcompare a b) as [[| |]|]; simpl; congruence.
Qed.

Lemma SFleb_refl a : a <> S754_nan -> SFleb a a = true.
Proof.
  unfold SFleb. destruct a as [s|s| |s m e]; try destruct s; simpl;
    try congruence; intros _; rewrite Z.compare_refl;
    rewrite Pos.compare_cont_refl; reflexivity.
Qed.

Ltac cmp_cases :=
  repeat match goal with
         | H : context [Pos.compare_cont Eq ?p ?q] |- _ =>
             rewrite (Pos.compare_cont_spec p q) in H; unfold Pos.switch_Eq in H
         | |- context [Pos.compare_cont Eq ?p ?q] =>
             rewrite (Pos.compare_cont_spec p q); unfold Pos.switch_Eq
         end;
  repeat match goal with
         | H : context [Z.compare ?a ?b] |- _ =>
             destruct (Z.compare_spec a b); simpl in H; try discriminate
         | H : context [Pos.compare ?a ?b] |- _ =>
             destruct (Pos.compare_spec a b); simpl in H; try discriminate
         | |- context [Z.compare ?a ?b] =>
             destruct (Z.compare_spec a b); simpl; try reflexivity; try lia
         | |- context [Pos.compare ?a ?b] =>
             destruct (Pos.compare_spec a b); simpl; try reflexivity; try lia
         end.

Lemma SFleb_trans a b c :
  SFleb a b = true -> SFleb b c = true -> SFleb a c = true.
Proof.
  unfold SFleb.
  destruct a as [sa|sa| |sa ma ea], b as [sb|sb| |sb mb eb], c as [sc|sc| |sc mc ec];
    try destruct sa; try destruct sb; try destruct sc; simpl;
    try reflexivity; try discriminate; intros H1 H2; cmp_cases;
    try reflexivity; try discriminate; try lia.
Qed.

(** On canonical positive floats the order is the order of the values. *)
Lemma bounded_facts m e :
  bounded prec emax m e = true ->
  emin64 <= e /\ Z.pos m < 2 ^ prec /\ (e = emin64 \/ 2 ^ (prec - 1) <= Z.pos m).
Proof.
  unfold bounded, canonical_mantissa. intros H.
  apply andb_prop in H. destruct H as [H1 _]. apply Z.eqb_eq in H1.
  rewrite fexp_eq in H1.
  destruct (Zdigits2_bounds (Z.pos m) ltac:(lia)) as [[B1 B2] B3].
  simpl Zdigits2 in *.
  split; [lia|]. split.
  - assert (2 ^ Z.pos (digits2_pos m) <= 2 ^ prec)
      by (apply Z.pow_le_mono_r; unfold prec; lia). lia.
  - destruct (Z.eq_dec e emin64) as [E|N]; [left; exact E|right].
    replace (prec - 1) with (Z.pos (digits2_pos m) - 1) by (unfold prec; lia).
    exact B1.
Qed.

Lemma F2Q_le_mantissa m1 m2 e : m1 <= m2 -> (F2Q m1 e <= F2Q m2 e)%Q.
Proof.
  intros H. unfold F2Q. apply Qmult_le_compat_r.
  - apply inject_Z_le. exact H.
  - apply Qlt_le_weak, bpow_pos.
Qed.

Lemma SFleb_val m1 e1 m2 e2 :
  bounded prec emax m1 e1 = true -> bounded prec emax m2 e2 = true ->
  SFleb (S754_finite false m1 e1) (S754_finite false m2 e2) = true ->
  (F2Q (Z.pos m1) e1 <= F2Q (Z.pos m2) e2)%Q.
Proof.
  intros B1 B2 H.
  destruct (bounded_facts _ _ B1) as (A1 & A2 & A3).
  destruct (bounded_facts _ _ B2) as (C1 & C2 & C3).
  unfold SFleb, SFcompare in H.
  destruct (Z.compare_spec e1 e2) as [E|L|G].
  - subst e2. apply F2Q_le_mantissa.
    rewrite Pos.compare_cont_spec in H. unfold Pos.switch_Eq in H.
    destruct (Pos.compare_spec m1 m2); try discriminate; lia.
  - destruct C3 as [C3|C3]; [lia|].
    apply Qle_trans with (F2Q (2 ^ prec) e1).
    + apply F2Q_le_mantissa. lia.
    + apply Qle_trans with (F2Q (2 ^ (prec - 1)) e2).
      * rewrite <- (F2Q_shift (2 ^ (prec - 1)) e2 (e2 - e1 - 1)) by lia.
        replace (e2 - (e2 - e1 - 1)) with (e1 + 1) by lia.
        rewrite <- (F2Q_shift (2 ^ (prec - 1) * 2 ^ (e2 - e1 - 1)) (e1 + 1) 1) by lia.
        replace (e1 + 1 - 1) with e1 by lia.
        apply F2Q_le_mantissa.
        replace (2 ^ prec) with (2 ^ (prec - 1) * 2 ^ 1) by reflexivity.
        assert (1 <= 2 ^ (e2 - e1 - 1)) by (apply Z.pow_le_mono_r with (b := 0); lia).
        nia.
      * apply F2Q_le_mantissa. exact C3.
  - discriminate.
Qed.

(** ** Addition and subtraction *)

Lemma binary_round_ge_bounded m e q ez :
  bounded prec emax m e = true ->
  (F2Q (Z.pos m) e <= F2Q (Z.pos q) ez)%Q ->
  SFleb (S754_finite false m e) (binary_round prec emax false q ez) = true.
Proof.
  intros B H. rewrite <- (bra_exact_id false m e B).
  destruct (binary_round_spec false q ez) as (mz & ez' & -> & R).
  apply (bra_mono _ _ _ _ _ _ _ _ (bounded_rounds_in m e B) R H).
Qed.

Lemma binary_round_le_bounded m e q ez :
  bounded prec emax m e = true ->
  (F2Q (Z.pos q) ez <= F2Q (Z.pos m) e)%Q ->
  SFleb (binary_round prec emax false q ez) (S754_finite false m e) = true.
Proof.
  intros B H. rewrite <- (bra_exact_id false m e B).
  destruct (binary_round_spec false q ez) as (mz & ez' & -> & R).
  apply (bra_mono _ _ _ _ _ _ _ _ R (bounded_rounds_in m e B) H).
Qed.

Lemma binary_normalize_valid m e sz :
  valid_binary prec emax (binary_normalize prec emax m e sz) = true.
Proof.
  destruct m; simpl; [reflexivity | apply binary_round_valid ..].
Qed.

Lemma align_value m e ez :
  ez <= e ->
  (F2Q (Z.pos (fst (shl_align m e ez))) ez == F2Q (Z.pos m) e)%Q.
Proof.
  intros H. pose proof (shl_align_spec m e ez) as S.
  destruct (shl_align m e ez) as [mz ez']. destruct S as [S1 S2]. simpl fst.
  rewrite S2, S1. replace (Z.min e ez) with ez by lia.
  rewrite <- (F2Q_shift (Z.pos m) e (e - ez)) by lia.
  replace (e - (e - ez)) with ez by lia. reflexivity.
Qed.

Lemma binary_round_nonneg q ez :
  nonneg_float (binary_round prec emax false q ez).
Proof.
  destruct (binary_round_spec false q ez) as (mz & ez' & -> & R).
  apply (bra_nonneg _ _ _ _ R).
Qed.

Lemma SFleb_neg_nonneg m e f :
  nonneg_float f -> SFleb (S754_finite true m e) f = true.
Proof.
  destruct f as [s|s| |s m' e']; try destruct s; simpl; intros H;
    try contradiction; reflexivity.
Qed.

(** Adding a positive number never yields a smaller one. *)
Theorem SFadd_pos_ge b p :
  addable b = true -> SFltb (S754_zero false) p = true ->
  SFleb b (SFadd prec emax b p) = true.
Proof.
  unfold addable. intros Hb Hp. apply andb_prop in Hb. destruct Hb as [Vb Nb].
  destruct p as [sp|sp| |sp mp ep]; try destruct sp; try discriminate Hp.
  - destruct b as [sb|sb| |sb mb eb]; try destruct sb; try discriminate Nb;
      reflexivity.
  - destruct b as [sb|sb| |sb mb eb]; try destruct sb; try discriminate Nb;
      try reflexivity.
    + (* negative finite budget *)
      simpl in Vb. unfold SFadd.
      set (ez := Z.min eb ep).
      pose proof (align_value mb eb ez ltac:(lia)) as Ab.
      pose proof (align_value mp ep ez ltac:(lia)) as Ap.
      set (mb' := fst (shl_align mb eb ez)) in *.
      set (mp' := fst (shl_align mp ep ez)) in *.
      set (M := cond_Zopp true (Z.pos mb') + cond_Zopp false (Z.pos mp')).
      assert (HM : M = - Z.pos mb' + Z.pos mp') by reflexivity.
      clearbody M. destruct M as [|q|q]; unfold binary_normalize.
      * reflexivity.
      * apply SFleb_neg_nonneg, binary_round_nonneg.
      * rewrite binary_round_opp.
        change (S754_finite true mb eb) with (SFopp (S754_finite false mb eb)).
        rewrite SFleb_opp. apply binary_round_le_bounded; [exact Vb|].
        rewrite <- Ab. apply F2Q_le_mantissa. lia.
    + simpl in Vb. unfold SFadd.
      set (ez := Z.min eb ep).
      pose proof (align_value mb eb ez ltac:(lia)) as Ab.
      set (mb' := fst (shl_align mb eb ez)) in *.
      set (mp' := fst (shl_align mp ep ez)) in *.
      set (M := cond_Zopp false (Z.pos mb') + cond_Zopp false (Z.pos mp')).
      assert (HM : M = Z.pos mb' + Z.pos mp') by reflexivity.
      clearbody M. destruct M as [|q|q]; try lia. unfold binary_normalize.
      apply binary_round_ge_bounded; [exact Vb|].
      rewrite <- Ab. apply F2Q_le_mantissa. lia.
Qed.

Theorem SFadd_valid x y :
  valid_binary prec emax x = true -> valid_binary prec emax y = true ->
  valid_binary prec emax (SFadd prec emax x y) = true.
Proof.
  intros Vx Vy.
  destruct x as [sx|sx| |sx mx ex], y as [sy|sy| |sy my ey];
    try destruct sx; try destruct sy; try reflexivity; try assumption;
    unfold SFadd; apply binary_normalize_valid.
Qed.

Theorem SFsub_valid x y :
  valid_binary prec emax x = true -> valid_binary prec emax y = true ->
  valid_binary prec emax (SFsub prec emax x y) = true.
Proof.
  intros Vx Vy.
  destruct x as [sx|sx| |sx mx ex], y as [sy|sy| |sy my ey];
    try destruct sx; try destruct sy; try reflexivity; try assumption;
    unfold SFsub; apply binary_normalize_valid.
Qed.

Theorem SFadd_addable b p :
  addable b = true -> valid_binary prec emax p = true ->
  SFltb (S754_zero false) p = true ->
  addable (SFadd prec emax b p) = true.
Proof.
  unfold addable. intros Hb Vp Hp. apply andb_prop in Hb. destruct Hb as [Vb Nb].
  apply andb_true_intro. split; [apply SFadd_valid; assumption|].
  pose proof (SFadd_pos_ge b p) as G. unfold addable in G.
  rewrite Vb, Nb in G. specialize (G eq_refl Hp).
  destruct (SFadd prec emax b p) as [s|s| |s m e]; try reflexivity.
  - destruct s; [|reflexivity].
    destruct b as [sb|sb| |sb mb eb]; try destruct sb; try discriminate Nb;
      discriminate G.
  - destruct b as [sb|sb| |sb mb eb]; discriminate G.
Qed.

(** ** Division *)

Lemma new_location_spec m2 r x q e :
  0 < m2 -> 0 <= r < m2 ->
  (x * inject_Z m2 == (inject_Z q * inject_Z m2 + inject_Z r) * bpow e)%Q ->
  locates x q e (new_location m2 r).
Proof.
  intros Hm Hr Hx.
  pose proof (bpow_pos e) as Ht.
  assert (HM : (0 < inject_Z m2)%Q) by (change 0%Q with (inject_Z 0); apply inject_Z_lt; lia).
  assert (HR : (0 <= inject_Z r)%Q) by (change 0%Q with (inject_Z 0); apply inject_Z_le; lia).
  assert (C : forall a b, a < b -> (inject_Z a < inject_Z b)%Q) by (intros; apply inject_Z_lt; assumption).
  assert (E2 : forall a, (inject_Z (2 * a) == 2 * inject_Z a)%Q)
    by (intros; rewrite inject_Z_mult; reflexivity).
  unfold new_location, new_location_even, new_location_odd.
  destruct (Z.eqb_spec r 0) as [->|N].
  - assert (L : locates x q e loc_Exact).
    { simpl. change (inject_Z 0) with 0%Q in Hx.
      generalize dependent (bpow e). generalize dependent (inject_Z q).
      generalize dependent (inject_Z m2). intros; nra. }
    destruct (Z.even m2); exact L.
  - assert (HR' : (0 < inject_Z r)%Q) by (change 0%Q with (inject_Z 0); apply inject_Z_lt; lia).
    assert (Lt_case : 2 * r < m2 -> locates x q e (loc_Inexact Lt)).
    { intros L. apply C in L. rewrite E2 in L. simpl.
      generalize dependent (bpow e). generalize dependent (inject_Z q).
      generalize dependent (inject_Z m2). generalize dependent (inject_Z r).
      intros; split; nra. }
    assert (Gt_case : m2 < 2 * r -> locates x q e (loc_Inexact Gt)).
    { intros L. apply C in L. rewrite E2 in L.
      assert (L' : (inject_Z r < inject_Z m2)%Q) by (apply C; lia). simpl.
      generalize dependent (bpow e). generalize dependent (inject_Z q).
      generalize dependent (inject_Z m2). generalize dependent (inject_Z r).
      intros; split; nra. }
    assert (Eq_case : 2 * r = m2 -> locates x q e (loc_Inexact Eq)).
    { intros L. assert (L' : (2 * inject_Z r == inject_Z m2)%Q) by (rewrite <- E2, L; reflexivity).
      simpl.
      generalize dependent (bpow e). generalize dependent (inject_Z q).
      generalize dependent (inject_Z m2). generalize dependent (inject_Z r).
      intros; nra. }
    apply Z.eqb_neq in N.
    destruct (Z.even m2) eqn:Ev; cbv beta; rewrite N.
    + destruct (Z.compare_spec (2 * r) m2); auto.
    + destruct (Z.compare_spec (2 * r + 1) m2); [apply Lt_case; lia | apply Lt_case; lia |].
      apply Gt_case.
      assert (2 * r <> m2).
      { intros <-. rewrite Z.even_mul in Ev. discriminate. }
      lia.
Qed.

Lemma div_core_spec m1 e1 m2 e2 x :
  (x * F2Q (Z.pos m2) e2 == F2Q (Z.pos m1) e1)%Q ->
  let '(q, e', l) := SFdiv_core_binary prec emax (Z.pos m1) e1 (Z.pos m2) e2 in
  rounds_in x q e' l.
Proof.
  intros Hx. unfold SFdiv_core_binary.
  set (D := Zdigits2 (Z.pos m1) + e1 - (Zdigits2 (Z.pos m2) + e2)).
  set (e' := Z.min (fexp64 D) (e1 - e2)).
  set (s := e1 - e2 - e').
  assert (Hs : 0 <= s) by (unfold s, e'; lia).
  set (m' := match s with Z.pos _ => Z.shiftl (Z.pos m1) s | 0 => Z.pos m1 | Z.neg _ => 0 end).
  assert (Hm' : m' = Z.pos m1 * 2 ^ s).
  { unfold m'. destruct s as [|p|p] eqn:Es; [simpl; lia | | lia].
    rewrite Z.shiftl_mul_pow2 by lia. reflexivity. }
  pose proof (Z_div_mod m' (Z.pos m2) ltac:(lia)) as DM.
  destruct (Z.div_eucl m' (Z.pos m2)) as [q r]. destruct DM as [DM1 DM2].
  assert (Hq : 0 <= q) by nia.
  pose proof (F2Q_pos (Z.pos m2) e2 ltac:(lia)) as HY.
  pose proof (F2Q_pos (Z.pos m1) e1 ltac:(lia)) as HX.
  (* x * m2 = m' * 2^e' *)
  assert (V : (x * inject_Z (Z.pos m2) == inject_Z m' * bpow e')%Q).
  { rewrite Hm', inject_Z_mult, <- bpow_Z by exact Hs.
    rewrite <- Qmult_assoc, <- bpow_add.
    replace (s + e') with (e1 - e2) by (unfold s; lia).
    unfold F2Q in Hx, HY.
    assert (B : (bpow e1 == bpow (e1 - e2) * bpow e2)%Q).
    { rewrite <- bpow_add. replace (e1 - e2 + e2) with e1 by lia. reflexivity. }
    rewrite B in Hx. pose proof (bpow_pos e2) as T2.
    apply (Qmult_inj_r _ _ (bpow e2)); [lra|].
    rewrite <- Qmult_assoc, Hx. ring. }
  split; [exact Hq|]. split.
  - apply new_location_spec; [lia | lia |].
    rewrite V, DM1, inject_Z_plus, inject_Z_mult. ring.
  - (* magnitude *)
    pose proof (mag_F2Q (Z.pos m1) e1 ltac:(lia)) as [X1 X2].
    pose proof (mag_F2Q (Z.pos m2) e2 ltac:(lia)) as [Y1 Y2].
    set (g1 := Zdigits2 (Z.pos m1) + e1) in *.
    set (g2 := Zdigits2 (Z.pos m2) + e2) in *.
    assert (Lo : (bpow (D - 1) < x)%Q).
    { assert (B : (bpow (g1 - 1) == bpow (D - 1) * bpow g2)%Q).
      { rewrite <- bpow_add. replace (D - 1 + g2) with (g1 - 1) by (unfold D; lia).
        reflexivity. }
      rewrite B in X1. pose proof (bpow_pos (D - 1)).
      generalize dependent (bpow (D - 1)). generalize dependent (bpow g2).
      generalize dependent (F2Q (Z.pos m2) e2). generalize dependent (F2Q (Z.pos m1) e1).
      intros; nra. }
    assert (Hi : (x < bpow (D + 1))%Q).
    { assert (B : (bpow g1 == bpow (D + 1) * bpow (g2 - 1))%Q).
      { rewrite <- bpow_add. replace (D + 1 + (g2 - 1)) with g1 by (unfold D; lia).
        reflexivity. }
      rewrite B in X2. pose proof (bpow_pos (D + 1)).
      generalize dependent (bpow (D + 1)). generalize dependent (bpow (g2 - 1)).
      generalize dependent (F2Q (Z.pos m2) e2). generalize dependent (F2Q (Z.pos m1) e1).
      intros; nra. }
    destruct (Qlt_le_dec x (bpow D)) as [L|L].
    + exists D. split; [split; [lra | exact L]|]. unfold e'. lia.
    + exists (D + 1). split.
      * split; [replace (D + 1 - 1) with D by lia; exact L | exact Hi].
      * unfold e'. rewrite !fexp_eq. lia.
Qed.

Lemma quotient_exists m1 e1 m2 e2 :
  exists x, (x * F2Q (Z.pos m2) e2 == F2Q (Z.pos m1) e1)%Q.
Proof.
  exists (F2Q (Z.pos m1) e1 / F2Q (Z.pos m2) e2)%Q.
  pose proof (F2Q_pos (Z.pos m2) e2 ltac:(lia)).
  field. lra.
Qed.

Theorem SFdiv_valid x y : valid_binary prec emax (SFdiv prec emax x y) = true.
Proof.
  destruct x as [sx|sx| |sx mx ex], y as [sy|sy| |sy my ey]; try reflexivity.
  unfold SFdiv.
  destruct (quotient_exists mx ex my ey) as [q Hq].
  pose proof (div_core_spec mx ex my ey q Hq) as S.
  destruct (SFdiv_core_binary prec emax (Z.pos mx) ex (Z.pos my) ey) as [[mz ez] lz].
  apply (bra_valid _ _ _ _ _ S).
Qed.

Lemma SFleb_zero_nonneg f : nonneg_float f -> SFleb (S754_zero false) f = true.
Proof.
  destruct f as [s|s| |s m e]; try destruct s; simpl; intros H;
    try contradiction; reflexivity.
Qed.

Lemma SFleb_nonneg_inf f : nonneg_float f -> SFleb f (S754_infinity false) = true.
Proof.
  destruct f as [s|s| |s m e]; try destruct s; simpl; intros H;
    try contradiction; reflexivity.
Qed.

(** Division by a fixed positive number is monotone on non-negative
    canonical numbers. *)
Theorem SFdiv_mono a b md ed :
  valid_binary prec emax a = true -> valid_binary prec emax b = true ->
  nonneg_float a -> nonneg_float b -> SFleb a b = true ->
  SFleb (SFdiv prec emax a (S754_finite false md ed))
        (SFdiv prec emax b (S754_finite false md ed)) = true.
Proof.
  intros Va Vb Na Nb H.
  assert (Nn : forall m e, nonneg_float (SFdiv prec emax (S754_finite false m e) (S754_finite false md ed))).
  { intros m e. unfold SFdiv.
    destruct (quotient_exists m e md ed) as [q Hq].
    pose proof (div_core_spec m e md ed q Hq) as S.
    destruct (SFdiv_core_binary prec emax (Z.pos m) e (Z.pos md) ed) as [[mz ez] lz].
    apply (bra_nonneg _ _ _ _ S). }
  destruct a as [sa|sa| |sa ma ea]; try destruct sa; try contradiction;
  destruct b as [sb|sb| |sb mb eb]; try destruct sb; try contradiction;
    try discriminate H; try reflexivity.
  - apply SFleb_zero_nonneg, Nn.
  - apply SFleb_nonneg_inf, Nn.
  - simpl in Va, Vb. pose proof (SFleb_val _ _ _ _ Va Vb H) as Hv.
    unfold SFdiv.
    destruct (quotient_exists ma ea md ed) as [qa Hqa].
    destruct (quotient_exists mb eb md ed) as [qb Hqb].
    pose proof (div_core_spec ma ea md ed qa Hqa) as Sa.
    pose proof (div_core_spec mb eb md ed qb Hqb) as Sb.
    destruct (SFdiv_core_binary prec emax (Z.pos ma) ea (Z.pos md) ed) as [[mza eza] lza].
    destruct (SFdiv_core_binary prec emax (Z.pos mb) eb (Z.pos md) ed) as [[mzb ezb] lzb].
    apply (bra_mono _ _ _ _ _ _ _ _ Sa Sb).
    pose proof (F2Q_pos (Z.pos md) ed ltac:(lia)) as HY.
    generalize dependent (F2Q (Z.pos md) ed).
    generalize dependent (F2Q (Z.pos ma) ea). generalize dependent (F2Q (Z.pos mb) eb).
    intros; nra.
Qed.

(** ** Multiplication *)

Theorem SFmul_valid x y :
  valid_binary prec emax x = true -> valid_binary prec emax y = true ->
  valid_binary prec emax (SFmul prec emax x y) = true.
Proof.
  intros Vx Vy.
  destruct x as [sx|sx| |sx mx ex], y as [sy|sy| |sy my ey]; try reflexivity.
  simpl in Vx, Vy. unfold SFmul.
  apply (bra_valid _ (F2Q (Z.pos (mx * my)) (ex + ey))).
  split; [lia|]. split; [simpl; reflexivity|].
  exists (Zdigits2 (Z.pos (mx * my)) + (ex + ey)). split; [apply mag_F2Q; lia|].
  destruct (bounded_facts _ _ Vx) as (A1 & A2 & A3).
  destruct (bounded_facts _ _ Vy) as (B1 & B2 & B3).
  destruct (Zdigits2_bounds (Z.pos (mx * my)) ltac:(lia)) as [[D1 D2] D3].
  rewrite fexp_eq.
  destruct (Z.eq_dec ex emin64) as [Ex|Ex], (Z.eq_dec ey emin64) as [Ey|Ey]; try lia.
  - assert (2 ^ (prec - 1) <= Z.pos my) by (destruct B3; [lia|assumption]).
    assert (2 ^ (prec - 1) < 2 ^ Zdigits2 (Z.pos (mx * my))).
    { rewrite Pos2Z.inj_mul in *. nia. }
    apply Z.pow_lt_mono_r_iff in H0; unfold prec in *; lia.
  - assert (2 ^ (prec - 1) <= Z.pos mx) by (destruct A3; [lia|assumption]).
    assert (2 ^ (prec - 1) < 2 ^ Zdigits2 (Z.pos (mx * my))).
    { rewrite Pos2Z.inj_mul in *. nia. }
    apply Z.pow_lt_mono_r_iff in H0; unfold prec in *; lia.
  - assert (2 ^ (prec - 1) <= Z.pos mx) by (destruct A3; [lia|assumption]).
    assert (2 ^ (prec - 1) < 2 ^ Zdigits2 (Z.pos (mx * my))).
    { rewrite Pos2Z.inj_mul in *. nia. }
    apply Z.pow_lt_mono_r_iff in H0; unfold prec in *; lia.
Qed.

(** ** Conversion from integers *)

Theorem ofBigInt_valid z : valid_binary prec emax (Js.ofBigInt z) = true.
Proof. apply binary_normalize_valid. Qed.
Theorem ofBigInt_nonneg z : 0 <= z -> nonneg_float (Js.ofBigInt z).
Proof.
  destruct z as [|p|p]; try lia; intros _; [exact I|].
  apply binary_round_nonneg.
Qed.

Theorem ofBigInt_pos z : 0 < z -> pos_float (Js.ofBigInt z).
Proof.
  destruct z as [|p|p]; try lia; intros _.
  apply binary_round_pos. lia.
Qed.

Theorem ofBigInt_mono z1 z2 :
  0 <= z1 <= z2 -> SFleb (Js.ofBigInt z1) (Js.ofBigInt z2) = true.
Proof.
  intros [H1 H2].
  destruct z1 as [|p1|p1]; try lia.
  - apply SFleb_zero_nonneg, ofBigInt_nonneg. lia.
  - destruct z2 as [|p2|p2]; try lia.
    apply binary_round_mono. apply F2Q_le_mantissa. exact H2.
Qed.

(** * More properties of the binary64 operations *)

(** ** More on the order *)

Lemma SFltb_not_nan a b : SFltb a b = true -> a <> S754_nan /\ b <> S754_nan.
Proof.
  destruct a as [sa|sa| |sa ma ea], b as [sb|sb| |sb mb eb];
    try discriminate; intros _; split; discriminate.
Qed.

Lemma SFleb_not_nan a b : SFleb a b = true -> a <> S754_nan /\ b <> S754_nan.
Proof.
  destruct a as [sa|sa| |sa ma ea], b as [sb|sb| |sb mb eb];
    try discriminate; intros _; split; discriminate.
Qed.

Lemma SFcompare_total a b :
  a <> S754_nan -> b <> S754_nan -> exists c, SFcompare a b = Some c.
Proof.
  destruct a as [sa|sa| |sa ma ea], b as [sb|sb| |sb mb eb];
    try congruence; intros _ _; simpl; try destruct sa; try destruct sb;
    eexists; reflexivity.
Qed.

(** Two numbers other than NaN are comparable. *)
Lemma SFltb_false_leb a b :
  a <> S754_nan -> b <> S754_nan -> SFltb a b = false -> SFleb b a = true.
Proof.
  intros Ha Hb. unfold SFltb, SFleb. rewrite (SFcompare_antisym a b).
  destruct (SFcompare_total a b Ha Hb) as [c ->]. destruct c; simpl; congruence.
Qed.

Lemma SFleb_not_ltb a b : SFleb a b = true -> SFltb b a = false.
Proof.
  unfold SFltb, SFleb. rewrite (SFcompare_antisym a b).
  destruct (SFcompare a b) as [[| |]|]; simpl; congruence.
Qed.

Lemma SFltb_leb a b : SFltb a b = true -> SFleb a b = true.
Proof.
  unfold SFltb, SFleb. destruct (SFcompare a b) as [[| |]|]; simpl; congruence.
Qed.

Lemma SFleb_ltb_trans a b c :
  SFleb a b = true -> SFltb b c = true -> SFltb a c = true.
Proof.
  intros H1 H2.
  destruct (SFleb_not_nan _ _ H1) as [Na _].
  destruct (SFltb_not_nan _ _ H2) as [_ Nc].
  destruct (SFltb a c) eqn:E; [reflexivity|].
  pose proof (SFltb_false_leb a c Na Nc E) as H3.
  pose proof (SFleb_trans _ _ _ H3 H1) as H4.
  rewrite (SFleb_not_ltb _ _ H4) in H2. discriminate.
Qed.

Lemma SFltb_leb_trans a b c :
  SFltb a b = true -> SFleb b c = true -> SFltb a c = true.
Proof.
  intros H1 H2.
  destruct (SFltb_not_nan _ _ H1) as [Na _].
  destruct (SFleb_not_nan _ _ H2) as [_ Nc].
  destruct (SFltb a c) eqn:E; [reflexivity|].
  pose proof (SFltb_false_leb a c Na Nc E) as H3.
  pose proof (SFleb_trans _ _ _ H2 H3) as H4.
  rewrite (SFleb_not_ltb _ _ H4) in H1. discriminate.
Qed.

Lemma SFltb_trans a b c :
  SFltb a b = true -> SFltb b c = true -> SFltb a c = true.
Proof.
  intros H1 H2. apply (SFleb_ltb_trans a b c); [apply SFltb_leb; exact H1 | exact H2].
Qed.

(** ** More on multiplication *)

Lemma F2Q_mul m1 e1 m2 e2 :
  (F2Q (m1 * m2) (e1 + e2) == F2Q m1 e1 * F2Q m2 e2)%Q.
Proof.
  unfold F2Q. rewrite inject_Z_mult, bpow_add. ring.
Qed.

Lemma mul_rounds_in mx ex my ey :
  bounded prec emax mx ex = true -> bounded prec emax my ey = true ->
  rounds_in (F2Q (Z.pos mx) ex * F2Q (Z.pos my) ey) (Z.pos (mx * my)) (ex + ey) loc_Exact.
Proof.
  intros Vx Vy.
  split; [lia|]. split; [simpl; rewrite <- F2Q_mul; reflexivity|].
  exists (Zdigits2 (Z.pos (mx * my)) + (ex + ey)). split.
  { pose proof (mag_F2Q (Z.pos (mx * my)) (ex + ey) ltac:(lia)) as [M1 M2].
    rewrite Pos2Z.inj_mul, F2Q_mul in M1, M2. split; assumption. }
  destruct (bounded_facts _ _ Vx) as (A1 & A2 & A3).
  destruct (bounded_facts _ _ Vy) as (B1 & B2 & B3).
  destruct (Zdigits2_bounds (Z.pos (mx * my)) ltac:(lia)) as [[D1 D2] D3].
  rewrite fexp_eq.
  destruct (Z.eq_dec ex emin64) as [Ex|Ex], (Z.eq_dec ey emin64) as [Ey|Ey]; try lia.
  - assert (2 ^ (prec - 1) <= Z.pos my) by (destruct B3; [lia|assumption]).
    assert (2 ^ (prec - 1) < 2 ^ Zdigits2 (Z.pos (mx * my))).
    { rewrite Pos2Z.inj_mul in *. nia. }
    apply Z.pow_lt_mono_r_iff in H0; unfold prec in *; lia.
  - assert (2 ^ (prec - 1) <= Z.pos mx) by (destruct A3; [lia|assumption]).
    assert (2 ^ (prec - 1) < 2 ^ Zdigits2 (Z.pos (mx * my))).
    { rewrite Pos2Z.inj_mul in *. nia. }
    apply Z.pow_lt_mono_r_iff in H0; unfold prec in *; lia.
  - assert (2 ^ (prec - 1) <= Z.pos mx) by (destruct A3; [lia|assumption]).
    assert (2 ^ (prec - 1) < 2 ^ Zdigits2 (Z.pos (mx * my))).
    { rewrite Pos2Z.inj_mul in *. nia. }
    apply Z.pow_lt_mono_r_iff in H0; unfold prec in *; lia.
Qed.

(** The product of two positive canonical numbers. *)
Lemma SFmul_pos_pos mx ex my ey :
  bounded prec emax mx ex = true -> bounded prec emax my ey = true ->
  nonneg_float (SFmul prec emax (S754_finite false mx ex) (S754_finite false my ey)).
Proof.
  intros Vx Vy. unfold SFmul. cbn [xorb].
  apply (bra_nonneg _ _ _ _ (mul_rounds_in mx ex my ey Vx Vy)).
Qed.

Lemma SFleb_zero_any s f : nonneg_float f -> SFleb (S754_zero s) f = true.
Proof.
  destruct f as [s'|s'| |s' m e]; try destruct s'; simpl; intros H;
    try contradiction; reflexivity.
Qed.

(** A product of two numbers that are not negative is not negative. *)
Theorem SFmul_not_negative a b :
  valid_binary prec emax a = true -> valid_binary prec emax b = true ->
  SFltb a (S754_zero false) = false -> SFltb b (S754_zero false) = false ->
  SFltb (SFmul prec emax a b) (S754_zero false) = false.
Proof.
  intros Va Vb Ha Hb.
  destruct a as [sa|sa| |sa ma ea]; try destruct sa; try discriminate Ha;
  destruct b as [sb|sb| |sb mb eb]; try destruct sb; try discriminate Hb;
    try reflexivity.
  simpl in Va, Vb. pose proof (SFmul_pos_pos ma ea mb eb Va Vb) as N.
  destruct (SFmul prec emax _ _) as [s|s| |s m e]; try destruct s;
    try contradiction; reflexivity.
Qed.

(** Multiplication by a number that is not negative is monotone. *)
Theorem SFmul_mono_r a c1 c2 :
  valid_binary prec emax a = true ->
  valid_binary prec emax c1 = true -> valid_binary prec emax c2 = true ->
  SFleb (S754_zero false) a = true ->
  SFleb (S754_zero false) c1 = true -> SFleb c1 c2 = true ->
  SFmul prec emax a c1 <> S754_nan -> SFmul prec emax a c2 <> S754_nan ->
  SFleb (SFmul prec emax a c1) (SFmul prec emax a c2) = true.
Proof.
  intros Va V1 V2 Ha H1 H12 N1 N2.
  destruct a as [sa|sa| |sa ma ea]; try destruct sa; try discriminate Ha;
  destruct c1 as [s1|s1| |s1 m1 e1]; try destruct s1; try discriminate H1;
  destruct c2 as [s2|s2| |s2 m2 e2]; try destruct s2; try discriminate H12;
    try reflexivity; try (exfalso; apply N1; reflexivity);
    try (exfalso; apply N2; reflexivity); simpl in Va, V1, V2;
    try (apply SFleb_zero_any, SFmul_pos_pos; assumption);
    try (apply SFleb_nonneg_inf, SFmul_pos_pos; assumption).
  - unfold SFmul. cbn [xorb].
    apply (bra_mono _ _ _ _ _ _ _ _ (mul_rounds_in ma ea m1 e1 Va V1)
                                     (mul_rounds_in ma ea m2 e2 Va V2)).
    pose proof (SFleb_val _ _ _ _ V1 V2 H12) as L.
    pose proof (F2Q_pos (Z.pos ma) ea ltac:(lia)) as P.
    generalize dependent (F2Q (Z.pos ma) ea).
    generalize dependent (F2Q (Z.pos m1) e1). generalize dependent (F2Q (Z.pos m2) e2).
    intros; nra.
Qed.

(** ** More on addition and subtraction *)

Lemma binary_round_not_nan s q ez : binary_round prec emax s q ez <> S754_nan.
Proof.
  destruct s.
  - rewrite binary_round_opp. pose proof (binary_round_nonneg q ez) as N.
    destruct (binary_round prec emax false q ez) as [s|s| |s m e];
      try destruct s; try contradiction; discriminate.
  - pose proof (binary_round_nonneg q ez) as N.
    destruct (binary_round prec emax false q ez) as [s|s| |s m e];
      try destruct s; try contradiction; discriminate.
Qed.

Lemma SFleb_opp_nonneg_pos f m e :
  nonneg_float f -> SFleb (SFopp f) (S754_finite false m e) = true.
Proof.
  destruct f as [s|s| |s m' e']; try destruct s; simpl; intros H;
    try contradiction; reflexivity.
Qed.

Lemma SFltb_zero_opp_nonneg f :
  nonneg_float f -> SFltb (S754_zero false) (SFopp f) = false.
Proof.
  destruct f as [s|s| |s m' e']; try destruct s; simpl; intros H;
    try contradiction; reflexivity.
Qed.

(** Adding a number that is not negative never yields a smaller one. *)
Theorem SFadd_nonneg_ge x f :
  valid_binary prec emax x = true ->
  SFltb f (S754_zero false) = false ->
  SFadd prec emax x f <> S754_nan ->
  SFleb x (SFadd prec emax x f) = true.
Proof.
  intros Vx Hf N.
  destruct f as [sf|sf| |sf mf ef]; try destruct sf; try discriminate Hf.
  - destruct x as [sx|sx| |sx mx ex]; try destruct sx; try reflexivity;
      try (exfalso; apply N; reflexivity); simpl; apply SFleb_refl; discriminate.
  - destruct x as [sx|sx| |sx mx ex]; try destruct sx; try reflexivity;
      try (exfalso; apply N; reflexivity); simpl; apply SFleb_refl; discriminate.
  - destruct x as [sx|sx| |sx mx ex]; try destruct sx; try reflexivity;
      exfalso; apply N; reflexivity.
  - exfalso. apply N. destruct x; reflexivity.
  - destruct x as [sx|sx| |sx mx ex]; try (exfalso; apply N; reflexivity).
    + reflexivity.
    + destruct sx; reflexivity.
    + apply SFadd_pos_ge; [|reflexivity].
      unfold addable. rewrite Vx. reflexivity.
Qed.

(** Subtracting a number that is not negative never yields a larger one. *)
Theorem SFsub_nonneg_le x f :
  valid_binary prec emax x = true ->
  SFltb f (S754_zero false) = false ->
  SFsub prec emax x f <> S754_nan ->
  SFleb (SFsub prec emax x f) x = true.
Proof.
  intros Vx Hf N.
  destruct f as [sf|sf| |sf mf ef]; try destruct sf; try discriminate Hf.
  - destruct x as [sx|sx| |sx mx ex]; try destruct sx; try reflexivity;
      try (exfalso; apply N; reflexivity); simpl; apply SFleb_refl; discriminate.
  - destruct x as [sx|sx| |sx mx ex]; try destruct sx; try reflexivity;
      try (exfalso; apply N; reflexivity); simpl; apply SFleb_refl; discriminate.
  - destruct x as [sx|sx| |sx mx ex]; try destruct sx; try reflexivity;
      exfalso; apply N; reflexivity.
  - exfalso. apply N. destruct x; reflexivity.
  - destruct x as [sx|sx| |sx mx ex]; try (exfalso; apply N; reflexivity).
    + destruct sx; reflexivity.
    + destruct sx; reflexivity.
    + simpl in Vx. unfold SFsub.
      set (ez := Z.min ex ef).
      pose proof (align_value mx ex ez ltac:(lia)) as Ax.
      set (mx' := fst (shl_align mx ex ez)) in *.
      set (mf' := fst (shl_align mf ef ez)) in *.
      destruct sx.
      * set (M := cond_Zopp true (Z.pos mx') - cond_Zopp false (Z.pos mf')).
        assert (HM : M = - Z.pos mx' - Z.pos mf') by reflexivity.
        clearbody M. destruct M as [|q|q]; try lia. unfold binary_normalize.
        rewrite binary_round_opp.
        change (S754_finite true mx ex) with (SFopp (S754_finite false mx ex)).
        rewrite SFleb_opp. apply binary_round_ge_bounded; [exact Vx|].
        rewrite <- Ax. apply F2Q_le_mantissa. lia.
      * set (M := cond_Zopp false (Z.pos mx') - cond_Zopp false (Z.pos mf')).
        assert (HM : M = Z.pos mx' - Z.pos mf') by reflexivity.
        clearbody M. destruct M as [|q|q]; unfold binary_normalize.
        -- reflexivity.
        -- apply binary_round_le_bounded; [exact Vx|].
           rewrite <- Ax. apply F2Q_le_mantissa. lia.
        -- rewrite binary_round_opp.
           apply SFleb_opp_nonneg_pos, binary_round_nonneg.
Qed.

Lemma F2Q_lt_mantissa m1 m2 e : m1 < m2 -> (F2Q m1 e < F2Q m2 e)%Q.
Proof.
  intros H. unfold F2Q. apply Qmult_lt_compat_r.
  - apply bpow_pos.
  - apply inject_Z_lt. exact H.
Qed.

(** On canonical positive numbers a smaller value is a smaller number. *)
Lemma SFltb_of_val m1 e1 m2 e2 :
  bounded prec emax m1 e1 = true -> bounded prec emax m2 e2 = true ->
  (F2Q (Z.pos m1) e1 < F2Q (Z.pos m2) e2)%Q ->
  SFltb (S754_finite false m1 e1) (S754_finite false m2 e2) = true.
Proof.
  intros B1 B2 H.
  destruct (SFltb (S754_finite false m1 e1) (S754_finite false m2 e2)) eqn:E;
    [reflexivity|].
  apply SFltb_false_leb in E; try discriminate.
  pose proof (SFleb_val _ _ _ _ B2 B1 E). lra.
Qed.

(** A difference above zero: the first number is the larger one. *)
Theorem SFsub_pos_gt u v :
  valid_binary prec emax u = true -> valid_binary prec emax v = true ->
  SFltb (S754_zero false) (SFsub prec emax u v) = true ->
  SFltb v u = true.
Proof.
  intros Vu Vv H.
  destruct u as [su|su| |su mu eu], v as [sv|sv| |sv mv ev];
    try destruct su; try destruct sv; try discriminate H; try reflexivity.
  all: simpl in Vu, Vv; unfold SFsub in H.
  all: set (ez := Z.min eu ev) in *;
    pose proof (align_value mu eu ez ltac:(lia)) as Au;
    pose proof (align_value mv ev ez ltac:(lia)) as Av;
    set (mu' := fst (shl_align mu eu ez)) in *;
    set (mv' := fst (shl_align mv ev ez)) in *.
  - (* both negative *)
    set (M := cond_Zopp true (Z.pos mu') - cond_Zopp true (Z.pos mv')) in H.
    assert (HM : M = - Z.pos mu' + Z.pos mv') by (unfold M; simpl; lia).
    clearbody M. destruct M as [|q|q]; unfold binary_normalize in H;
      try discriminate H.
    + change (S754_finite true mv ev) with (SFopp (S754_finite false mv ev)).
      change (S754_finite true mu eu) with (SFopp (S754_finite false mu eu)).
      unfold SFltb. rewrite SFcompare_opp.
      apply (SFltb_of_val mu eu mv ev Vu Vv).
      rewrite <- Au, <- Av. apply F2Q_lt_mantissa. lia.
    + rewrite binary_round_opp in H.
      rewrite (SFltb_zero_opp_nonneg _ (binary_round_nonneg q ez)) in H.
      discriminate.
  - (* u negative, v positive *)
    set (M := cond_Zopp true (Z.pos mu') - cond_Zopp false (Z.pos mv')) in H.
    assert (HM : M = - Z.pos mu' - Z.pos mv') by reflexivity.
    clearbody M. destruct M as [|q|q]; try lia. unfold binary_normalize in H.
    rewrite binary_round_opp in H.
    rewrite (SFltb_zero_opp_nonneg _ (binary_round_nonneg q ez)) in H.
    discriminate.
  - (* both positive *)
    set (M := cond_Zopp false (Z.pos mu') - cond_Zopp false (Z.pos mv')) in H.
    assert (HM : M = Z.pos mu' - Z.pos mv') by reflexivity.
    clearbody M. destruct M as [|q|q]; unfold binary_normalize in H;
      try discriminate H.
    + apply (SFltb_of_val mv ev mu eu Vv Vu).
      rewrite <- Au, <- Av. apply F2Q_lt_mantissa. lia.
    + rewrite binary_round_opp in H.
      rewrite (SFltb_zero_opp_nonneg _ (binary_round_nonneg q ez)) in H.
      discriminate.
Qed.

(** The sum of two numbers that are at least zero is at least zero. *)
Theorem SFadd_nonneg a b :
  SFleb (S754_zero false) a = true -> SFleb (S754_zero false) b = true ->
  SFleb (S754_zero false) (SFadd prec emax a b) = true.
Proof.
  intros Ha Hb.
  destruct a as [sa|sa| |sa ma ea]; try destruct sa; try discriminate Ha;
  destruct b as [sb|sb| |sb mb eb]; try destruct sb; try discriminate Hb;
    try reflexivity.
  unfold SFadd.
  set (ez := Z.min ea eb).
  set (ma' := fst (shl_align ma ea ez)). set (mb' := fst (shl_align mb eb ez)).
  set (M := cond_Zopp false (Z.pos ma') + cond_Zopp false (Z.pos mb')).
  assert (HM : M = Z.pos ma' + Z.pos mb') by reflexivity.
  clearbody M. destruct M as [|q|q]; try lia. unfold binary_normalize.
  apply SFleb_zero_nonneg, binary_round_nonneg.
Qed.

(** ** More on division *)

Lemma SFdiv_pos_pos m1 e1 m2 e2 :
  nonneg_float (SFdiv prec emax (S754_finite false m1 e1) (S754_finite false m2 e2)).
Proof.
  unfold SFdiv.
  destruct (quotient_exists m1 e1 m2 e2) as [q Hq].
  pose proof (div_core_spec m1 e1 m2 e2 q Hq) as S.
  destruct (SFdiv_core_binary prec emax (Z.pos m1) e1 (Z.pos m2) e2) as [[mz ez] lz].
  apply (bra_nonneg _ _ _ _ S).
Qed.

(** The quotient of a number that is not negative by a positive one is
    not negative. *)
Theorem SFdiv_not_negative a b :
  SFltb a (S754_zero false) = false -> SFltb (S754_zero false) b = true ->
  SFltb (SFdiv prec emax a b) (S754_zero false) = false.
Proof.
  intros Ha Hb.
  destruct a as [sa|sa| |sa ma ea]; try destruct sa; try discriminate Ha;
  destruct b as [sb|sb| |sb mb eb]; try destruct sb; try discriminate Hb;
    try reflexivity.
  pose proof (SFdiv_pos_pos ma ea mb eb) as N.
  destruct (SFdiv prec emax _ _) as [s|s| |s m e]; try destruct s;
    try contradiction; reflexivity.
Qed.

(** Division of a fixed positive number is antitone in a positive
    divisor. *)
Theorem SFdiv_antitone mn en a b :
  valid_binary prec emax a = true -> valid_binary prec emax b = true ->
  SFltb (S754_zero false) a = true -> SFleb a b = true ->
  SFleb (SFdiv prec emax (S754_finite false mn en) b)
        (SFdiv prec emax (S754_finite false mn en) a) = true.
Proof.
  intros Va Vb Ha H.
  destruct a as [sa|sa| |sa ma ea]; try destruct sa; try discriminate Ha;
  destruct b as [sb|sb| |sb mb eb]; try destruct sb; try discriminate H;
    try reflexivity.
  - apply SFleb_zero_nonneg, SFdiv_pos_pos.
  - simpl in Va, Vb. pose proof (SFleb_val _ _ _ _ Va Vb H) as Hv.
    unfold SFdiv.
    destruct (quotient_exists mn en ma ea) as [qa Hqa].
    destruct (quotient_exists mn en mb eb) as [qb Hqb].
    pose proof (div_core_spec mn en ma ea qa Hqa) as Sa.
    pose proof (div_core_spec mn en mb eb qb Hqb) as Sb.
    destruct (SFdiv_core_binary prec emax (Z.pos mn) en (Z.pos ma) ea) as [[mza eza] lza].
    destruct (SFdiv_core_binary prec emax (Z.pos mn) en (Z.pos mb) eb) as [[mzb ezb] lzb].
    apply (bra_mono _ _ _ _ _ _ _ _ Sb Sa).
    pose proof (F2Q_pos (Z.pos mn) en ltac:(lia)) as HN.
    pose proof (F2Q_pos (Z.pos ma) ea ltac:(lia)) as HA.
    pose proof (F2Q_pos (Z.pos mb) eb ltac:(lia)) as HB.
    generalize dependent (F2Q (Z.pos mn) en).
    generalize dependent (F2Q (Z.pos ma) ea). generalize dependent (F2Q (Z.pos mb) eb).
    intros fb HB fa Hv HA fn Hqb Hqa HN.
    assert (Pa : (0 < qa)%Q) by nra.
    assert (Pb : (0 < qb)%Q) by nra.
    assert (E : (qb * fb == qa * fa)%Q) by lra.
    nra.
Qed.

(** ** Signs *)

Lemma SFltb_nonneg_zero f :
  nonneg_float f -> SFltb f (S754_zero false) = false.
Proof.
  destruct f as [s|s| |s m e]; try destruct s; simpl; intros H;
    try contradiction; reflexivity.
Qed.

(** A difference below zero: the first number is the smaller one. *)
Theorem SFsub_neg_lt u v :
  valid_binary prec emax u = true -> valid_binary prec emax v = true ->
  SFltb (SFsub prec emax u v) (S754_zero false) = true ->
  SFltb u v = true.
Proof.
  intros Vu Vv H.
  destruct u as [su|su| |su mu eu], v as [sv|sv| |sv mv ev];
    try destruct su; try destruct sv; try discriminate H; try reflexivity.
  all: simpl in Vu, Vv; unfold SFsub in H.
  all: set (ez := Z.min eu ev) in *;
    pose proof (align_value mu eu ez ltac:(lia)) as Au;
    pose proof (align_value mv ev ez ltac:(lia)) as Av;
    set (mu' := fst (shl_align mu eu ez)) in *;
    set (mv' := fst (shl_align mv ev ez)) in *.
  - (* both negative *)
    set (M := cond_Zopp true (Z.pos mu') - cond_Zopp true (Z.pos mv')) in H.
    assert (HM : M = - Z.pos mu' + Z.pos mv') by (unfold M; simpl; lia).
    clearbody M. destruct M as [|q|q]; unfold binary_normalize in H;
      try discriminate H.
    + rewrite (SFltb_nonneg_zero _ (binary_round_nonneg q ez)) in H. discriminate.
    + change (S754_finite true mv ev) with (SFopp (S754_finite false mv ev)).
      change (S754_finite true mu eu) with (SFopp (S754_finite false mu eu)).
      unfold SFltb. rewrite SFcompare_opp.
      apply (SFltb_of_val mv ev mu eu Vv Vu).
      rewrite <- Au, <- Av. apply F2Q_lt_mantissa. lia.
  - (* u positive, v negative *)
    set (M := cond_Zopp false (Z.pos mu') - cond_Zopp true (Z.pos mv')) in H.
    assert (HM : M = Z.pos mu' + Z.pos mv') by (unfold M; simpl; lia).
    clearbody M. destruct M as [|q|q]; try lia. unfold binary_normalize in H.
    rewrite (SFltb_nonneg_zero _ (binary_round_nonneg q ez)) in H. discriminate.
  - (* both positive *)
    set (M := cond_Zopp false (Z.pos mu') - cond_Zopp false (Z.pos mv')) in H.
    assert (HM : M = Z.pos mu' - Z.pos mv') by reflexivity.
    clearbody M. destruct M as [|q|q]; unfold binary_normalize in H;
      try discriminate H.
    + rewrite (SFltb_nonneg_zero _ (binary_round_nonneg q ez)) in H. discriminate.
    + apply (SFltb_of_val mu eu mv ev Vu Vv).
      rewrite <- Au, <- Av. apply F2Q_lt_mantissa. lia.
Qed.

Lemma bra_not_nan s x m e l :
  rounds_in x m e l -> binary_round_aux prec emax s m e l <> S754_nan.
Proof.
  intros R. pose proof (bra_nonneg _ _ _ _ R) as N.
  destruct s; [rewrite bra_opp|];
    destruct (binary_round_aux prec emax false m e l) as [s|s| |s m' e'];
    try destruct s; try contradiction; discriminate.
Qed.

(** The sign of a quotient by a positive number and of a product with a
    positive canonical number is the sign of the other operand. *)
Lemma SFdiv_sign_pos d b :
  SFltb (S754_zero false) b = true ->
  (SFltb (S754_zero false) (SFdiv prec emax d b) = true ->
   SFltb (S754_zero false) d = true) /\
  (SFltb (SFdiv prec emax d b) (S754_zero false) = true ->
   SFltb d (S754_zero false) = true).
Proof.
  intros Hb.
  destruct b as [sb|sb| |sb mb eb]; try destruct sb; try discriminate Hb;
  destruct d as [sd|sd| |sd md ed]; try destruct sd; split; intros H;
    try discriminate H; try reflexivity; exfalso.
  - unfold SFdiv in H. cbn [xorb] in H.
    destruct (quotient_exists md ed mb eb) as [q Hq].
    pose proof (div_core_spec md ed mb eb q Hq) as S.
    destruct (SFdiv_core_binary prec emax (Z.pos md) ed (Z.pos mb) eb) as [[mz ez] lz].
    rewrite bra_opp in H.
    rewrite (SFltb_zero_opp_nonneg _ (bra_nonneg _ _ _ _ S)) in H. discriminate.
  - rewrite (SFltb_nonneg_zero _ (SFdiv_pos_pos md ed mb eb)) in H. discriminate.
Qed.

Lemma SFmul_sign_pos q mb eb :
  valid_binary prec emax q = true -> bounded prec emax mb eb = true ->
  (SFltb (S754_zero false) (SFmul prec emax q (S754_finite false mb eb)) = true ->
   SFltb (S754_zero false) q = true) /\
  (SFltb (SFmul prec emax q (S754_finite false mb eb)) (S754_zero false) = true ->
   SFltb q (S754_zero false) = true).
Proof.
  intros Vq Vb.
  destruct q as [sq|sq| |sq mq eq]; try destruct sq; split; intros H;
    try discriminate H; try reflexivity; exfalso; simpl in Vq.
  - unfold SFmul in H. cbn [xorb] in H. rewrite bra_opp in H.
    rewrite (SFltb_zero_opp_nonneg _
               (bra_nonneg _ _ _ _ (mul_rounds_in mq eq mb eb Vq Vb))) in H.
    discriminate.
  - rewrite (SFltb_nonneg_zero _ (SFmul_pos_pos mq eq mb eb Vq Vb)) in H.
    discriminate.
Qed.

Lemma F2Q_one : (F2Q (2 ^ 52) (-52) == 1)%Q.
Proof. reflexivity. Qed.

(** Multiplying by a factor between zero and one does not increase a
    number that is at least zero. *)
Theorem SFmul_le_self a c :
  valid_binary prec emax a = true -> valid_binary prec emax c = true ->
  SFleb (S754_zero false) a = true ->
  SFleb (S754_zero false) c = true -> SFleb c Js.one = true ->
  SFmul prec emax a c <> S754_nan ->
  SFleb (SFmul prec emax a c) a = true.
Proof.
  intros Va Vc Ha Hc Hc1 N.
  destruct a as [sa|sa| |sa ma ea]; try destruct sa; try discriminate Ha;
  destruct c as [sc|sc| |sc mc ec]; try destruct sc; try discriminate Hc;
    try discriminate Hc1; try reflexivity; try (exfalso; apply N; reflexivity).
  simpl in Va, Vc. unfold SFmul. cbn [xorb].
  rewrite <- (bra_exact_id false ma ea Va).
  apply (bra_mono _ _ _ _ _ _ _ _ (mul_rounds_in ma ea mc ec Va Vc)
                                   (bounded_rounds_in ma ea Va)).
  assert (V1 : bounded prec emax 4503599627370496 (-52) = true) by reflexivity.
  pose proof (SFleb_val mc ec _ _ Vc V1 Hc1) as L.
  change (Z.pos 4503599627370496) with (2 ^ 52) in L. rewrite F2Q_one in L.
  pose proof (F2Q_pos (Z.pos ma) ea ltac:(lia)) as P.
  pose proof (F2Q_pos (Z.pos mc) ec ltac:(lia)) as P'.
  generalize dependent (F2Q (Z.pos ma) ea). generalize dependent (F2Q (Z.pos mc) ec).
  intros; nra.
Qed.

(** Addition commutes. *)
Theorem SFadd_comm x y : SFadd prec emax x y = SFadd prec emax y x.
Proof.
  destruct x as [sx|sx| |sx mx ex], y as [sy|sy| |sy my ey];
    try destruct sx; try destruct sy; try reflexivity;
    unfold SFadd; rewrite (Z.min_comm ey ex);
    match goal with |- binary_normalize _ _ (?a + ?b) _ _ = _ =>
      rewrite (Z.add_comm a b) end; reflexivity.
Qed.


(** * The cost-model registry *)

Local Open Scope string_scope.

Lemma valid_zero : valid Js.zero = true.
Proof. reflexivity. Qed.

Lemma getDexCostModel_unknown cfg name :
  name <> "Uniswap" -> name <> "Aerodrome" -> name <> "PancakeSwap" ->
  getDexCostModel cfg name = throw (Error ("Unknown DEX: " ++ name)).
Proof.
  intros H1 H2 H3. unfold getDexCostModel.
  rewrite (proj2 (String.eqb_neq _ _) H1), (proj2 (String.eqb_neq _ _) H2),
    (proj2 (String.eqb_neq _ _) H3).
  reflexivity.
Qed.

Lemma getDexCostModel_wf cfg name m :
  wf_costs (costs cfg) = true -> getDexCostModel cfg name = ok m ->
  wf_model m = true.
Proof.
  unfold wf_costs, getDexCostModel, ok, throw. intros W H.
  repeat (apply andb_prop in W; destruct W as [W ?]).
  destruct (String.eqb name "Uniswap");
    [|destruct (String.eqb name "Aerodrome");
      [|destruct (String.eqb name "PancakeSwap")]];
    inversion H; subst; simpl;
    repeat (apply andb_true_intro; split); auto using valid_zero.
Qed.

Lemma wf_model_gas m : wf_model m = true -> valid (gasFeeUSDC m) = true.
Proof.
  destruct m; simpl; intros H; apply andb_prop in H; tauto.
Qed.

(** * One direction *)

(** What [calculateArbDirection] returns once both lookups succeed. *)
Lemma calculateArbDirection_spec cfg p bm sm :
  getDexCostModel cfg (p_buyDex p) = ok bm ->
  getDexCostModel cfg (p_sellDex p) = ok sm ->
  exists r, calculateArbDirection cfg p = ok r /\
    usdcSpentBeforeFee (details r) = Js.mul (p_tradeSizeCbBTC p) (p_buyPrice p) /\
    buyTradeFeesUSDC (details r) =
      match bm with
      | Proportional feeBps _ =>
          Js.mul (usdcSpentBeforeFee (details r)) (Js.div feeBps tenThousand)
      | FixedFee fixedFee _ => fixedFee
      end /\
    usdcSpentAfterFee (details r) =
      Js.add (usdcSpentBeforeFee (details r)) (buyTradeFeesUSDC (details r)) /\
    usdcReceivedBeforeFee (details r) = Js.mul (p_tradeSizeCbBTC p) (p_sellPrice p) /\
    sellTradeFeesUSDC (details r) =
      match sm with
      | Proportional feeBps _ =>
          Js.mul (usdcReceivedBeforeFee (details r)) (Js.div feeBps tenThousand)
      | FixedFee fixedFee _ => fixedFee
      end /\
    usdcReceivedAfterFee (details r) =
      Js.sub (usdcReceivedBeforeFee (details r)) (sellTradeFeesUSDC (details r)) /\
    totalGasCostUSDC (details r) = Js.add (gasFeeUSDC bm) (gasFeeUSDC sm) /\
    netProfitUSDC r =
      Js.sub (Js.sub (usdcReceivedAfterFee (details r)) (totalGasCostUSDC (details r)))
             (usdcSpentAfterFee (details r)) /\
    netProfitPct r =
      Js.mul (Js.div (netProfitUSDC r) (usdcSpentAfterFee (details r))) hundred /\
    isProfitable r = Js.gt (netProfitUSDC r) Js.zero /\
    buyDex r = p_buyDex p /\ sellDex r = p_sellDex p.
Proof.
  intros Hb Hs. unfold calculateArbDirection, totalGasCostForDirection.
  rewrite Hb, Hs. cbn [bindR ok].
  destruct bm as [bf bg|bf bg], sm as [sf sg|sf sg]; cbn [bindR ok gasFeeUSDC];
    eexists; (split; [reflexivity|]); cbn; repeat split; reflexivity.
Qed.

Lemma totalGasCostForDirection_spec cfg buy sell bm sm :
  getDexCostModel cfg buy = ok bm -> getDexCostModel cfg sell = ok sm ->
  totalGasCostForDirection cfg buy sell = ok (Js.add (gasFeeUSDC bm) (gasFeeUSDC sm)).
Proof.
  intros Hb Hs. unfold totalGasCostForDirection. rewrite Hb, Hs. reflexivity.
Qed.

Lemma calculateArbDirection_ok_inv cfg p r :
  calculateArbDirection cfg p = ok r ->
  exists bm sm, getDexCostModel cfg (p_buyDex p) = ok bm /\
                getDexCostModel cfg (p_sellDex p) = ok sm.
Proof.
  unfold calculateArbDirection.
  destruct (getDexCostModel cfg (p_buyDex p)) as [e|bm]; [discriminate|].
  destruct (getDexCostModel cfg (p_sellDex p)) as [e|sm]; [discriminate|].
  intros _. exists bm, sm. split; reflexivity.
Qed.

Lemma valid_div x y : valid (Js.div x y) = true.
Proof. apply SFdiv_valid. Qed.

Lemma valid_mul x y : valid x = true -> valid y = true -> valid (Js.mul x y) = true.
Proof. apply SFmul_valid. Qed.

Lemma valid_add x y : valid x = true -> valid y = true -> valid (Js.add x y) = true.
Proof. apply SFadd_valid. Qed.

Lemma valid_sub x y : valid x = true -> valid y = true -> valid (Js.sub x y) = true.
Proof. apply SFsub_valid. Qed.

Lemma valid_ofBigInt z : valid (Js.ofBigInt z) = true.
Proof. apply ofBigInt_valid. Qed.

Create HintDb validity.

#[local] Hint Resolve valid_div valid_mul valid_add valid_sub valid_ofBigInt
  valid_zero wf_model_gas : validity.

(** The net profit of a direction is a canonical number. *)
Lemma calculateArbDirection_valid cfg p r :
  wf_costs (costs cfg) = true ->
  valid (p_buyPrice p) = true -> valid (p_sellPrice p) = true ->
  valid (p_tradeSizeCbBTC p) = true ->
  calculateArbDirection cfg p = ok r ->
  valid (netProfitUSDC r) = true.
Proof.
  intros W Vb Vs Vt H.
  destruct (calculateArbDirection_ok_inv cfg p r H) as (bm & sm & Hb & Hs).
  destruct (calculateArbDirection_spec cfg p bm sm Hb Hs)
    as (r' & H' & E1 & E2 & E3 & E4 & E5 & E6 & E7 & E8 & _).
  rewrite H in H'. inversion H'; subst r'. clear H'.
  pose proof (getDexCostModel_wf cfg _ bm W Hb) as Wb.
  pose proof (getDexCostModel_wf cfg _ sm W Hs) as Ws.
  assert (F1 : valid (buyTradeFeesUSDC (details r)) = true).
  { rewrite E2, E1. destruct bm; simpl in Wb; apply andb_prop in Wb;
      destruct Wb; auto with validity. }
  assert (F2 : valid (sellTradeFeesUSDC (details r)) = true).
  { rewrite E5, E4. destruct sm; simpl in Ws; apply andb_prop in Ws;
      destruct Ws; auto with validity. }
  rewrite E8, E6, E7, E3, E4, E1. auto 10 with validity.
Qed.

(** * Both directions *)

Lemma simulateArbitrageForPair_spec cfg d1 p1 d2 p2 b pct A B :
  directionA cfg d1 p1 d2 p2 b pct = ok A ->
  directionB cfg d1 p1 d2 p2 b pct = ok B ->
  simulateArbitrageForPair cfg d1 p1 d2 p2 b pct =
    ok (if Js.gt (netProfitUSDC A) (netProfitUSDC B) then A else B).
Proof.
  intros HA HB. unfold simulateArbitrageForPair. rewrite HA, HB. reflexivity.
Qed.

Lemma simulateArbitrageForPair_ok_inv cfg d1 p1 d2 p2 b pct r :
  simulateArbitrageForPair cfg d1 p1 d2 p2 b pct = ok r ->
  exists A B, directionA cfg d1 p1 d2 p2 b pct = ok A /\
              directionB cfg d1 p1 d2 p2 b pct = ok B /\
              r = if Js.gt (netProfitUSDC A) (netProfitUSDC B) then A else B.
Proof.
  unfold simulateArbitrageForPair.
  destruct (directionA cfg d1 p1 d2 p2 b pct) as [e|A]; [discriminate|].
  destruct (directionB cfg d1 p1 d2 p2 b pct) as [e|B]; [discriminate|].
  cbn [bindR ok]. intros H. inversion H. exists A, B. auto.
Qed.

Lemma directions_ok cfg d1 p1 d2 p2 b pct m1 m2 :
  getDexCostModel cfg d1 = ok m1 -> getDexCostModel cfg d2 = ok m2 ->
  exists A B, directionA cfg d1 p1 d2 p2 b pct = ok A /\
              directionB cfg d1 p1 d2 p2 b pct = ok B /\
              buyDex A = d1 /\ sellDex A = d2 /\ buyDex B = d2 /\ sellDex B = d1.
Proof.
  intros H1 H2. unfold directionA, directionB.
  destruct (calculateArbDirection_spec cfg
    {| p_buyDex := d1; p_sellDex := d2; p_buyPrice := p1; p_sellPrice := p2;
       p_tradeSizeCbBTC := Js.div (getArbTradeSizeUSDC b pct) p1;
       p_tradeSizeUSDC := getArbTradeSizeUSDC b pct;
       p_currentBudgetUSDC := b |} m1 m2 H1 H2) as (A & HA & SA).
  destruct (calculateArbDirection_spec cfg
    {| p_buyDex := d2; p_sellDex := d1; p_buyPrice := p2; p_sellPrice := p1;
       p_tradeSizeCbBTC := Js.div (getArbTradeSizeUSDC b pct) p2;
       p_tradeSizeUSDC := getArbTradeSizeUSDC b pct;
       p_currentBudgetUSDC := b |} m2 m1 H2 H1) as (B & HB & SB).
  exists A, B. cbn zeta. rewrite HA, HB.
  repeat split; try reflexivity; try (apply SA); apply SB.
Qed.

Lemma simulateArbitrageForPair_valid cfg d1 p1 d2 p2 b pct r :
  wf_costs (costs cfg) = true -> valid p1 = true -> valid p2 = true ->
  simulateArbitrageForPair cfg d1 p1 d2 p2 b pct = ok r ->
  valid (netProfitUSDC r) = true.
Proof.
  intros W V1 V2 H.
  destruct (simulateArbitrageForPair_ok_inv _ _ _ _ _ _ _ _ H) as (A & B & HA & HB & ->).
  unfold directionA in HA. unfold directionB in HB.
  assert (VA : valid (netProfitUSDC A) = true)
    by (refine (calculateArbDirection_valid cfg _ A W _ _ _ HA); simpl;
        auto with validity).
  assert (VB : valid (netProfitUSDC B) = true)
    by (refine (calculateArbDirection_valid cfg _ B W _ _ _ HB); simpl;
        auto with validity).
  destruct (Js.gt _ _); assumption.
Qed.

(** * The monitor *)

Lemma wf_state_iff st :
  wf_state st = true <->
  valid (lastUniswapPrice st) = true /\ valid (lastAerodromePrice st) = true /\
  valid (lastPancakePrice st) = true /\ addable (overallBudgetUSDC st) = true.
Proof.
  unfold wf_state. rewrite !andb_true_iff. tauto.
Qed.

Lemma same_data_refl st : same_data st st.
Proof. repeat split. Qed.

Lemma same_data_log l st : same_data st (snd (log l st)).
Proof. repeat split. Qed.

Lemma same_data_wf st st' :
  same_data st st' -> wf_state st = true -> wf_state st' = true.
Proof.
  intros (A1 & A2 & A3 & A4). rewrite !wf_state_iff, A1, A2, A3, A4. tauto.
Qed.

Lemma maxSpreadPair_ok st :
  exists best, maxSpreadPair st = ok best /\ In best (spreadTable st).
Proof.
  unfold maxSpreadPair, reduce, spreadTable. cbn [fold_left].
  eexists. split; [reflexivity|].
  unfold pickMax at 1. destruct (Js.gt _ _).
  - cbn [In]. auto.
  - unfold pickMax. destruct (Js.gt _ _); cbn [In]; auto.
Qed.

Lemma spreadTable_valid st e :
  wf_state st = true -> In e (spreadTable st) ->
  valid (price1 e) = true /\ valid (price2 e) = true.
Proof.
  rewrite wf_state_iff. intros (V1 & V2 & V3 & _) H.
  unfold spreadTable in H. cbn [In] in H.
  destruct H as [<-|[<-|[<-|[]]]]; simpl; auto.
Qed.

Lemma spreadTable_registered cfg st e :
  In e (spreadTable st) ->
  exists m1 m2, getDexCostModel cfg (dex1 e) = ok m1 /\
                getDexCostModel cfg (dex2 e) = ok m2.
Proof.
  unfold spreadTable. cbn [In].
  intros [<-|[<-|[<-|[]]]]; simpl; eexists; eexists; split; reflexivity.
Qed.

(** What [simulateAndCompound] does to the state. *)
Lemma simulateAndCompound_effect env announce best st :
  let run := simulateAndCompound env announce best st in
  let sim := simulateArbitrageForPair (config env) (dex1 best) (price1 best)
               (dex2 best) (price2 best) (overallBudgetUSDC st) (budgetPercent env) in
  lastUniswapPrice (snd run) = lastUniswapPrice st /\
  lastAerodromePrice (snd run) = lastAerodromePrice st /\
  lastPancakePrice (snd run) = lastPancakePrice st /\
  match sim with
  | inl e => run = (inl e, st)
  | inr r =>
      fst run = ok tt /\
      overallBudgetUSDC (snd run) =
        if isProfitable r && Js.gt (netProfitUSDC r) Js.zero
        then Js.add (overallBudgetUSDC st) (netProfitUSDC r)
        else overallBudgetUSDC st
  end.
Proof.
  cbn zeta. unfold simulateAndCompound, bind, get, liftR. cbn [ok].
  destruct (simulateArbitrageForPair _ _ _ _ _ _ _) as [e|r].
  - repeat split.
  - cbn [log]. destruct (isProfitable r && Js.gt (netProfitUSDC r) Js.zero).
    + destruct announce; repeat split.
    + repeat split.
Qed.

Lemma simulateAndCompound_compounded env announce best st :
  compounded (overallBudgetUSDC st)
             (overallBudgetUSDC (snd (simulateAndCompound env announce best st))).
Proof.
  destruct (simulateAndCompound_effect env announce best st) as (_ & _ & _ & H).
  destruct (simulateArbitrageForPair _ _ _ _ _ _ _) as [e|r].
  - rewrite H. left. reflexivity.
  - destruct H as [_ H]. rewrite H.
    destruct (isProfitable r && Js.gt (netProfitUSDC r) Js.zero) eqn:E.
    + apply andb_prop in E. destruct E as [E1 E2].
      right. exists r. auto.
    + left. reflexivity.
Qed.

Lemma addable_not_nan b : addable b = true -> b <> S754_nan.
Proof. intros H ->. discriminate H. Qed.

(** Compounding keeps a well-formed state well formed and never lowers
    the budget. *)
Lemma simulateAndCompound_keeps env announce best st :
  wf_costs (costs (config env)) = true -> wf_state st = true ->
  valid (price1 best) = true -> valid (price2 best) = true ->
  wf_state (snd (simulateAndCompound env announce best st)) = true /\
  Js.le (overallBudgetUSDC st)
        (overallBudgetUSDC (snd (simulateAndCompound env announce best st))) = true.
Proof.
  intros W Wst V1 V2.
  destruct (simulateAndCompound_effect env announce best st) as (P1 & P2 & P3 & H).
  pose proof (proj1 (wf_state_iff st) Wst) as (Vu & Va & Vp & Ab).
  rewrite wf_state_iff, P1, P2, P3.
  destruct (simulateArbitrageForPair _ _ _ _ _ _ _) as [e|r] eqn:Sim.
  - rewrite H. cbn [snd]. repeat split; try assumption.
    apply SFleb_refl, addable_not_nan, Ab.
  - destruct H as [_ H]. rewrite H.
    pose proof (simulateArbitrageForPair_valid _ _ _ _ _ _ _ _ W V1 V2 Sim) as Vr.
    destruct (isProfitable r && Js.gt (netProfitUSDC r) Js.zero) eqn:E.
    + apply andb_prop in E. destruct E as [_ E].
      repeat split; try assumption.
      * apply SFadd_addable; assumption.
      * apply SFadd_pos_ge; assumption.
    + repeat split; try assumption.
      apply SFleb_refl, addable_not_nan, Ab.
Qed.

Lemma findAndSimulateBestSpread_effect env st :
  exists best,
    maxSpreadPair st = ok best /\ In best (spreadTable st) /\
    let st0 := snd (log (LogMaxSpread (dex1 best) (dex2 best) (spread best)) st) in
    findAndSimulateBestSpread env st = simulateAndCompound env true best st0.
Proof.
  destruct (maxSpreadPair_ok st) as (best & Hb & Hin).
  exists best. split; [exact Hb|]. split; [exact Hin|].
  cbn zeta. unfold findAndSimulateBestSpread, bind, get, liftR. cbn [ok].
  rewrite Hb. reflexivity.
Qed.

Lemma initialSpreadAnalysis_effect env st :
  exists best,
    maxSpreadPair st = ok best /\ In best (spreadTable st) /\
    let st0 := snd (log (LogMaxSpread (dex1 best) (dex2 best) (spread best)) st) in
    initialSpreadAnalysis env st = simulateAndCompound env false best st0.
Proof.
  destruct (maxSpreadPair_ok st) as (best & Hb & Hin).
  exists best. split; [exact Hb|]. split; [exact Hin|].
  cbn zeta. unfold initialSpreadAnalysis, bind, get, liftR. cbn [ok].
  rewrite Hb. reflexivity.
Qed.

Lemma findAndSimulateBestSpread_keeps env st :
  wf_costs (costs (config env)) = true -> wf_state st = true ->
  wf_state (snd (findAndSimulateBestSpread env st)) = true /\
  Js.le (overallBudgetUSDC st)
        (overallBudgetUSDC (snd (findAndSimulateBestSpread env st))) = true.
Proof.
  intros W Wst.
  destruct (findAndSimulateBestSpread_effect env st) as (best & _ & Hin & ->).
  destruct (spreadTable_valid st best Wst Hin) as [V1 V2].
  set (st0 := snd (log (LogMaxSpread (dex1 best) (dex2 best) (spread best)) st)).
  assert (W0 : wf_state st0 = true)
    by (apply (same_data_wf st); [apply same_data_log | exact Wst]).
  exact (simulateAndCompound_keeps env true best st0 W W0 V1 V2).
Qed.

Lemma findAndSimulateBestSpread_prices env st v :
  lastPrice v (snd (findAndSimulateBestSpread env st)) = lastPrice v st.
Proof.
  destruct (findAndSimulateBestSpread_effect env st) as (best & _ & _ & ->).
  destruct (simulateAndCompound_effect env true best
              (snd (log (LogMaxSpread (dex1 best) (dex2 best) (spread best)) st)))
    as (P1 & P2 & P3 & _).
  destruct v; cbn [lastPrice]; [rewrite P1 | rewrite P2 | rewrite P3]; reflexivity.
Qed.

Lemma findAndSimulateBestSpread_compounded env st :
  compounded (overallBudgetUSDC st)
             (overallBudgetUSDC (snd (findAndSimulateBestSpread env st))).
Proof.
  destruct (findAndSimulateBestSpread_effect env st) as (best & _ & _ & ->).
  apply (simulateAndCompound_compounded env true best
           (snd (log (LogMaxSpread (dex1 best) (dex2 best) (spread best)) st))).
Qed.

(** The registered venues never make the simulation throw. *)
Lemma findAndSimulateBestSpread_returns env st :
  fst (findAndSimulateBestSpread env st) = ok tt.
Proof.
  destruct (findAndSimulateBestSpread_effect env st) as (best & _ & Hin & ->).
  set (st0 := snd (log _ st)).
  destruct (simulateAndCompound_effect env true best st0) as (_ & _ & _ & H).
  destruct (spreadTable_registered (config env) st best Hin) as (m1 & m2 & H1 & H2).
  destruct (directions_ok (config env) (dex1 best) (price1 best) (dex2 best)
              (price2 best) (overallBudgetUSDC st0) (budgetPercent env) m1 m2 H1 H2)
    as (A & B & HA & HB & _).
  rewrite (simulateArbitrageForPair_spec _ _ _ _ _ _ _ A B HA HB) in H.
  apply H.
Qed.

Lemma bigPow_nonneg b e : 0 <= e -> bigPow b e = ok (b ^ e).
Proof.
  intros H. unfold bigPow. destruct (Z.ltb_spec e 0) as [L|L]; [lia | reflexivity].
Qed.

(** The price of a BigInt sample when the decimal counts are not
    negative. *)
Lemma calculatePrice_run cfg S inv :
  0 <= USDC_decimals cfg -> 0 <= cbBTC_decimals cfg ->
  calculatePrice cfg (RawBigInt S) inv =
    let ratio := Js.div (Js.ofBigInt (S * S * 10 ^ USDC_decimals cfg))
                        (Js.ofBigInt (2 ^ 96 * 2 ^ 96 * 10 ^ cbBTC_decimals cfg)) in
    ok (if inv then Js.div Js.one ratio else ratio).
Proof.
  intros Hq Hb. unfold calculatePrice, BigInt.
  cbn [bindR ok]. rewrite !(bigPow_nonneg _ _ Hq), !(bigPow_nonneg _ _ Hb).
  cbn [bindR ok]. unfold Q96. destruct inv; reflexivity.
Qed.

Lemma calculatePrice_valid cfg raw inv p :
  calculatePrice cfg raw inv = ok p -> valid p = true.
Proof.
  unfold calculatePrice, bindR, ok.
  destruct (BigInt raw) as [e|s]; [discriminate|].
  destruct inv;
    (destruct (bigPow 10 (USDC_decimals cfg)) as [e|pq]; [discriminate|]);
    (destruct (bigPow 10 (cbBTC_decimals cfg)) as [e|pb]; [discriminate|]);
    intros H;
    match type of H with
    | inr ?x = inr _ => assert (E : p = x) by congruence
    end; rewrite E; apply valid_div.
Qed.

Lemma calculateAerodromePrice_eq cfg raw inv :
  calculateAerodromePrice cfg raw inv = calculatePrice cfg raw inv.
Proof. reflexivity. Qed.

Lemma venuePrice_eq env v raw inv :
  venuePrice env v raw inv = calculatePrice (config env) raw inv.
Proof. destruct v; reflexivity. Qed.

Lemma venuePrice_valid env v raw inv p :
  venuePrice env v raw inv = ok p -> valid p = true.
Proof. rewrite venuePrice_eq. apply calculatePrice_valid. Qed.

(** The state after the price of [v] has been replaced. *)
Lemma setLastPrice_effect v p st :
  let st1 := snd (setLastPrice v p st) in
  lastPrice v st1 = p /\
  (forall w, w <> v -> lastPrice w st1 = lastPrice w st) /\
  overallBudgetUSDC st1 = overallBudgetUSDC st /\
  console st1 = console st.
Proof.
  cbn zeta. destruct v; cbn; repeat split; intros w Hw; destruct w;
    try reflexivity; congruence.
Qed.

(** One event cycle either leaves prices and budget as they were (the
    sample did not decode, or the price moved by no more than the
    threshold), or stores the new price and runs the simulation. *)
Lemma onSwap_cases env v raw st :
  let st' := snd (onSwap env v raw st) in
  same_data st st' \/
  exists newPrice st1,
    venuePrice env v raw (isInverted env v) = ok newPrice /\
    Js.gt (Js.abs (Js.sub newPrice (lastPrice v st))) (priceChange (config env)) = true /\
    lastPrice v st1 = newPrice /\
    (forall w, w <> v -> lastPrice w st1 = lastPrice w st) /\
    overallBudgetUSDC st1 = overallBudgetUSDC st /\
    console st1 =
      (console st ++
        [LogPriceUpdate v newPrice
           (Js.mul (Js.div (Js.sub newPrice (lastPrice v st)) (lastPrice v st)) hundred)])%list /\
    st' = snd (findAndSimulateBestSpread env st1).
Proof.
  cbn zeta. unfold onSwap, tryCatch, swapBody, bind, liftR, get. cbn [ok].
  destruct (venuePrice env v raw (isInverted env v)) as [e|newPrice] eqn:Hp.
  - left. apply same_data_log.
  - destruct (Js.gt (Js.abs (Js.sub newPrice (lastPrice v st))) (priceChange (config env))) eqn:Hgt.
    + right. cbn [log fst snd].
      set (st0 := {| lastUniswapPrice := lastUniswapPrice st;
                     lastAerodromePrice := lastAerodromePrice st;
                     lastPancakePrice := lastPancakePrice st;
                     overallBudgetUSDC := overallBudgetUSDC st;
                     console := (console st ++ _)%list |}).
      pose proof (setLastPrice_effect v newPrice st0) as (E1 & E2 & E3 & E4).
      destruct (setLastPrice v newPrice st0) as [u st1] eqn:Hs.
      cbn [snd] in E1, E2, E3, E4.
      assert (Hu : u = ok tt) by (unfold setLastPrice in Hs; inversion Hs; reflexivity).
      subst u. cbn [ok].
      exists newPrice, st1. split; [reflexivity|]. split; [exact Hgt|].
      split; [exact E1|]. split.
      { intros w Hw. rewrite (E2 w Hw). destruct w; reflexivity. }
      split; [exact E3|]. split; [exact E4|].
      pose proof (findAndSimulateBestSpread_returns env st1) as R.
      destruct (findAndSimulateBestSpread env st1) as [res st2].
      cbn [fst] in R. subst res. cbn [ok]. reflexivity.
    + left. apply same_data_refl.
Qed.

Lemma onSwap_keeps env v raw st :
  wf_costs (costs (config env)) = true -> wf_state st = true ->
  wf_state (snd (onSwap env v raw st)) = true /\
  Js.le (overallBudgetUSDC st) (overallBudgetUSDC (snd (onSwap env v raw st))) = true.
Proof.
  intros W Wst.
  pose proof (proj1 (wf_state_iff st) Wst) as (Vu & Va & Vp & Ab).
  destruct (onSwap_cases env v raw st) as [S|(p & st1 & Hp & _ & E1 & E2 & E3 & _ & ->)].
  - split; [apply (same_data_wf st); assumption|].
    destruct S as (_ & _ & _ & ->). apply SFleb_refl, addable_not_nan, Ab.
  - assert (W1 : wf_state st1 = true).
    { pose proof (venuePrice_valid _ _ _ _ _ Hp) as Vn.
      rewrite wf_state_iff, E3.
      destruct v; cbn [lastPrice] in E1;
        pose proof (E2 Uniswap) as EU; pose proof (E2 Aerodrome) as EA;
        pose proof (E2 PancakeSwap) as EP; cbn [lastPrice] in EU, EA, EP;
        rewrite ?E1, ?EU, ?EA, ?EP by discriminate; auto. }
    rewrite <- E3. apply findAndSimulateBestSpread_keeps; assumption.
Qed.

Lemma onSwap_compounded env v raw st :
  compounded (overallBudgetUSDC st) (overallBudgetUSDC (snd (onSwap env v raw st))).
Proof.
  destruct (onSwap_cases env v raw st) as [S|(p & st1 & _ & _ & _ & _ & E3 & _ & ->)].
  - destruct S as (_ & _ & _ & ->). left. reflexivity.
  - rewrite <- E3. apply findAndSimulateBestSpread_compounded.
Qed.

Lemma runEvents_keeps env evs : forall st,
  wf_costs (costs (config env)) = true -> wf_state st = true ->
  wf_state (runEvents env evs st) = true /\
  Js.le (overallBudgetUSDC st) (overallBudgetUSDC (runEvents env evs st)) = true.
Proof.
  induction evs as [|[v raw] evs IH]; intros st W Wst.
  - cbn. split; [exact Wst|].
    apply SFleb_refl, addable_not_nan.
    apply (proj1 (wf_state_iff st) Wst).
  - cbn [runEvents fold_left]. unfold runCycle at 2. cbn [fst snd].
    destruct (onSwap_keeps env v raw st W Wst) as [W1 L1].
    destruct (IH _ W W1) as [W2 L2].
    split; [exact W2|].
    exact (SFleb_trans _ _ _ L1 L2).
Qed.

(** The cycle of a sample that decodes to a price beyond the threshold. *)
Lemma onSwap_update env v raw st newPrice :
  venuePrice env v raw (isInverted env v) = ok newPrice ->
  Js.gt (Js.abs (Js.sub newPrice (lastPrice v st))) (priceChange (config env)) = true ->
  let pct := Js.mul (Js.div (Js.sub newPrice (lastPrice v st)) (lastPrice v st)) hundred in
  let st1 := snd (setLastPrice v newPrice (snd (log (LogPriceUpdate v newPrice pct) st))) in
  onSwap env v raw st = (ok tt, snd (findAndSimulateBestSpread env st1)).
Proof.
  intros Hp Hgt. cbn zeta.
  unfold onSwap, tryCatch, swapBody, bind, liftR, get. cbn [ok].
  unfold ok in Hp. rewrite Hp. cbv beta iota. rewrite Hgt.
  cbn [log setLastPrice fst snd].
  match goal with
  | |- context [findAndSimulateBestSpread env ?s] =>
      pose proof (findAndSimulateBestSpread_returns env s) as R;
      destruct (findAndSimulateBestSpread env s) as [res st2]
  end.
  cbn [fst] in R. subst res. reflexivity.
Qed.

(** The cycle of a sample that does not decode. *)
Lemma onSwap_error env v raw st e :
  venuePrice env v raw (isInverted env v) = throw e ->
  onSwap env v raw st = (ok tt, snd (log (LogError v e) st)).
Proof.
  intros Hp. unfold onSwap, tryCatch, swapBody, bind, liftR.
  unfold throw in Hp. rewrite Hp. reflexivity.
Qed.

Lemma simulateAndCompound_console env announce best st :
  exists l, console (snd (simulateAndCompound env announce best st)) =
            (console st ++ l)%list.
Proof.
  unfold simulateAndCompound, bind, get, liftR. cbn [ok].
  destruct (simulateArbitrageForPair _ _ _ _ _ _ _) as [e|r].
  - exists []. cbn. rewrite app_nil_r. reflexivity.
  - cbn [log]. destruct (isProfitable r && Js.gt (netProfitUSDC r) Js.zero).
    + destruct announce; cbn; rewrite <- ?app_assoc; eexists; reflexivity.
    + cbn. eexists. reflexivity.
Qed.

Lemma spreadTable_same_prices st st' :
  (forall v, lastPrice v st' = lastPrice v st) -> spreadTable st' = spreadTable st.
Proof.
  intros H. unfold spreadTable.
  rewrite (H Uniswap : lastUniswapPrice st' = _).
  rewrite (H Aerodrome : lastAerodromePrice st' = _).
  rewrite (H PancakeSwap : lastPancakePrice st' = _). reflexivity.
Qed.

(** * Special values *)

Lemma div_zero_pos d : pos_float d -> Js.div Js.zero d = Js.zero.
Proof.
  destruct d as [s|s| |s m e]; try destruct s; simpl; intros H;
    try contradiction; reflexivity.
Qed.

Lemma one_div_zero : Js.div Js.one Js.zero = Js.infinity.
Proof. reflexivity. Qed.

Lemma denominator_pos d : 0 <= d -> pos_float (Js.ofBigInt (2 ^ 96 * 2 ^ 96 * 10 ^ d)).
Proof.
  intros H. apply ofBigInt_pos.
  assert (0 < 10 ^ d) by (apply Z.pow_pos_nonneg; lia). lia.
Qed.

Lemma sub_infinity_finite x :
  Js.isFinite x = true -> Js.sub Js.infinity x = Js.infinity.
Proof. destruct x as [s|s| |s m e]; try discriminate; reflexivity. Qed.

Lemma gt_infinity_finite t : Js.isFinite t = true -> Js.gt Js.infinity t = true.
Proof.
  destruct t as [s|s| |s m e]; try discriminate; destruct s; reflexivity.
Qed.

(** * Start-up *)

Lemma initialSpreadAnalysis_keeps env st :
  wf_costs (costs (config env)) = true -> wf_state st = true ->
  wf_state (snd (initialSpreadAnalysis env st)) = true /\
  Js.le (overallBudgetUSDC st)
        (overallBudgetUSDC (snd (initialSpreadAnalysis env st))) = true.
Proof.
  intros W Wst.
  destruct (initialSpreadAnalysis_effect env st) as (best & _ & Hin & ->).
  destruct (spreadTable_valid st best Wst Hin) as [V1 V2].
  set (st0 := snd (log (LogMaxSpread (dex1 best) (dex2 best) (spread best)) st)).
  assert (W0 : wf_state st0 = true)
    by (apply (same_data_wf st); [apply same_data_log | exact Wst]).
  exact (simulateAndCompound_keeps env false best st0 W W0 V1 V2).
Qed.

Lemma initialSpreadAnalysis_compounded env st :
  compounded (overallBudgetUSDC st)
             (overallBudgetUSDC (snd (initialSpreadAnalysis env st))).
Proof.
  destruct (initialSpreadAnalysis_effect env st) as (best & _ & _ & ->).
  apply (simulateAndCompound_compounded env false best
           (snd (log (LogMaxSpread (dex1 best) (dex2 best) (spread best)) st))).
Qed.

(** A monitor that started holds three derived prices and the state
    left by the initial analysis. *)
Lemma startMonitor_inv env b0 u a p st0 :
  startMonitor env b0 u a p = ok st0 ->
  exists pu pa pp,
    valid pu = true /\ valid pa = true /\ valid pp = true /\
    st0 = snd (initialSpreadAnalysis env
                 {| lastUniswapPrice := pu; lastAerodromePrice := pa;
                    lastPancakePrice := pp; overallBudgetUSDC := b0;
                    console := [] |}).
Proof.
  unfold startMonitor, bindR.
  destruct (calculatePrice (config env) u (uniswapIsInverted env)) as [e|pu] eqn:Hu;
    [discriminate|].
  destruct (calculateAerodromePrice (config env) a (aerodromeIsInverted env))
    as [e|pa] eqn:Ha; [discriminate|].
  destruct (calculatePrice (config env) p (pancakeIsInverted env)) as [e|pp] eqn:Hp;
    [discriminate|].
  destruct (initialSpreadAnalysis env _) as [[e|t] st1] eqn:Hi; [discriminate|].
  intros H. exists pu, pa, pp.
  split; [apply (calculatePrice_valid _ _ _ _ Hu)|].
  split; [rewrite calculateAerodromePrice_eq in Ha; apply (calculatePrice_valid _ _ _ _ Ha)|].
  split; [apply (calculatePrice_valid _ _ _ _ Hp)|].
  rewrite Hi. cbn [snd]. unfold ok in H. congruence.
Qed.
Local Open Scope list_scope.

(** * Number tests *)

Lemma isNaN_false x : isNaN x = false <-> x <> S754_nan.
Proof. destruct x; simpl; split; congruence. Qed.

Lemma isNaN_true x : isNaN x = true <-> x = S754_nan.
Proof. destruct x; simpl; split; congruence. Qed.

Lemma SFabs_isNaN x : isNaN (Js.abs x) = isNaN x.
Proof. destruct x; reflexivity. Qed.

(** * The spread *)

Lemma hundred_eq : hundred = S754_finite false 7036874417766400 (-46).
Proof. reflexivity. Qed.

Lemma hundred_bounded : bounded prec emax 7036874417766400 (-46) = true.
Proof. reflexivity. Qed.

Lemma SFsub_finite_not_nan s1 m1 e1 s2 m2 e2 :
  SFsub prec emax (S754_finite s1 m1 e1) (S754_finite s2 m2 e2) <> S754_nan.
Proof.
  unfold SFsub.
  destruct (cond_Zopp s1 _ - cond_Zopp s2 _); unfold binary_normalize;
    [discriminate | apply binary_round_not_nan ..].
Qed.

Lemma SFdiv_finite_not_nan s1 m1 e1 s2 m2 e2 :
  SFdiv prec emax (S754_finite s1 m1 e1) (S754_finite s2 m2 e2) <> S754_nan.
Proof.
  unfold SFdiv.
  destruct (quotient_exists m1 e1 m2 e2) as [q Hq].
  pose proof (div_core_spec m1 e1 m2 e2 q Hq) as S.
  destruct (SFdiv_core_binary prec emax (Z.pos m1) e1 (Z.pos m2) e2) as [[mz ez] lz].
  apply (bra_not_nan _ _ _ _ _ S).
Qed.

Lemma SFmul_hundred_nan q :
  valid_binary prec emax q = true ->
  isNaN (Js.mul q hundred) = isNaN q.
Proof.
  intros V. rewrite hundred_eq.
  destruct q as [s|s| |s m e]; try reflexivity.
  simpl in V. unfold Js.mul, SFmul.
  pose proof (bra_not_nan (xorb s false) _ _ _ _
                (mul_rounds_in m e _ _ V hundred_bounded)) as N.
  destruct (binary_round_aux _ _ _ _ _ _); try reflexivity. congruence.
Qed.

Lemma SFsub_finite_r_isNaN x s m e :
  isNaN (SFsub prec emax x (S754_finite s m e)) = isNaN x.
Proof.
  destruct x as [sx|sx| |sx mx ex]; try reflexivity.
  pose proof (SFsub_finite_not_nan sx mx ex s m e) as N.
  destruct (SFsub prec emax _ _); try reflexivity. congruence.
Qed.

Lemma SFdiv_finite_r_isNaN x s m e :
  isNaN (SFdiv prec emax x (S754_finite s m e)) = isNaN x.
Proof.
  destruct x as [sx|sx| |sx mx ex]; try reflexivity.
  pose proof (SFdiv_finite_not_nan sx mx ex s m e) as N.
  destruct (SFdiv prec emax _ _); try reflexivity. congruence.
Qed.

(** When the spread of two numbers is NaN. *)
Lemma calculateSpread_isNaN price1 price2 :
  isNaN (calculateSpread price1 price2) =
    isNaN price1 || negb (Js.isFinite price2) || (isZero price1 && isZero price2).
Proof.
  unfold calculateSpread.
  rewrite SFmul_hundred_nan by apply SFdiv_valid.
  destruct price2 as [s2|s2| |s2 m2 e2].
  - destruct price1 as [s1|s1| |s1 m1 e1]; try destruct s1; destruct s2; reflexivity.
  - destruct price1 as [s1|s1| |s1 m1 e1]; try destruct s1; destruct s2; reflexivity.
  - destruct price1 as [s1|s1| |s1 m1 e1]; reflexivity.
  - unfold Js.div, Js.sub. rewrite SFdiv_finite_r_isNaN, SFsub_finite_r_isNaN.
    unfold isZero at 2. cbn [Js.isFinite negb]. 
    replace (Js.eqb (S754_finite s2 m2 e2) Js.zero) with false
      by (destruct s2; reflexivity).
    rewrite andb_false_r, !orb_false_r. reflexivity.
Qed.

(** The spread of a finite price against itself is a zero. *)
Lemma calculateSpread_diag s m e :
  isZero (calculateSpread (S754_finite s m e) (S754_finite s m e)) = true.
Proof.
  unfold calculateSpread, Js.sub, SFsub. rewrite Z.sub_diag.
  destruct s; reflexivity.
Qed.

(** Against a reference price of zero the spread is never finite. *)
Lemma calculateSpread_zero_reference price1 s :
  Js.isFinite (calculateSpread price1 (S754_zero s)) = false.
Proof.
  destruct price1 as [s1|s1| |s1 m1 e1]; try destruct s1; destruct s; reflexivity.
Qed.

(** * Selecting the largest spread *)

Lemma pickMax_nan max curr : spread max = S754_nan -> pickMax max curr = max.
Proof.
  intros H. unfold pickMax, Js.gt. rewrite H.
  destruct (spread curr); reflexivity.
Qed.

Lemma fold_pickMax_nan l : forall acc,
  spread acc = S754_nan -> fold_left pickMax l acc = acc.
Proof.
  induction l as [|c l IH]; intros acc H; [reflexivity|].
  cbn [fold_left]. rewrite (pickMax_nan acc c H). apply IH. exact H.
Qed.

Lemma pickMax_not_nan max curr :
  spread max <> S754_nan -> spread (pickMax max curr) <> S754_nan.
Proof.
  intros H. unfold pickMax. destruct (Js.gt (spread curr) (spread max)) eqn:G.
  - apply (SFltb_not_nan _ _ G).
  - exact H.
Qed.

Lemma fold_pickMax_not_nan l : forall acc,
  spread acc <> S754_nan -> spread (fold_left pickMax l acc) <> S754_nan.
Proof.
  induction l as [|c l IH]; intros acc H; [exact H|].
  cbn [fold_left]. apply IH, pickMax_not_nan, H.
Qed.

(** The fold keeps the first entry of maximal spread: the entries before
    the result are strictly smaller, the entries after it are not
    larger. *)
Lemma fold_pickMax_split l : forall pre acc mid,
  (forall e, In e l -> spread e <> S754_nan) ->
  spread acc <> S754_nan ->
  (forall e, In e pre -> Js.lt (spread e) (spread acc) = true) ->
  (forall e, In e mid -> Js.le (spread e) (spread acc) = true) ->
  exists l1 l2,
    pre ++ acc :: mid ++ l = l1 ++ fold_left pickMax l acc :: l2 /\
    (forall e, In e l1 -> Js.lt (spread e) (spread (fold_left pickMax l acc)) = true) /\
    (forall e, In e l2 -> Js.le (spread e) (spread (fold_left pickMax l acc)) = true).
Proof.
  induction l as [|c l IH]; intros pre acc mid Hl Ha Hpre Hmid.
  - exists pre, mid. cbn [fold_left]. rewrite app_nil_r. auto.
  - cbn [fold_left]. unfold pickMax at 2 4 6.
    assert (Hc : spread c <> S754_nan) by (apply Hl; left; reflexivity).
    assert (Hl' : forall e, In e l -> spread e <> S754_nan)
      by (intros e He; apply Hl; right; exact He).
    destruct (Js.gt (spread c) (spread acc)) eqn:G.
    + destruct (IH (pre ++ acc :: mid) c [] Hl' Hc) as (l1 & l2 & E & P1 & P2).
      * intros e He. apply in_app_or in He. destruct He as [He|[<-|He]].
        -- exact (SFltb_trans _ _ _ (Hpre e He) G).
        -- exact G.
        -- exact (SFleb_ltb_trans _ _ _ (Hmid e He) G).
      * intros e [].
      * exists l1, l2. split; [|split; assumption].
        rewrite <- E, <- app_assoc. reflexivity.
    + destruct (IH pre acc (mid ++ [c]) Hl' Ha Hpre) as (l1 & l2 & E & P1 & P2).
      * intros e He. apply in_app_or in He. destruct He as [He|[<-|[]]].
        -- exact (Hmid e He).
        -- apply SFltb_false_leb; assumption.
      * exists l1, l2. split; [|split; assumption].
        rewrite <- E. rewrite <- app_assoc. reflexivity.
Qed.

(** * More on the event cycle *)

(** The cycle of a sample whose price moved by no more than the
    threshold: nothing happens. *)
Lemma onSwap_quiet env v raw st newPrice :
  venuePrice env v raw (isInverted env v) = ok newPrice ->
  Js.gt (Js.abs (Js.sub newPrice (lastPrice v st))) (priceChange (config env)) = false ->
  onSwap env v raw st = (ok tt, st).
Proof.
  intros Hp Hgt.
  unfold onSwap, tryCatch, swapBody, bind, liftR, get. cbn [ok].
  unfold ok in Hp. rewrite Hp. cbv beta iota. rewrite Hgt. reflexivity.
Qed.

Lemma onSwap_returns env v raw st : fst (onSwap env v raw st) = ok tt.
Proof.
  destruct (venuePrice env v raw (isInverted env v)) as [e|p] eqn:Hp.
  - rewrite (onSwap_error env v raw st e Hp). reflexivity.
  - destruct (Js.gt (Js.abs (Js.sub p (lastPrice v st))) (priceChange (config env))) eqn:G.
    + rewrite (onSwap_update env v raw st p Hp G). reflexivity.
    + rewrite (onSwap_quiet env v raw st p Hp G). reflexivity.
Qed.

(** The prices after a cycle. *)
Lemma onSwap_prices env v raw st :
  let st' := snd (onSwap env v raw st) in
  (forall w, w <> v -> lastPrice w st' = lastPrice w st) /\
  (lastPrice v st' = lastPrice v st \/
   venuePrice env v raw (isInverted env v) = ok (lastPrice v st') /\
   Js.gt (Js.abs (Js.sub (lastPrice v st') (lastPrice v st)))
         (priceChange (config env)) = true).
Proof.
  cbn zeta.
  destruct (onSwap_cases env v raw st)
    as [S|(p & st1 & Hp & G & E1 & E2 & _ & _ & ->)].
  - destruct S as (A1 & A2 & A3 & _). split.
    + intros w _. destruct w; assumption.
    + left. destruct v; assumption.
  - split.
    + intros w Hw. rewrite findAndSimulateBestSpread_prices. apply E2, Hw.
    + right. rewrite findAndSimulateBestSpread_prices, E1. auto.
Qed.


(** With a negative decimal count every price derivation throws. *)
Lemma calculatePrice_negative_decimals cfg raw inv :
  USDC_decimals cfg < 0 \/ cbBTC_decimals cfg < 0 ->
  calculatePrice cfg raw inv = throw RangeError.
Proof.
  intros H. unfold calculatePrice, BigInt, bigPow.
  destruct raw as [z|x]; [|destruct (Js.toInteger x)]; cbn [bindR ok throw];
    try reflexivity.
  all: destruct (Z.ltb_spec (USDC_decimals cfg) 0), (Z.ltb_spec (cbBTC_decimals cfg) 0);
    destruct inv; cbn [bindR ok throw]; try reflexivity; lia.
Qed.

(** What [simulateAndCompound] prints and stores once the simulation has
    returned. *)
Lemma simulateAndCompound_log env announce best st r :
  simulateArbitrageForPair (config env) (dex1 best) (price1 best)
    (dex2 best) (price2 best) (overallBudgetUSDC st) (budgetPercent env) = ok r ->
  let compound := isProfitable r && Js.gt (netProfitUSDC r) Js.zero in
  let newBudget := Js.add (overallBudgetUSDC st) (netProfitUSDC r) in
  let st' := snd (simulateAndCompound env announce best st) in
  overallBudgetUSDC st' = (if compound then newBudget else overallBudgetUSDC st) /\
  console st' =
    console st ++ LogArbitrage r ::
      (if compound && announce
       then [LogBudgetUpdated (overallBudgetUSDC st) (netProfitUSDC r) newBudget]
       else []).
Proof.
  intros Sim. cbn zeta.
  unfold simulateAndCompound, bind, get, liftR. cbn [ok].
  unfold ok in Sim. rewrite Sim. cbn [log].
  destruct (isProfitable r && Js.gt (netProfitUSDC r) Js.zero).
  - destruct announce; cbn; rewrite <- ?app_assoc; split; reflexivity.
  - cbn. split; reflexivity.
Qed.

Lemma spreadTable_simulates env st best b :
  In best (spreadTable st) ->
  exists r, simulateArbitrageForPair (config env) (dex1 best) (price1 best)
              (dex2 best) (price2 best) b (budgetPercent env) = ok r.
Proof.
  intros Hin.
  destruct (spreadTable_registered (config env) st best Hin) as (m1 & m2 & H1 & H2).
  destruct (directions_ok (config env) (dex1 best) (price1 best) (dex2 best)
              (price2 best) b (budgetPercent env) m1 m2 H1 H2)
    as (A & B & HA & HB & _).
  eexists. apply (simulateArbitrageForPair_spec _ _ _ _ _ _ _ A B HA HB).
Qed.

(** What a cycle that stores a new price prints and does to the budget. *)
Lemma onSwap_update_log env v raw st newPrice :
  venuePrice env v raw (isInverted env v) = ok newPrice ->
  Js.gt (Js.abs (Js.sub newPrice (lastPrice v st))) (priceChange (config env)) = true ->
  let st' := snd (onSwap env v raw st) in
  let pct := Js.mul (Js.div (Js.sub newPrice (lastPrice v st)) (lastPrice v st)) hundred in
  exists best r,
    maxSpreadPair st' = ok best /\
    simulateArbitrageForPair (config env) (dex1 best) (price1 best)
      (dex2 best) (price2 best) (overallBudgetUSDC st) (budgetPercent env) = ok r /\
    let compound := isProfitable r && Js.gt (netProfitUSDC r) Js.zero in
    overallBudgetUSDC st' =
      (if compound then Js.add (overallBudgetUSDC st) (netProfitUSDC r)
       else overallBudgetUSDC st) /\
    console st' =
      console st ++
        [LogPriceUpdate v newPrice pct;
         LogMaxSpread (dex1 best) (dex2 best) (spread best);
         LogArbitrage r] ++
        (if compound
         then [LogBudgetUpdated (overallBudgetUSDC st) (netProfitUSDC r)
                                (overallBudgetUSDC st')]
         else []).
Proof.
  intros Hp G. cbn zeta.
  rewrite (onSwap_update env v raw st newPrice Hp G). cbn [snd].
  set (pct := Js.mul _ hundred).
  set (st1 := snd (setLastPrice v newPrice (snd (log (LogPriceUpdate v newPrice pct) st)))).
  destruct (findAndSimulateBestSpread_effect env st1) as (best & Hb & Hin & E).
  cbn zeta in E.
  set (st2 := snd (log (LogMaxSpread (dex1 best) (dex2 best) (spread best)) st1)) in *.
  destruct (spreadTable_simulates env st1 best (overallBudgetUSDC st2) Hin) as [r Sim].
  destruct (simulateAndCompound_log env true best st2 r Sim) as [B C].
  exists best, r. rewrite E.
  assert (P : forall w, lastPrice w (snd (simulateAndCompound env true best st2))
                        = lastPrice w st1).
  { intros w. rewrite <- E. apply findAndSimulateBestSpread_prices. }
  split.
  { unfold maxSpreadPair. rewrite (spreadTable_same_prices st1 _ P). exact Hb. }
  split; [exact Sim|].
  split; [exact B|].
  rewrite C, B, andb_true_r.
  change (console st2) with
    ((console st ++ [LogPriceUpdate v newPrice pct]) ++
     [LogMaxSpread (dex1 best) (dex2 best) (spread best)]).
  change (overallBudgetUSDC st2) with (overallBudgetUSDC st).
  destruct (isProfitable r && Js.gt (netProfitUSDC r) Js.zero);
    rewrite <- !app_assoc; reflexivity.
Qed.

(** * Trade size and fee helper *)

Lemma tenThousand_eq : tenThousand = S754_finite false 5497558138880000 (-39).
Proof. reflexivity. Qed.

Lemma le_zero_not_nan x : Js.le Js.zero x = true -> x <> S754_nan.
Proof. intros H. apply (SFleb_not_nan _ _ H). Qed.

(** A share [part / whole] of a positive [whole] lies between zero and
    one when [0 <= part <= whole]. *)
Lemma share_bounds part mw ew :
  valid part = true -> bounded prec emax mw ew = true ->
  Js.le Js.zero part = true -> Js.le part (S754_finite false mw ew) = true ->
  Js.div (S754_finite false mw ew) (S754_finite false mw ew) = Js.one ->
  Js.le Js.zero (Js.div part (S754_finite false mw ew)) = true /\
  Js.le (Js.div part (S754_finite false mw ew)) Js.one = true.
Proof.
  intros Vp Vw H0 H1 Hone. split.
  - apply SFltb_false_leb; [| discriminate |].
    + destruct part as [s|s| |s m e].
      * cbn. discriminate.
      * destruct s; [discriminate H0 | discriminate H1].
      * discriminate H0.
      * apply SFdiv_finite_not_nan.
    + apply SFdiv_not_negative; [apply SFleb_not_ltb; exact H0 | reflexivity].
  - destruct part as [s|s| |s m e].
    + destruct s; reflexivity.
    + destruct s; [discriminate H0 | discriminate H1].
    + discriminate H0.
    + destruct s; [discriminate H0|].
      rewrite <- Hone. apply SFdiv_mono; try assumption; exact I.
Qed.

Lemma mul_finite_not_nan a c :
  valid a = true -> valid c = true ->
  Js.isFinite a = true -> Js.isFinite c = true -> Js.mul a c <> S754_nan.
Proof.
  intros Va Vc Fa Fc.
  destruct a as [sa|sa| |sa ma ea]; try discriminate Fa;
  destruct c as [sc|sc| |sc mc ec]; try discriminate Fc; try discriminate.
  apply (bra_not_nan _ _ _ _ _ (mul_rounds_in ma ea mc ec Va Vc)).
Qed.

Lemma le_one_finite c :
  Js.le Js.zero c = true -> Js.le c Js.one = true -> Js.isFinite c = true.
Proof.
  destruct c as [s|s| |s m e]; try destruct s; try discriminate; reflexivity.
Qed.

Lemma sub_one_bounds g :
  valid g = true -> Js.le Js.zero g = true -> Js.le g Js.one = true ->
  Js.le Js.zero (Js.sub Js.one g) = true /\ Js.le (Js.sub Js.one g) Js.one = true.
Proof.
  intros Vg H0 H1.
  assert (N : Js.sub Js.one g <> S754_nan).
  { destruct g as [s|s| |s m e].
    - cbn. discriminate.
    - destruct s; [discriminate H0 | discriminate H1].
    - discriminate H0.
    - apply SFsub_finite_not_nan. }
  split.
  - apply SFltb_false_leb; [exact N | discriminate |].
    destruct (SFltb (Js.sub Js.one g) (S754_zero false)) eqn:E; [|exact E].
    apply SFsub_neg_lt in E; [|reflexivity|exact Vg].
    rewrite (SFleb_not_ltb _ _ H1) in E. discriminate.
  - apply SFsub_nonneg_le; [reflexivity | apply SFleb_not_ltb; exact H0 | exact N].
Qed.

(** * More on the price *)

(** With at most 250 base decimals the denominator is a finite number. *)
Lemma denominator_finite d :
  0 <= d <= 250 ->
  exists m e, Js.ofBigInt (2 ^ 96 * 2 ^ 96 * 10 ^ d) = S754_finite false m e.
Proof.
  intros H.
  assert (A : forallb (fun k => Js.isFinite (Js.ofBigInt (2 ^ 96 * 2 ^ 96 * 10 ^ Z.of_nat k)))
                      (seq 0 251) = true) by (vm_compute; reflexivity).
  rewrite forallb_forall in A.
  specialize (A (Z.to_nat d)). rewrite Z2Nat.id in A by lia.
  assert (F : Js.isFinite (Js.ofBigInt (2 ^ 96 * 2 ^ 96 * 10 ^ d)) = true).
  { apply A. apply in_seq. lia. }
  pose proof (denominator_pos d ltac:(lia)) as P.
  destruct (Js.ofBigInt (2 ^ 96 * 2 ^ 96 * 10 ^ d)) as [s|s| |s m e];
    try destruct s; try contradiction; try discriminate F.
  eexists. eexists. reflexivity.
Qed.

Lemma ratio_nonneg n md ed :
  0 <= n -> nonneg_float (Js.div (Js.ofBigInt n) (S754_finite false md ed)).
Proof.
  intros H. pose proof (ofBigInt_nonneg n H) as N.
  destruct (Js.ofBigInt n) as [s|s| |s m e]; try destruct s; try contradiction;
    try exact I.
  apply SFdiv_pos_pos.
Qed.

Lemma one_eq : Js.one = S754_finite false 4503599627370496 (-52).
Proof. reflexivity. Qed.

Lemma inverse_nonneg r : nonneg_float r -> nonneg_float (Js.div Js.one r).
Proof.
  rewrite one_eq.
  destruct r as [s|s| |s m e]; try destruct s; try contradiction; intros _;
    try exact I.
  apply SFdiv_pos_pos.
Qed.

(** The inverse is antitone on numbers that are at least [+0]. *)
Lemma inverse_antitone r1 r2 :
  valid r1 = true -> valid r2 = true ->
  nonneg_float r1 -> nonneg_float r2 -> Js.le r1 r2 = true ->
  Js.le (Js.div Js.one r2) (Js.div Js.one r1) = true.
Proof.
  intros V1 V2 N1 N2 H. rewrite one_eq.
  destruct r1 as [s1|s1| |s1 m1 e1]; try destruct s1; try contradiction.
  - (* 1 / +0 = +Infinity *)
    apply SFleb_nonneg_inf. rewrite <- one_eq. apply inverse_nonneg, N2.
  - destruct r2 as [s2|s2| |s2 m2 e2]; try destruct s2; try contradiction;
      try discriminate H. reflexivity.
  - apply SFdiv_antitone; try assumption. reflexivity.
Qed.

(** The price of a sample and of its negation are the same. *)
Lemma calculatePrice_sign cfg S inv :
  calculatePrice cfg (RawBigInt (- S)) inv = calculatePrice cfg (RawBigInt S) inv.
Proof.
  unfold calculatePrice, BigInt. cbn [bindR ok].
  replace (- S * - S) with (S * S) by ring. reflexivity.
Qed.

Lemma calculatePrice_bounds cfg S inv :
  0 <= USDC_decimals cfg -> 0 <= cbBTC_decimals cfg <= 250 ->
  exists p, calculatePrice cfg (RawBigInt S) inv = ok p /\
            valid p = true /\ nonneg_float p.
Proof.
  intros Hq Hb. rewrite calculatePrice_run by lia. cbn zeta.
  destruct (denominator_finite _ Hb) as (md & ed & ->).
  assert (Hn : 0 <= S * S * 10 ^ USDC_decimals cfg).
  { apply Z.mul_nonneg_nonneg; [apply Z.square_nonneg | apply Z.pow_nonneg; lia]. }
  pose proof (ratio_nonneg _ md ed Hn) as N.
  eexists. split; [reflexivity|]. split; [destruct inv; apply valid_div|].
  destruct inv; [apply inverse_nonneg|]; exact N.
Qed.

Lemma calculatePrice_monotone cfg S1 S2 :
  0 <= USDC_decimals cfg -> 0 <= cbBTC_decimals cfg <= 250 ->
  0 <= S1 <= S2 ->
  exists p1 p2 q1 q2,
    calculatePrice cfg (RawBigInt S1) false = ok p1 /\
    calculatePrice cfg (RawBigInt S2) false = ok p2 /\
    calculatePrice cfg (RawBigInt S1) true = ok q1 /\
    calculatePrice cfg (RawBigInt S2) true = ok q2 /\
    Js.le p1 p2 = true /\ Js.le q2 q1 = true.
Proof.
  intros Hq Hb HS. rewrite !calculatePrice_run by lia. cbn zeta.
  destruct (denominator_finite _ Hb) as (md & ed & ->).
  assert (P : 0 <= 10 ^ USDC_decimals cfg) by (apply Z.pow_nonneg; lia).
  assert (H1 : 0 <= S1 * S1 * 10 ^ USDC_decimals cfg)
    by (apply Z.mul_nonneg_nonneg; [apply Z.square_nonneg | exact P]).
  assert (H2 : 0 <= S2 * S2 * 10 ^ USDC_decimals cfg)
    by (apply Z.mul_nonneg_nonneg; [apply Z.square_nonneg | exact P]).
  assert (L : Js.le (Js.div (Js.ofBigInt (S1 * S1 * 10 ^ USDC_decimals cfg))
                            (S754_finite false md ed))
                    (Js.div (Js.ofBigInt (S2 * S2 * 10 ^ USDC_decimals cfg))
                            (S754_finite false md ed)) = true).
  { apply SFdiv_mono; try apply ofBigInt_valid; try (apply ofBigInt_nonneg; assumption).
    apply ofBigInt_mono. split; [exact H1|].
    apply Z.mul_le_mono_nonneg_r; [exact P|].
    apply Z.square_le_mono_nonneg; lia. }
  do 4 eexists. do 4 (split; [reflexivity|]). split; [exact L|].
  apply inverse_antitone; try apply valid_div; try (apply ratio_nonneg; assumption).
  exact L.
Qed.

(** * Fees, gas and profit *)

Lemma getDexCostModel_nonneg cfg name m :
  nonneg_costs (costs cfg) = true -> getDexCostModel cfg name = ok m ->
  nonneg_model m = true.
Proof.
  unfold nonneg_costs, getDexCostModel, ok, throw. intros W H.
  repeat (apply andb_prop in W; destruct W as [W ?]).
  destruct (String.eqb name "Uniswap");
    [|destruct (String.eqb name "Aerodrome");
      [|destruct (String.eqb name "PancakeSwap")]];
    inversion H; subst; simpl;
    repeat (apply andb_true_intro; split); auto.
Qed.

Lemma not_negative_iff x : not_negative x = true <-> SFltb x (S754_zero false) = false.
Proof. unfold not_negative, Js.lt, Js.zero. apply negb_true_iff. Qed.

Lemma nonneg_not_negative x : Js.le Js.zero x = true -> not_negative x = true.
Proof.
  intros H. apply not_negative_iff. apply SFleb_not_ltb. exact H.
Qed.

Lemma not_negative_nonneg x :
  not_negative x = true -> x <> S754_nan -> Js.le Js.zero x = true.
Proof.
  intros H N. apply not_negative_iff in H.
  apply SFltb_false_leb; [exact N | discriminate | exact H].
Qed.

Lemma tradeFee_valid m x :
  wf_model m = true -> valid x = true -> valid (tradeFee m x) = true.
Proof.
  intros W V. destruct m; simpl in *; apply andb_prop in W; destruct W;
    auto using valid_mul, valid_div.
Qed.

Lemma tradeFee_not_negative m x :
  wf_model m = true -> nonneg_model m = true -> valid x = true ->
  not_negative x = true -> not_negative (tradeFee m x) = true.
Proof.
  intros W N V H. destruct m as [bps g|f g]; simpl in *;
    apply andb_prop in W; destruct W as [W1 W2];
    apply andb_prop in N; destruct N as [N1 N2].
  - apply not_negative_iff. apply SFmul_not_negative.
    + exact V.
    + apply SFdiv_valid.
    + apply not_negative_iff. exact H.
    + apply SFdiv_not_negative; [|reflexivity].
      apply SFleb_not_ltb. exact N1.
  - apply nonneg_not_negative. exact N1.
Qed.

Lemma mul_not_nan x y : SFmul prec emax x y <> S754_nan -> x <> S754_nan /\ y <> S754_nan.
Proof.
  intros H. split; intros ->; apply H; [reflexivity | destruct x; reflexivity].
Qed.

(** A direction whose revenue before fees is not above its cost before
    fees is not profitable: fees and gas only lower the result. *)
Lemma direction_chain cfg p r :
  wf_costs (costs cfg) = true -> nonneg_costs (costs cfg) = true ->
  valid (p_tradeSizeCbBTC p) = true ->
  valid (p_buyPrice p) = true -> valid (p_sellPrice p) = true ->
  not_negative (Js.mul (p_tradeSizeCbBTC p) (p_buyPrice p)) = true ->
  not_negative (Js.mul (p_tradeSizeCbBTC p) (p_sellPrice p)) = true ->
  (Js.mul (p_tradeSizeCbBTC p) (p_sellPrice p) <> S754_nan ->
   Js.mul (p_tradeSizeCbBTC p) (p_buyPrice p) <> S754_nan ->
   Js.le (Js.mul (p_tradeSizeCbBTC p) (p_sellPrice p))
         (Js.mul (p_tradeSizeCbBTC p) (p_buyPrice p)) = true) ->
  calculateArbDirection cfg p = ok r ->
  isProfitable r = false.
Proof.
  intros W N Vt Vb Vs NNspent NNrecv Hle H.
  destruct (calculateArbDirection_ok_inv cfg p r H) as (bm & sm & Hbm & Hsm).
  destruct (calculateArbDirection_spec cfg p bm sm Hbm Hsm)
    as (r' & H' & E1 & E2 & E3 & E4 & E5 & E6 & E7 & E8 & _ & E10 & _).
  rewrite H in H'. inversion H'; subst r'. clear H'.
  pose proof (getDexCostModel_wf cfg _ bm W Hbm) as Wb.
  pose proof (getDexCostModel_wf cfg _ sm W Hsm) as Ws.
  pose proof (getDexCostModel_nonneg cfg _ bm N Hbm) as Nb.
  pose proof (getDexCostModel_nonneg cfg _ sm N Hsm) as Ns.
  rewrite E10. destruct (Js.gt (netProfitUSDC r) Js.zero) eqn:G; [exfalso|reflexivity].
  rewrite <- E1 in NNspent, Hle. rewrite <- E4 in NNrecv, Hle.
  set (spent := usdcSpentBeforeFee (details r)) in *.
  set (recv := usdcReceivedBeforeFee (details r)) in *.
  set (spentAfter := usdcSpentAfterFee (details r)) in *.
  set (recvAfter := usdcReceivedAfterFee (details r)) in *.
  set (gas := totalGasCostUSDC (details r)) in *.
  change (buyTradeFeesUSDC (details r) = tradeFee bm spent) in E2.
  change (sellTradeFeesUSDC (details r) = tradeFee sm recv) in E5.
  rewrite E2 in E3. rewrite E5 in E6. clear E2 E5.
  assert (Vspent : valid spent = true) by (rewrite E1; apply valid_mul; assumption).
  assert (Vrecv : valid recv = true) by (rewrite E4; apply valid_mul; assumption).
  assert (Vfb : valid (tradeFee bm spent) = true) by (apply tradeFee_valid; assumption).
  assert (Vfs : valid (tradeFee sm recv) = true) by (apply tradeFee_valid; assumption).
  assert (VspentAfter : valid spentAfter = true) by (rewrite E3; apply valid_add; assumption).
  assert (VrecvAfter : valid recvAfter = true) by (rewrite E6; apply valid_sub; assumption).
  assert (Vgas : valid gas = true)
    by (rewrite E7; apply valid_add; apply wf_model_gas; assumption).
  assert (Ngas : Js.le Js.zero gas = true).
  { rewrite E7. apply SFadd_nonneg.
    - destruct bm; simpl in *; apply andb_prop in Nb; tauto.
    - destruct sm; simpl in *; apply andb_prop in Ns; tauto. }
  pose proof (tradeFee_not_negative bm spent Wb Nb Vspent NNspent) as NNfb.
  pose proof (tradeFee_not_negative sm recv Ws Ns Vrecv NNrecv) as NNfs.
  (* the chain *)
  rewrite E8 in G. unfold Js.gt, Js.zero, Js.sub in G.
  assert (Vnet : valid (Js.sub recvAfter gas) = true) by (apply valid_sub; assumption).
  pose proof (SFsub_pos_gt _ _ Vnet VspentAfter G) as C1.
  destruct (SFltb_not_nan _ _ C1) as [NspentAfter NnetUSDC].
  assert (C2 : SFleb (Js.sub recvAfter gas) recvAfter = true).
  { apply SFsub_nonneg_le; [exact VrecvAfter | | exact NnetUSDC].
    apply SFleb_not_ltb. exact Ngas. }
  destruct (SFleb_not_nan _ _ C2) as [_ NrecvAfter].
  assert (C3 : SFleb recvAfter recv = true).
  { rewrite E6 in NrecvAfter |- *.
    apply SFsub_nonneg_le; [exact Vrecv | | exact NrecvAfter].
    apply not_negative_iff. exact NNfs. }
  destruct (SFleb_not_nan _ _ C3) as [_ Nrecv].
  assert (C5 : SFleb spent spentAfter = true).
  { rewrite E3 in NspentAfter |- *.
    apply SFadd_nonneg_ge; [exact Vspent | | exact NspentAfter].
    apply not_negative_iff. exact NNfb. }
  destruct (SFleb_not_nan _ _ C5) as [Nspent _].
  pose proof (Hle Nrecv Nspent) as C4.
  pose proof (SFleb_trans _ _ _ C2 (SFleb_trans _ _ _ C3 (SFleb_trans _ _ _ C4 C5))) as C.
  rewrite (SFleb_not_ltb _ _ C) in C1. discriminate.
Qed.

(** A direction that sells at a price not above its buy price is not
    profitable. *)
Lemma direction_needs_spread cfg p r :
  wf_costs (costs cfg) = true -> nonneg_costs (costs cfg) = true ->
  valid (p_tradeSizeCbBTC p) = true -> not_negative (p_tradeSizeCbBTC p) = true ->
  valid (p_buyPrice p) = true -> valid (p_sellPrice p) = true ->
  Js.le Js.zero (p_sellPrice p) = true ->
  Js.le (p_sellPrice p) (p_buyPrice p) = true ->
  calculateArbDirection cfg p = ok r ->
  isProfitable r = false.
Proof.
  intros W N Vt Ht Vb Vs Hs Hsb H.
  assert (Hb : Js.le Js.zero (p_buyPrice p) = true) by exact (SFleb_trans _ _ _ Hs Hsb).
  apply (direction_chain cfg p r W N Vt Vb Vs); try exact H.
  - apply not_negative_iff. apply SFmul_not_negative; try assumption.
    + apply not_negative_iff. exact Ht.
    + apply SFleb_not_ltb. exact Hb.
  - apply not_negative_iff. apply SFmul_not_negative; try assumption.
    + apply not_negative_iff. exact Ht.
    + apply SFleb_not_ltb. exact Hs.
  - intros Nrecv Nspent. apply SFmul_mono_r; try assumption.
    apply not_negative_nonneg; [exact Ht|]. apply (mul_not_nan _ _ Nrecv).
Qed.

(** A number that is a zero or NaN: what a zero budget or a zero
    percentage makes of every amount. *)
Lemma nothing_mul_l x y : nothing x = true -> nothing (Js.mul x y) = true.
Proof.
  destruct x as [s|s| |s m e]; try destruct s; try discriminate; intros _;
    destruct y as [s'|s'| |s' m' e']; try destruct s'; reflexivity.
Qed.

Lemma nothing_mul_r x y : nothing y = true -> nothing (Js.mul x y) = true.
Proof.
  destruct y as [s|s| |s m e]; try destruct s; try discriminate; intros _;
    destruct x as [s'|s'| |s' m' e']; try destruct s'; reflexivity.
Qed.

Lemma nothing_div_l x y : nothing x = true -> nothing (Js.div x y) = true.
Proof.
  destruct x as [s|s| |s m e]; try destruct s; try discriminate; intros _;
    destruct y as [s'|s'| |s' m' e']; try destruct s'; reflexivity.
Qed.

Lemma nothing_not_negative x : nothing x = true -> not_negative x = true.
Proof.
  destruct x as [s|s| |s m e]; try destruct s; try discriminate; reflexivity.
Qed.

Lemma nothing_le x y :
  nothing x = true -> nothing y = true -> x <> S754_nan -> y <> S754_nan ->
  Js.le x y = true.
Proof.
  destruct x as [s|s| |s m e]; try destruct s; try discriminate;
    destruct y as [s'|s'| |s' m' e']; try destruct s'; try discriminate;
    try congruence; reflexivity.
Qed.

(** A direction that trades nothing is not profitable. *)
Lemma direction_needs_size cfg p r :
  wf_costs (costs cfg) = true -> nonneg_costs (costs cfg) = true ->
  valid (p_tradeSizeCbBTC p) = true -> nothing (p_tradeSizeCbBTC p) = true ->
  valid (p_buyPrice p) = true -> valid (p_sellPrice p) = true ->
  calculateArbDirection cfg p = ok r ->
  isProfitable r = false.
Proof.
  intros W N Vt Ht Vb Vs H.
  apply (direction_chain cfg p r W N Vt Vb Vs); try exact H.
  - apply nothing_not_negative, nothing_mul_l, Ht.
  - apply nothing_not_negative, nothing_mul_l, Ht.
  - intros N1 N2. apply nothing_le; try assumption; apply nothing_mul_l, Ht.
Qed.

(** Without a budget or without a percentage no simulation is
    profitable. *)
Lemma simulate_needs_budget cfg d1 p1 d2 p2 b pct r :
  wf_costs (costs cfg) = true -> nonneg_costs (costs cfg) = true ->
  valid p1 = true -> valid p2 = true ->
  isZero b = true \/ isZero pct = true ->
  simulateArbitrageForPair cfg d1 p1 d2 p2 b pct = ok r ->
  isProfitable r = false.
Proof.
  intros W N V1 V2 Z Sim.
  destruct (simulateArbitrageForPair_ok_inv _ _ _ _ _ _ _ _ Sim) as (A & B & HA & HB & E).
  assert (T : nothing (getArbTradeSizeUSDC b pct) = true).
  { unfold getArbTradeSizeUSDC. destruct Z as [Z|Z].
    - apply nothing_mul_l. destruct b as [s|s| |s m e]; try discriminate Z;
        try (destruct s; discriminate Z); reflexivity.
    - apply nothing_mul_r, nothing_div_l.
      destruct pct as [s|s| |s m e]; try discriminate Z;
        try (destruct s; discriminate Z); reflexivity. }
  unfold directionA in HA. unfold directionB in HB.
  assert (PA : isProfitable A = false).
  { refine (direction_needs_size cfg _ A W N _ _ _ _ HA); cbn; try assumption.
    - apply valid_div.
    - apply nothing_div_l, T. }
  assert (PB : isProfitable B = false).
  { refine (direction_needs_size cfg _ B W N _ _ _ _ HB); cbn; try assumption.
    - apply valid_div.
    - apply nothing_div_l, T. }
  rewrite E. destruct (Js.gt (netProfitUSDC A) (netProfitUSDC B)); assumption.
Qed.

(** What [calculateArbDirection] copies from its argument. *)
Lemma calculateArbDirection_details cfg p r :
  calculateArbDirection cfg p = ok r ->
  buyPrice (details r) = p_buyPrice p /\ sellPrice (details r) = p_sellPrice p /\
  currentBudgetUSDC (details r) = p_currentBudgetUSDC p /\
  tradeSizeUSDC (details r) = p_tradeSizeUSDC p /\
  tradeSizeCbBTC (details r) = p_tradeSizeCbBTC p.
Proof.
  unfold calculateArbDirection, totalGasCostForDirection.
  destruct (getDexCostModel cfg (p_buyDex p)) as [e|bm]; [discriminate|].
  destruct (getDexCostModel cfg (p_sellDex p)) as [e|sm]; [discriminate|].
  cbn [bindR ok].
  destruct bm, sm; cbn [bindR ok]; intros H; inversion H; cbn; auto.
Qed.

Lemma getArbTradeSizeUSDC_not_negative b pct :
  valid b = true -> not_negative b = true -> not_negative pct = true ->
  not_negative (getArbTradeSizeUSDC b pct) = true.
Proof.
  intros Vb Hb Hp. unfold getArbTradeSizeUSDC.
  apply not_negative_iff. apply SFmul_not_negative.
  - exact Vb.
  - apply SFdiv_valid.
  - apply not_negative_iff, Hb.
  - apply SFdiv_not_negative; [apply not_negative_iff, Hp | reflexivity].
Qed.

(** A simulation judged profitable buys at the strictly lower price. *)
Lemma simulate_profit_buys_low cfg d1 p1 d2 p2 b pct r :
  wf_costs (costs cfg) = true -> nonneg_costs (costs cfg) = true ->
  valid p1 = true -> valid p2 = true ->
  Js.gt p1 Js.zero = true -> Js.gt p2 Js.zero = true ->
  valid b = true -> not_negative b = true -> not_negative pct = true ->
  simulateArbitrageForPair cfg d1 p1 d2 p2 b pct = ok r ->
  isProfitable r = true ->
  Js.lt (buyPrice (details r)) (sellPrice (details r)) = true.
Proof.
  intros W N V1 V2 G1 G2 Vb Hb Hp Sim Pr.
  destruct (simulateArbitrageForPair_ok_inv _ _ _ _ _ _ _ _ Sim) as (A & B & HA & HB & E).
  pose proof (getArbTradeSizeUSDC_not_negative b pct Vb Hb Hp) as Ht.
  assert (Hdir : forall buy sell bd sd r0,
            valid buy = true -> valid sell = true ->
            Js.gt buy Js.zero = true -> Js.gt sell Js.zero = true ->
            calculateArbDirection cfg
              {| p_buyDex := bd; p_sellDex := sd; p_buyPrice := buy; p_sellPrice := sell;
                 p_tradeSizeCbBTC := Js.div (getArbTradeSizeUSDC b pct) buy;
                 p_tradeSizeUSDC := getArbTradeSizeUSDC b pct;
                 p_currentBudgetUSDC := b |} = ok r0 ->
            isProfitable r0 = true ->
            Js.lt (buyPrice (details r0)) (sellPrice (details r0)) = true).
  { intros buy sell bd sd r0 Vbuy Vsell Gb Gs H0 P0.
    destruct (calculateArbDirection_details _ _ _ H0) as (-> & -> & _). cbn.
    destruct (Js.lt buy sell) eqn:L; [reflexivity|exfalso].
    apply SFltb_false_leb in L;
      [| apply (SFltb_not_nan _ _ Gb) | apply (SFltb_not_nan _ _ Gs)].
    assert (NP : isProfitable r0 = false).
    { refine (direction_needs_spread cfg _ r0 W N _ _ _ _ _ _ H0); cbn;
        try assumption.
      - apply valid_div.
      - apply not_negative_iff. apply SFdiv_not_negative; [|exact Gb].
        apply not_negative_iff, Ht.
      - apply SFltb_leb. exact Gs. }
    congruence. }
  unfold directionA in HA. unfold directionB in HB.
  rewrite E in *. destruct (Js.gt (netProfitUSDC A) (netProfitUSDC B)).
  - exact (Hdir _ _ _ _ A V1 V2 G1 G2 HA Pr).
  - exact (Hdir _ _ _ _ B V2 V1 G2 G1 HB Pr).
Qed.

(** With one price on both venues the budget stays as it is. *)
Lemma simulateAndCompound_no_spread env announce best st :
  wf_costs (costs (config env)) = true -> nonneg_costs (costs (config env)) = true ->
  valid (price1 best) = true -> Js.gt (price1 best) Js.zero = true ->
  price2 best = price1 best ->
  valid (overallBudgetUSDC st) = true -> not_negative (overallBudgetUSDC st) = true ->
  not_negative (budgetPercent env) = true ->
  overallBudgetUSDC (snd (simulateAndCompound env announce best st)) = overallBudgetUSDC st.
Proof.
  intros W N V G E Vb Hb Hp.
  destruct (simulateAndCompound_effect env announce best st) as (_ & _ & _ & H).
  destruct (simulateArbitrageForPair _ _ _ _ _ _ _) as [e|r] eqn:Sim.
  - rewrite H. reflexivity.
  - destruct H as [_ ->].
    destruct (isProfitable r) eqn:Pr; [exfalso|reflexivity].
    rewrite E in Sim.
    pose proof (simulate_profit_buys_low _ _ _ _ _ _ _ r W N V V G G Vb Hb Hp Sim Pr) as L.
    destruct (simulateArbitrageForPair_ok_inv _ _ _ _ _ _ _ _ Sim) as (A & B & HA & HB & Er).
    unfold directionA in HA. unfold directionB in HB.
    destruct (calculateArbDirection_details _ _ _ HA) as (A1 & A2 & _).
    destruct (calculateArbDirection_details _ _ _ HB) as (B1 & B2 & _).
    cbn in A1, A2, B1, B2.
    assert (F : Js.lt (price1 best) (price1 best) = false).
    { apply SFleb_not_ltb, SFleb_refl. apply (SFltb_not_nan _ _ G). }
    rewrite Er in L. destruct (Js.gt (netProfitUSDC A) (netProfitUSDC B)).
    + rewrite A1, A2, F in L. discriminate.
    + rewrite B1, B2, F in L. discriminate.
Qed.

(** * The dual monitor *)

Lemma dual_onSwap_error denv v ev slot0 d e :
  bindR slot0 (fun s => Dual.venuePrice denv v s (Dual.isInverted denv v)) = throw e ->
  Dual.onSwap denv v ev slot0 d = Dual.log (Dual.LogError v e) d.
Proof. intros H. unfold Dual.onSwap. unfold throw in H. rewrite H. reflexivity. Qed.

Lemma dual_onSwap_quiet denv v ev slot0 d p :
  bindR slot0 (fun s => Dual.venuePrice denv v s (Dual.isInverted denv v)) = ok p ->
  Js.gt (Js.abs (Js.sub p (Dual.lastPrice v d))) (priceChange (Dual.config denv)) = false ->
  Dual.onSwap denv v ev slot0 d = d.
Proof.
  intros H G. unfold Dual.onSwap. unfold ok in H. rewrite H, G. reflexivity.
Qed.

Lemma dual_onSwap_update denv v ev slot0 d p :
  bindR slot0 (fun s => Dual.venuePrice denv v s (Dual.isInverted denv v)) = ok p ->
  Js.gt (Js.abs (Js.sub p (Dual.lastPrice v d))) (priceChange (Dual.config denv)) = true ->
  let d' := Dual.onSwap denv v ev slot0 d in
  Dual.lastPrice v d' = p /\
  (forall w, w <> v -> Dual.lastPrice w d' = Dual.lastPrice w d) /\
  Dual.console d' =
    Dual.console d ++
      [Dual.LogPriceUpdate v p
         (Js.mul (Js.div (Js.sub p (Dual.lastPrice v d)) (Dual.lastPrice v d)) hundred)
         (calculateSpread (Dual.lastAerodromePrice d') (Dual.lastUniswapPrice d'))].
Proof.
  intros H G. cbn zeta. unfold Dual.onSwap. unfold ok in H. rewrite H, G.
  destruct v; cbn; repeat split; try reflexivity;
    intros w Hw; destruct w; try reflexivity; congruence.
Qed.

Lemma dual_venuePrice denv env v raw :
  same_setup denv env ->
  Dual.venuePrice denv v raw (Dual.isInverted denv v) =
  venuePrice env (ofDualVenue v) raw (isInverted env (ofDualVenue v)).
Proof.
  intros (C & U & A). destruct v; cbn; rewrite C, ?U, ?A; reflexivity.
Qed.

Lemma same_prices_lastPrice d st v :
  same_prices d st -> Dual.lastPrice v d = lastPrice (ofDualVenue v) st.
Proof. intros [U A]. destruct v; assumption. Qed.

(** The two monitors stay in step on the venues they share. *)
Lemma dual_step denv env v raw d st :
  same_setup denv env -> same_prices d st ->
  same_prices (Dual.onSwap denv v raw (ok raw) d)
              (snd (onSwap env (ofDualVenue v) raw st)).
Proof.
  intros S P.
  pose proof (dual_venuePrice denv env v raw S) as E.
  pose proof (same_prices_lastPrice d st v P) as L.
  assert (C : Dual.config denv = config env) by apply S.
  destruct (venuePrice env (ofDualVenue v) raw (isInverted env (ofDualVenue v)))
    as [e|p] eqn:Hp.
  - rewrite (dual_onSwap_error denv v raw (ok raw) d e) by exact E.
    rewrite (onSwap_error env _ raw st e Hp). exact P.
  - destruct (Js.gt (Js.abs (Js.sub p (lastPrice (ofDualVenue v) st)))
                    (priceChange (config env))) eqn:G.
    + destruct (dual_onSwap_update denv v raw (ok raw) d p E) as (D1 & D2 & _).
      { rewrite L, C. exact G. }
      rewrite (onSwap_update env _ raw st p Hp G). cbn [snd].
      set (st1 := snd (setLastPrice _ p _)).
      assert (T : forall w, lastPrice w (snd (findAndSimulateBestSpread env st1))
                            = lastPrice w st1)
        by (intros w; apply findAndSimulateBestSpread_prices).
      destruct P as [PU PA].
      split.
      * change (Dual.lastPrice Dual.Uniswap (Dual.onSwap denv v raw (ok raw) d)
                = lastPrice Uniswap (snd (findAndSimulateBestSpread env st1))).
        rewrite T. destruct v; [rewrite D1; reflexivity|].
        rewrite D2 by discriminate. exact PU.
      * change (Dual.lastPrice Dual.Aerodrome (Dual.onSwap denv v raw (ok raw) d)
                = lastPrice Aerodrome (snd (findAndSimulateBestSpread env st1))).
        rewrite T. destruct v; [|rewrite D1; reflexivity].
        rewrite D2 by discriminate. exact PA.
    + rewrite (dual_onSwap_quiet denv v raw (ok raw) d p E) by (rewrite L, C; exact G).
      rewrite (onSwap_quiet env _ raw st p Hp G). exact P.
Qed.

Lemma pancake_step env raw d st :
  same_prices d st -> same_prices d (snd (onSwap env PancakeSwap raw st)).
Proof.
  intros [U A]. destruct (onSwap_prices env PancakeSwap raw st) as [F _].
  split.
  - rewrite U. symmetry. apply (F Uniswap). discriminate.
  - rewrite A. symmetry. apply (F Aerodrome). discriminate.
Qed.

(** * The report *)

Lemma simulateArbitrageForPair_result cfg d1 p1 d2 p2 b pct r :
  simulateArbitrageForPair cfg d1 p1 d2 p2 b pct = ok r ->
  isProfitable r = Js.gt (netProfitUSDC r) Js.zero /\
  currentBudgetUSDC (details r) = b /\
  tradeSizeUSDC (details r) = getArbTradeSizeUSDC b pct /\
  (buyDex r = d1 /\ sellDex r = d2 /\ buyPrice (details r) = p1 /\ sellPrice (details r) = p2 \/
   buyDex r = d2 /\ sellDex r = d1 /\ buyPrice (details r) = p2 /\ sellPrice (details r) = p1).
Proof.
  intros Sim.
  destruct (simulateArbitrageForPair_ok_inv _ _ _ _ _ _ _ _ Sim) as (A & B & HA & HB & E).
  unfold directionA in HA. unfold directionB in HB.
  destruct (calculateArbDirection_details _ _ _ HA) as (A1 & A2 & A3 & A4 & _).
  destruct (calculateArbDirection_details _ _ _ HB) as (B1 & B2 & B3 & B4 & _).
  match type of HA with
  | calculateArbDirection _ ?pa = _ =>
      destruct (calculateArbDirection_ok_inv cfg pa A HA) as (bm & sm & Hbm & Hsm);
      destruct (calculateArbDirection_spec cfg pa bm sm Hbm Hsm)
        as (A' & HA' & _ & _ & _ & _ & _ & _ & _ & _ & _ & PA & DA1 & DA2)
  end.
  match type of HB with
  | calculateArbDirection _ ?pb = _ =>
      destruct (calculateArbDirection_spec cfg pb sm bm Hsm Hbm)
        as (B' & HB' & _ & _ & _ & _ & _ & _ & _ & _ & _ & PB & DB1 & DB2)
  end.
  cbn in Hbm, Hsm.
  rewrite HA in HA'. rewrite HB in HB'.
  assert (EA : A' = A) by (unfold ok in *; congruence).
  assert (EB : B' = B) by (unfold ok in *; congruence).
  subst A' B'. cbn in *.
  rewrite E. destruct (Js.gt (netProfitUSDC A) (netProfitUSDC B)); auto 10.
Qed.

(** * Start-up, again *)

Lemma initialSpreadAnalysis_returns env st :
  fst (initialSpreadAnalysis env st) = ok tt.
Proof.
  destruct (initialSpreadAnalysis_effect env st) as (best & _ & Hin & ->).
  set (st0 := snd (log _ st)).
  destruct (simulateAndCompound_effect env false best st0) as (_ & _ & _ & H).
  destruct (spreadTable_simulates env st best (overallBudgetUSDC st0) Hin) as [r Sim].
  rewrite Sim in H. apply H.
Qed.

Lemma initialSpreadAnalysis_prices env st v :
  lastPrice v (snd (initialSpreadAnalysis env st)) = lastPrice v st.
Proof.
  destruct (initialSpreadAnalysis_effect env st) as (best & _ & _ & ->).
  destruct (simulateAndCompound_effect env false best
              (snd (log (LogMaxSpread (dex1 best) (dex2 best) (spread best)) st)))
    as (P1 & P2 & P3 & _).
  destruct v; cbn [lastPrice]; [rewrite P1 | rewrite P2 | rewrite P3]; reflexivity.
Qed.

Lemma initialSpreadAnalysis_log env st :
  exists best r,
    maxSpreadPair st = ok best /\
    simulateArbitrageForPair (config env) (dex1 best) (price1 best)
      (dex2 best) (price2 best) (overallBudgetUSDC st) (budgetPercent env) = ok r /\
    console (snd (initialSpreadAnalysis env st)) =
      console st ++ [LogMaxSpread (dex1 best) (dex2 best) (spread best); LogArbitrage r] /\
    overallBudgetUSDC (snd (initialSpreadAnalysis env st)) =
      (if isProfitable r && Js.gt (netProfitUSDC r) Js.zero
       then Js.add (overallBudgetUSDC st) (netProfitUSDC r)
       else overallBudgetUSDC st).
Proof.
  destruct (initialSpreadAnalysis_effect env st) as (best & Hb & Hin & ->).
  set (st0 := snd (log (LogMaxSpread (dex1 best) (dex2 best) (spread best)) st)).
  destruct (spreadTable_simulates env st best (overallBudgetUSDC st0) Hin) as [r Sim].
  destruct (simulateAndCompound_log env false best st0 r Sim) as [B C].
  exists best, r. split; [exact Hb|]. split; [exact Sim|].
  rewrite C, B, andb_false_r. split; [|reflexivity].
  change (console st0) with (console st ++ [LogMaxSpread (dex1 best) (dex2 best) (spread best)]).
  rewrite <- app_assoc. reflexivity.
Qed.

Lemma startMonitor_run env b0 u a p pu pa pp :
  calculatePrice (config env) u (uniswapIsInverted env) = ok pu ->
  calculateAerodromePrice (config env) a (aerodromeIsInverted env) = ok pa ->
  calculatePrice (config env) p (pancakeIsInverted env) = ok pp ->
  startMonitor env b0 u a p =
    ok (snd (initialSpreadAnalysis env
               {| lastUniswapPrice := pu; lastAerodromePrice := pa;
                  lastPancakePrice := pp; overallBudgetUSDC := b0;
                  console := [] |})).
Proof.
  intros Hu Ha Hp. unfold startMonitor. unfold ok in Hu, Ha, Hp.
  rewrite Hu. cbn [bindR]. rewrite Ha. cbn [bindR]. rewrite Hp. cbn [bindR].
  match goal with
  | |- context [initialSpreadAnalysis env ?s] =>
      pose proof (initialSpreadAnalysis_returns env s) as R;
      destruct (initialSpreadAnalysis env s) as [res st2]
  end.
  cbn [fst] in R. subst res. reflexivity.
Qed.

(** * The configuration loader *)

Lemma getRequiredEnv_ok processEnv key description value :
  getRequiredEnv processEnv key description = ok value <->
  processEnv key = Some value /\ value <> EmptyString.
Proof.
  unfold getRequiredEnv, ok, throw.
  destruct (processEnv key) as [v|]; [|split; [discriminate | intros [H _]; discriminate]].
  destruct (String.eqb_spec v EmptyString) as [->|N].
  - split; [discriminate|]. intros [H N]. inversion H. congruence.
  - split.
    + intros H. inversion H. subst. auto.
    + intros [H _]. inversion H. reflexivity.
Qed.

Lemma getOptionalEnv_spec processEnv key description defaultValue :
  getOptionalEnv processEnv key defaultValue =
    match getRequiredEnv processEnv key description with
    | inr value => value
    | inl _ => defaultValue
    end.
Proof.
  unfold getOptionalEnv, getRequiredEnv, ok, throw.
  destruct (processEnv key) as [v|]; [|reflexivity].
  destruct (String.eqb v EmptyString); reflexivity.
Qed.

Lemma parseFloatSafe_ok parseFloat value key x :
  parseFloatSafe parseFloat value key = ok x -> isNaN x = false.
Proof.
  unfold parseFloatSafe, ok, throw. destruct (isNaN (parseFloat value)) eqn:E;
    [discriminate|]. intros H. inversion H. subst. exact E.
Qed.

Lemma parseIntSafe_ok parseInt value key x :
  parseIntSafe parseInt value key = ok x -> isNaN x = false.
Proof.
  unfold parseIntSafe, ok, throw. destruct (isNaN (parseInt value)) eqn:E;
    [discriminate|]. intros H. inversion H. subst. exact E.
Qed.

(** * Runs of events *)

Lemma Venue_eq_dec (a b : Venue) : {a = b} + {a <> b}.
Proof. decide equality. Defined.

Lemma simulateAndCompound_no_budget env announce best st :
  wf_costs (costs (config env)) = true -> nonneg_costs (costs (config env)) = true ->
  valid (price1 best) = true -> valid (price2 best) = true ->
  isZero (overallBudgetUSDC st) = true \/ isZero (budgetPercent env) = true ->
  overallBudgetUSDC (snd (simulateAndCompound env announce best st)) = overallBudgetUSDC st.
Proof.
  intros W N V1 V2 Z.
  destruct (simulateAndCompound_effect env announce best st) as (_ & _ & _ & H).
  destruct (simulateArbitrageForPair _ _ _ _ _ _ _) as [e|r] eqn:Sim.
  - rewrite H. reflexivity.
  - destruct H as [_ ->].
    rewrite (simulate_needs_budget _ _ _ _ _ _ _ r W N V1 V2 Z Sim). reflexivity.
Qed.

Lemma onSwap_no_budget env v raw st :
  wf_costs (costs (config env)) = true -> nonneg_costs (costs (config env)) = true ->
  wf_state st = true ->
  isZero (overallBudgetUSDC st) = true \/ isZero (budgetPercent env) = true ->
  overallBudgetUSDC (snd (onSwap env v raw st)) = overallBudgetUSDC st.
Proof.
  intros W N Wst Z.
  pose proof (proj1 (wf_state_iff st) Wst) as (Vu & Va & Vp & Ab).
  destruct (onSwap_cases env v raw st)
    as [S|(p & st1 & Hp & _ & E1 & E2 & E3 & _ & ->)].
  - apply S.
  - assert (W1 : wf_state st1 = true).
    { pose proof (venuePrice_valid _ _ _ _ _ Hp) as Vn.
      rewrite wf_state_iff, E3.
      destruct v; cbn [lastPrice] in E1;
        pose proof (E2 Uniswap) as EU; pose proof (E2 Aerodrome) as EA;
        pose proof (E2 PancakeSwap) as EP; cbn [lastPrice] in EU, EA, EP;
        rewrite ?E1, ?EU, ?EA, ?EP by discriminate; auto. }
    rewrite <- E3.
    destruct (findAndSimulateBestSpread_effect env st1) as (best & _ & Hin & ->).
    destruct (spreadTable_valid st1 best W1 Hin) as [V1 V2].
    apply (simulateAndCompound_no_budget env true best
             (snd (log (LogMaxSpread (dex1 best) (dex2 best) (spread best)) st1)));
      try assumption.
    cbn [log snd overallBudgetUSDC]. rewrite E3. exact Z.
Qed.

Lemma onSwap_integer_lines env v S st :
  0 <= USDC_decimals (config env) -> 0 <= cbBTC_decimals (config env) ->
  exists l, console (snd (onSwap env v (RawBigInt S) st)) = console st ++ l /\
            forallb (fun line => negb (isErrorLine line)) l = true.
Proof.
  intros Hq Hb.
  assert (P : exists p, venuePrice env v (RawBigInt S) (isInverted env v) = ok p).
  { rewrite venuePrice_eq. eexists. apply (calculatePrice_run _ _ _ Hq Hb). }
  destruct P as [p Hp].
  destruct (Js.gt (Js.abs (Js.sub p (lastPrice v st))) (priceChange (config env))) eqn:G.
  - destruct (onSwap_update_log env v (RawBigInt S) st p Hp G)
      as (best & r & _ & _ & _ & C).
    rewrite C. eexists. split; [reflexivity|].
    destruct (isProfitable r && Js.gt (netProfitUSDC r) Js.zero); reflexivity.
  - rewrite (onSwap_quiet env v (RawBigInt S) st p Hp G). exists [].
    cbn [snd]. rewrite app_nil_r. split; reflexivity.
Qed.

Lemma onSwap_integer_prices env v S st :
  0 <= USDC_decimals (config env) -> 0 <= cbBTC_decimals (config env) <= 250 ->
  (forall w, valid (lastPrice w st) = true /\ Js.le Js.zero (lastPrice w st) = true) ->
  forall w, valid (lastPrice w (snd (onSwap env v (RawBigInt S) st))) = true /\
            Js.le Js.zero (lastPrice w (snd (onSwap env v (RawBigInt S) st))) = true.
Proof.
  intros Hq Hb H w.
  destruct (onSwap_prices env v (RawBigInt S) st) as [F O].
  destruct (calculatePrice_bounds (config env) S (isInverted env v) Hq Hb)
    as (p & Hp & Vp & Np).
  rewrite <- venuePrice_eq with (v := v) in Hp.
  destruct (Venue_eq_dec w v) as [->|D].
  - destruct O as [->|[O _]]; [apply H|].
    rewrite Hp in O. assert (E : lastPrice v (snd (onSwap env v (RawBigInt S) st)) = p)
      by (unfold ok in O; congruence).
    rewrite E. split; [exact Vp | apply SFleb_zero_nonneg, Np].
  - rewrite (F w D). apply H.
Qed.


(** * The claims *)

(** ** Price derivation *)

(** C2. For every integer raw sample [S] (the nonnegative ones among
    them) and nonnegative decimal counts, the non-inverted price is
    [Number(numerator) / Number(denominator)] with
    [numerator = S * S * 10^quoteDecimals] and
    [denominator = 2^96 * 2^96 * 10^baseDecimals], both computed on
    integers and divided as binary64 numbers; the inverted price is
    [1 / ] that same ratio.  Both copies of the function agree. *)
Theorem calculatePrice_formula (cfg : Config) (S : Z) :
  0 <= USDC_decimals cfg -> 0 <= cbBTC_decimals cfg ->
  let numerator := S * S * 10 ^ USDC_decimals cfg in
  let denominator := 2 ^ 96 * 2 ^ 96 * 10 ^ cbBTC_decimals cfg in
  let ratio := Js.div (Js.ofBigInt numerator) (Js.ofBigInt denominator) in
  calculatePrice cfg (RawBigInt S) false = ok ratio /\
  calculatePrice cfg (RawBigInt S) true = ok (Js.div Js.one ratio) /\
  calculateAerodromePrice cfg (RawBigInt S) false = ok ratio /\
  calculateAerodromePrice cfg (RawBigInt S) true = ok (Js.div Js.one ratio).
Proof.
  intros Hq Hb. cbn zeta.
  rewrite (calculateAerodromePrice_eq cfg (RawBigInt S) false).
  rewrite (calculateAerodromePrice_eq cfg (RawBigInt S) true).
  rewrite (calculatePrice_run cfg S false Hq Hb).
  rewrite (calculatePrice_run cfg S true Hq Hb). auto.
Qed.

Lemma calculatePrice_formula_witness :
  calculatePrice example_config (RawBigInt (2 ^ 96)) false
    = ok (Js.div (Js.ofBigInt (2 ^ 96 * 2 ^ 96 * 10 ^ 6))
                 (Js.ofBigInt (2 ^ 96 * 2 ^ 96 * 10 ^ 8))).
Proof.
  apply (calculatePrice_formula example_config (2 ^ 96)); simpl; lia.
Defined.

(** C7. At the raw sample [2^96] the inverted price with 8 base and 6
    quote decimals is 100, and so is the non-inverted price with the
    decimals exchanged: its reciprocal is 0.01.  The two sides of the
    stated round trip differ by a factor of 10^4. *)
Theorem inversion_roundtrip_swapped_decimals :
  calculatePrice example_config (RawBigInt (2 ^ 96)) true = ok (Js.ofBigInt 100) /\
  calculatePrice swapped_config (RawBigInt (2 ^ 96)) false = ok (Js.ofBigInt 100) /\
  Js.div Js.one (Js.ofBigInt 100) = Js.decimal 1 2 /\
  Js.lt (Js.mul (Js.ofBigInt 1000) (Js.decimal 1 2)) (Js.ofBigInt 100) = true.
Proof. repeat split; vm_compute; reflexivity. Qed.

(** C8, as stated, fails: two valid samples, one apart, with the same
    derived price. *)
Lemma price_not_strictly_monotone :
  let S1 := 3000 * 2 ^ 96 in
  let S2 := S1 + 1 in
  0 <= S1 /\ S1 < S2 /\ S2 < 2 ^ 160 /\
  exists p,
    calculatePrice example_config (RawBigInt S1) false = ok p /\
    calculatePrice example_config (RawBigInt S2) false = ok p /\
    Js.lt p p = false.
Proof.
  cbn zeta. repeat split; try (vm_compute; congruence).
  eexists. repeat split; vm_compute; reflexivity.
Qed.

(** C8, amended.  With 8 base decimals and 6 quote decimals the
    non-inverted price never decreases when the sample grows: for
    nonnegative samples [S1 <= S2] both prices are returned and
    [price(S1) <= price(S2)]. *)
Theorem price_weakly_monotone (cfg : Config) (S1 S2 : Z) :
  cbBTC_decimals cfg = 8 -> USDC_decimals cfg = 6 ->
  0 <= S1 -> S1 <= S2 ->
  exists p1 p2,
    calculatePrice cfg (RawBigInt S1) false = ok p1 /\
    calculatePrice cfg (RawBigInt S2) false = ok p2 /\
    Js.le p1 p2 = true.
Proof.
  intros Hb Hq H1 H2.
  rewrite !calculatePrice_run by lia. cbn zeta. rewrite Hb, Hq.
  eexists. eexists. split; [reflexivity|]. split; [reflexivity|].
  replace (Js.ofBigInt (2 ^ 96 * 2 ^ 96 * 10 ^ 8))
    with (S754_finite false 6710886400000000 166) by (vm_compute; reflexivity).
  apply SFdiv_mono.
  - apply ofBigInt_valid.
  - apply ofBigInt_valid.
  - apply ofBigInt_nonneg. nia.
  - apply ofBigInt_nonneg. nia.
  - apply ofBigInt_mono. nia.
Qed.

Lemma price_weakly_monotone_witness :
  exists p1 p2,
    calculatePrice example_config (RawBigInt (3000 * 2 ^ 96)) false = ok p1 /\
    calculatePrice example_config (RawBigInt (3001 * 2 ^ 96)) false = ok p2 /\
    Js.le p1 p2 = true.
Proof.
  apply (price_weakly_monotone example_config); [reflexivity | reflexivity | lia | lia].
Defined.

(** C9, as stated, fails: a negative raw value is not rejected; the sample
    [-2^96] is priced like [2^96]. *)
Lemma negative_sample_is_priced :
  - 2 ^ 96 < 0 /\
  calculatePrice example_config (RawBigInt (- 2 ^ 96)) true = ok (Js.ofBigInt 100).
Proof. split; vm_compute; reflexivity. Qed.

(** C9, amended.  The price derivation throws (the [RangeError] of
    [BigInt(..)]) for every raw value that is a Number but not an
    integer; the listener then only logs the error: the stored prices
    and the budget are as before.  A negative integer is priced like
    its absolute value. *)
Theorem invalid_sample_handling
    (env : MonitorEnv) (v : Venue) (x : Js.number) (st : MonitorState) :
  Js.toInteger x = None ->
  (forall inv,
     calculatePrice (config env) (RawNumber x) inv = throw RangeError /\
     calculateAerodromePrice (config env) (RawNumber x) inv = throw RangeError) /\
  onSwap env v (RawNumber x) st = (ok tt, snd (log (LogError v RangeError) st)) /\
  same_data st (snd (onSwap env v (RawNumber x) st)) /\
  (forall z inv,
     calculatePrice (config env) (RawBigInt (- z)) inv =
     calculatePrice (config env) (RawBigInt z) inv).
Proof.
  intros Hx.
  assert (P : forall inv, calculatePrice (config env) (RawNumber x) inv = throw RangeError).
  { intros inv. unfold calculatePrice, BigInt. rewrite Hx. reflexivity. }
  assert (R : onSwap env v (RawNumber x) st = (ok tt, snd (log (LogError v RangeError) st))).
  { apply onSwap_error. rewrite venuePrice_eq. apply P. }
  split; [intros inv; split; [apply P | rewrite calculateAerodromePrice_eq; apply P]|].
  split; [exact R|]. split.
  - rewrite R. apply same_data_log.
  - intros z inv. unfold calculatePrice, BigInt. cbn [bindR ok].
    rewrite Z.mul_opp_opp. reflexivity.
Qed.

Lemma invalid_sample_handling_witness :
  same_data example_state
    (snd (onSwap example_env Uniswap (RawNumber (Js.decimal 15 1)) example_state)).
Proof.
  apply (invalid_sample_handling example_env Uniswap (Js.decimal 15 1) example_state).
  vm_compute. reflexivity.
Defined.

(** C10. The price derivation returns a number for every BigInt sample
    (nonnegative decimal counts); at the sample 0 it returns [+Infinity]
    when inverted and exactly [+0] otherwise.  Nothing stops the
    infinite price: when the stored price and the threshold are finite,
    the listener stores it and goes on to the spread computation, whose
    table then holds it. *)
Theorem zero_sample_price (env : MonitorEnv) (v : Venue) (st : MonitorState) :
  0 <= USDC_decimals (config env) -> 0 <= cbBTC_decimals (config env) ->
  (forall S inv, exists p, calculatePrice (config env) (RawBigInt S) inv = ok p) /\
  calculatePrice (config env) (RawBigInt 0) true = ok Js.infinity /\
  calculatePrice (config env) (RawBigInt 0) false = ok Js.zero /\
  (isInverted env v = true ->
   Js.isFinite (lastPrice v st) = true ->
   Js.isFinite (priceChange (config env)) = true ->
   let st' := snd (onSwap env v (RawBigInt 0) st) in
   lastPrice v st' = Js.infinity /\
   exists best,
     maxSpreadPair st' = ok best /\
     In (LogMaxSpread (dex1 best) (dex2 best) (spread best)) (console st') /\
     exists e, In e (spreadTable st') /\
               (price1 e = Js.infinity \/ price2 e = Js.infinity)).
Proof.
  intros Hq Hb.
  assert (Z0 : forall inv, calculatePrice (config env) (RawBigInt 0) inv =
                           ok (if inv then Js.infinity else Js.zero)).
  { intros inv. rewrite (calculatePrice_run _ 0 inv Hq Hb). cbn zeta.
    change (0 * 0 * 10 ^ USDC_decimals (config env)) with 0.
    change (Js.ofBigInt 0) with Js.zero.
    rewrite (div_zero_pos _ (denominator_pos _ Hb)).
    rewrite one_div_zero. reflexivity. }
  split.
  { intros S inv. rewrite (calculatePrice_run _ S inv Hq Hb). eexists. reflexivity. }
  split; [apply (Z0 true)|]. split; [apply (Z0 false)|].
  intros Hinv Hlast Hthr. cbn zeta.
  assert (Hp : venuePrice env v (RawBigInt 0) (isInverted env v) = ok Js.infinity).
  { rewrite venuePrice_eq, Hinv. apply (Z0 true). }
  assert (Hgt : Js.gt (Js.abs (Js.sub Js.infinity (lastPrice v st)))
                      (priceChange (config env)) = true).
  { rewrite (sub_infinity_finite _ Hlast). apply (gt_infinity_finite _ Hthr). }
  rewrite (onSwap_update env v (RawBigInt 0) st Js.infinity Hp Hgt). cbn [snd].
  set (st1 := snd (setLastPrice v Js.infinity _)).
  assert (P1 : lastPrice v st1 = Js.infinity)
    by (apply (setLastPrice_effect v Js.infinity)).
  assert (Pv : lastPrice v (snd (findAndSimulateBestSpread env st1)) = Js.infinity)
    by (rewrite findAndSimulateBestSpread_prices; exact P1).
  split; [exact Pv|].
  assert (T : spreadTable (snd (findAndSimulateBestSpread env st1)) = spreadTable st1)
    by (apply spreadTable_same_prices; intros w; apply findAndSimulateBestSpread_prices).
  destruct (findAndSimulateBestSpread_effect env st1) as (best & Hbest & Hin & Run).
  exists best. split.
  { unfold maxSpreadPair in *. rewrite T. exact Hbest. }
  split.
  { rewrite Run.
    destruct (simulateAndCompound_console env true best
                (snd (log (LogMaxSpread (dex1 best) (dex2 best) (spread best)) st1)))
      as (l & ->).
    cbn [log snd console]. apply in_or_app. left. apply in_or_app. right.
    left. reflexivity. }
  rewrite T. unfold spreadTable.
  destruct v; cbn [lastPrice] in P1; rewrite P1.
  - eexists. split; [left; reflexivity | left; reflexivity].
  - eexists. split; [left; reflexivity | right; reflexivity].
  - eexists. split; [right; left; reflexivity | right; reflexivity].
Qed.

Lemma zero_sample_price_witness :
  lastPrice Uniswap (snd (onSwap example_env Uniswap (RawBigInt 0) example_state))
    = Js.infinity.
Proof.
  apply (zero_sample_price example_env Uniswap example_state);
    vm_compute; congruence.
Defined.

(** ** Spread selection *)

(** C3, as stated, fails: with Uniswap at 90000, Aerodrome at 89900 and
    PancakeSwap at 90200 the selected pair is not (Uniswap, PancakeSwap). *)
Lemma best_spread_is_not_uniswap_pancake :
  ~ (exists e, maxSpreadPair example_state = ok e /\
               dex1 e = "Uniswap" /\ dex2 e = "PancakeSwap").
Proof.
  intros (e & H & H1 & _). vm_compute in H.
  injection H as <-. discriminate H1.
Qed.

(** C3, amended.  With exactly these three prices the selection returns
    the pair (Aerodrome, PancakeSwap), 89900 against 90200, whose absolute
    percentage spread is the greatest of the three pairs. *)
Theorem best_spread_example (b : Js.number) (c : list LogLine) :
  let st := {| lastUniswapPrice := Js.ofBigInt 90000;
               lastAerodromePrice := Js.ofBigInt 89900;
               lastPancakePrice := Js.ofBigInt 90200;
               overallBudgetUSDC := b;
               console := c |} in
  exists e,
    maxSpreadPair st = ok e /\
    dex1 e = "Aerodrome" /\ dex2 e = "PancakeSwap" /\
    price1 e = Js.ofBigInt 89900 /\ price2 e = Js.ofBigInt 90200 /\
    forall e', In e' (spreadTable st) -> Js.le (spread e') (spread e) = true.
Proof.
  cbn zeta. eexists. split; [vm_compute; reflexivity|].
  repeat split.
  intros e' H. unfold spreadTable in H. cbn [In] in H.
  destruct H as [<-|[<-|[<-|[]]]]; vm_compute; reflexivity.
Qed.

(** ** Simulation *)

(** C1. For venues with a registered cost model, [calculateArbDirection]
    returns a result whose buy leg spends [tradeSize * buyPrice] plus the
    fee ([spent * (feeBps / 10000)] for a proportional venue, the flat
    fee for a fixed-fee venue), whose sell leg receives
    [tradeSize * sellPrice] minus the fee computed the same way, whose
    gas is the sum of the two venues' gas fees, deducted once from the
    proceeds, with
    [netProfit = (receivedAfterFee - totalGas) - spentAfterFee],
    [netProfitPct = netProfit / spentAfterFee * 100] and
    [isProfitable = netProfit > 0]. *)
Theorem calculateArbDirection_formulas
    (cfg : Config) (p : DirectionParams) (bm sm : CostModel) :
  getDexCostModel cfg (p_buyDex p) = ok bm ->
  getDexCostModel cfg (p_sellDex p) = ok sm ->
  exists r, calculateArbDirection cfg p = ok r /\
    let d := details r in
    usdcSpentBeforeFee d = Js.mul (p_tradeSizeCbBTC p) (p_buyPrice p) /\
    buyTradeFeesUSDC d =
      match bm with
      | Proportional feeBps _ => Js.mul (usdcSpentBeforeFee d) (Js.div feeBps tenThousand)
      | FixedFee fixedFee _ => fixedFee
      end /\
    usdcSpentAfterFee d = Js.add (usdcSpentBeforeFee d) (buyTradeFeesUSDC d) /\
    usdcReceivedBeforeFee d = Js.mul (p_tradeSizeCbBTC p) (p_sellPrice p) /\
    sellTradeFeesUSDC d =
      match sm with
      | Proportional feeBps _ => Js.mul (usdcReceivedBeforeFee d) (Js.div feeBps tenThousand)
      | FixedFee fixedFee _ => fixedFee
      end /\
    usdcReceivedAfterFee d = Js.sub (usdcReceivedBeforeFee d) (sellTradeFeesUSDC d) /\
    totalGasCostForDirection cfg (p_buyDex p) (p_sellDex p)
      = ok (Js.add (gasFeeUSDC bm) (gasFeeUSDC sm)) /\
    totalGasCostUSDC d = Js.add (gasFeeUSDC bm) (gasFeeUSDC sm) /\
    netProfitUSDC r =
      Js.sub (Js.sub (usdcReceivedAfterFee d) (totalGasCostUSDC d)) (usdcSpentAfterFee d) /\
    netProfitPct r = Js.mul (Js.div (netProfitUSDC r) (usdcSpentAfterFee d)) hundred /\
    isProfitable r = Js.gt (netProfitUSDC r) Js.zero.
Proof.
  intros Hb Hs.
  destruct (calculateArbDirection_spec cfg p bm sm Hb Hs)
    as (r & H & E1 & E2 & E3 & E4 & E5 & E6 & E7 & E8 & E9 & E10 & _).
  exists r. split; [exact H|]. cbn zeta.
  pose proof (totalGasCostForDirection_spec cfg _ _ bm sm Hb Hs) as G.
  repeat split; assumption.
Qed.

Lemma calculateArbDirection_formulas_witness :
  exists r,
    calculateArbDirection example_config
      {| p_buyDex := "Aerodrome"; p_sellDex := "PancakeSwap";
         p_buyPrice := Js.ofBigInt 89900; p_sellPrice := Js.ofBigInt 90200;
         p_tradeSizeCbBTC := Js.decimal 5 3;
         p_tradeSizeUSDC := Js.ofBigInt 500;
         p_currentBudgetUSDC := Js.ofBigInt 10000 |} = ok r /\
    isProfitable r = Js.gt (netProfitUSDC r) Js.zero.
Proof.
  destruct (calculateArbDirection_formulas example_config
    {| p_buyDex := "Aerodrome"; p_sellDex := "PancakeSwap";
       p_buyPrice := Js.ofBigInt 89900; p_sellPrice := Js.ofBigInt 90200;
       p_tradeSizeCbBTC := Js.decimal 5 3;
       p_tradeSizeUSDC := Js.ofBigInt 500;
       p_currentBudgetUSDC := Js.ofBigInt 10000 |}
    (Proportional (Js.ofBigInt 1) (Js.decimal 5 3))
    (FixedFee (Js.decimal 1 2) (Js.decimal 5 3))
    eq_refl eq_refl) as (r & H & R).
  exists r. split; [exact H | apply R].
Defined.

(** C5, as stated, fails: at equal prices of 90000 on Uniswap and
    Aerodrome (budget 10000, 5%) the two directions have the same net
    profit and the simulation returns the second one, which buys on
    Aerodrome and sells on Uniswap. *)
Lemma tie_returns_second_direction :
  let p := Js.ofBigInt 90000 in
  let b := Js.ofBigInt 10000 in
  let pct := Js.ofBigInt 5 in
  exists A B,
    directionA example_config "Uniswap" p "Aerodrome" p b pct = ok A /\
    directionB example_config "Uniswap" p "Aerodrome" p b pct = ok B /\
    Js.eqb (netProfitUSDC A) (netProfitUSDC B) = true /\
    simulateArbitrageForPair example_config "Uniswap" p "Aerodrome" p b pct = ok B /\
    buyDex B = "Aerodrome" /\ sellDex B = "Uniswap" /\ A <> B.
Proof.
  cbn zeta. eexists. eexists.
  split; [vm_compute; reflexivity|]. split; [vm_compute; reflexivity|].
  split; [vm_compute; reflexivity|]. split; [vm_compute; reflexivity|].
  split; [reflexivity|]. split; [reflexivity|].
  intros E. apply (f_equal buyDex) in E. discriminate E.
Qed.

(** C5, amended.  For venues with a registered cost model the
    simulation evaluates both directions and returns the one with the
    strictly higher net profit; when the two net profits are equal it
    returns the second-evaluated direction (buy on the second-named
    venue, sell on the first). *)
Theorem simulate_returns_better_direction
    (cfg : Config) (d1 d2 : string) (p1 p2 b pct : Js.number) (m1 m2 : CostModel) :
  getDexCostModel cfg d1 = ok m1 -> getDexCostModel cfg d2 = ok m2 ->
  exists A B r,
    directionA cfg d1 p1 d2 p2 b pct = ok A /\ buyDex A = d1 /\ sellDex A = d2 /\
    directionB cfg d1 p1 d2 p2 b pct = ok B /\ buyDex B = d2 /\ sellDex B = d1 /\
    simulateArbitrageForPair cfg d1 p1 d2 p2 b pct = ok r /\
    (Js.gt (netProfitUSDC A) (netProfitUSDC B) = true -> r = A) /\
    (Js.gt (netProfitUSDC B) (netProfitUSDC A) = true -> r = B) /\
    (Js.eqb (netProfitUSDC A) (netProfitUSDC B) = true -> r = B).
Proof.
  intros H1 H2.
  destruct (directions_ok cfg d1 p1 d2 p2 b pct m1 m2 H1 H2)
    as (A & B & HA & HB & E1 & E2 & E3 & E4).
  exists A, B. eexists.
  split; [exact HA|]. split; [exact E1|]. split; [exact E2|].
  split; [exact HB|]. split; [exact E3|]. split; [exact E4|].
  split; [apply (simulateArbitrageForPair_spec _ _ _ _ _ _ _ A B HA HB)|].
  unfold Js.gt, Js.eqb. repeat split.
  - intros ->. reflexivity.
  - intros G. rewrite (SFltb_asym _ _ G). reflexivity.
  - intros G. rewrite (SFeqb_not_ltb _ _ G). reflexivity.
Qed.

Lemma simulate_returns_better_direction_witness :
  exists A B r,
    directionA example_config "Uniswap" (Js.ofBigInt 90000) "PancakeSwap"
      (Js.ofBigInt 90200) (Js.ofBigInt 10000) (Js.ofBigInt 5) = ok A /\
    directionB example_config "Uniswap" (Js.ofBigInt 90000) "PancakeSwap"
      (Js.ofBigInt 90200) (Js.ofBigInt 10000) (Js.ofBigInt 5) = ok B /\
    simulateArbitrageForPair example_config "Uniswap" (Js.ofBigInt 90000) "PancakeSwap"
      (Js.ofBigInt 90200) (Js.ofBigInt 10000) (Js.ofBigInt 5) = ok r /\
    (Js.eqb (netProfitUSDC A) (netProfitUSDC B) = true -> r = B).
Proof.
  destruct (simulate_returns_better_direction example_config "Uniswap" "PancakeSwap"
              (Js.ofBigInt 90000) (Js.ofBigInt 90200) (Js.ofBigInt 10000) (Js.ofBigInt 5)
              (Proportional Js.zero (Js.decimal 4 3))
              (FixedFee (Js.decimal 1 2) (Js.decimal 5 3)) eq_refl eq_refl)
    as (A & B & r & HA & _ & _ & HB & _ & _ & Hr & _ & _ & T).
  exists A, B, r. auto.
Defined.

(** C6. An unrecognised venue name makes the cost-model lookup throw
    [Error("Unknown DEX: name")]; the simulation of a pair naming it
    throws the same error; the compounding step then ends without
    touching the state, budget included; inside a [try]/[catch] the
    error is logged and the caller goes on. *)
Theorem unknown_venue_fails
    (env : MonitorEnv) (name other : string) (p1 p2 spr : Js.number)
    (announce : bool) (v : Venue) (st : MonitorState) :
  name <> "Uniswap" -> name <> "Aerodrome" -> name <> "PancakeSwap" ->
  let err := Error ("Unknown DEX: " ++ name) in
  getDexCostModel (config env) name = throw err /\
  (forall b pct,
     simulateArbitrageForPair (config env) name p1 other p2 b pct = throw err) /\
  (forall b pct m,
     getDexCostModel (config env) other = ok m ->
     simulateArbitrageForPair (config env) other p1 name p2 b pct = throw err) /\
  (forall best,
     dex1 best = name \/
     (dex2 best = name /\ exists m, getDexCostModel (config env) (dex1 best) = ok m) ->
     simulateAndCompound env announce best st = (throw err, st) /\
     overallBudgetUSDC (snd (simulateAndCompound env announce best st))
       = overallBudgetUSDC st /\
     tryCatch (simulateAndCompound env announce best)
              (fun e => log (LogError v e)) st
       = (ok tt, snd (log (LogError v err) st))).
Proof.
  intros N1 N2 N3. cbn zeta.
  pose proof (getDexCostModel_unknown (config env) name N1 N2 N3) as U.
  assert (S1 : forall o q1 q2 b pct,
             simulateArbitrageForPair (config env) name q1 o q2 b pct
             = throw (Error ("Unknown DEX: " ++ name))).
  { intros. unfold simulateArbitrageForPair, directionA, calculateArbDirection.
    cbn [p_buyDex]. rewrite U. reflexivity. }
  assert (S2 : forall o q1 q2 b pct m,
             getDexCostModel (config env) o = ok m ->
             simulateArbitrageForPair (config env) o q1 name q2 b pct
             = throw (Error ("Unknown DEX: " ++ name))).
  { intros o q1 q2 b pct m Ho.
    unfold simulateArbitrageForPair, directionA, calculateArbDirection.
    cbn [p_buyDex p_sellDex]. rewrite Ho, U. reflexivity. }
  split; [exact U|]. split; [intros; apply S1|]. split; [intros b pct m; apply S2|].
  intros best Hbest.
  assert (Sim : simulateArbitrageForPair (config env) (dex1 best) (price1 best)
                  (dex2 best) (price2 best) (overallBudgetUSDC st) (budgetPercent env)
                = throw (Error ("Unknown DEX: " ++ name))).
  { destruct Hbest as [<-|[<- [m Hm]]]; [apply S1 | apply (S2 _ _ _ _ _ m Hm)]. }
  assert (Run : simulateAndCompound env announce best st
                = (throw (Error ("Unknown DEX: " ++ name)), st)).
  { pose proof (simulateAndCompound_effect env announce best st) as (_ & _ & _ & H).
    rewrite Sim in H. exact H. }
  split; [exact Run|]. split; [rewrite Run; reflexivity|].
  unfold tryCatch. rewrite Run. reflexivity.
Qed.

Lemma unknown_venue_fails_witness :
  getDexCostModel example_config "SushiSwap"
    = throw (Error "Unknown DEX: SushiSwap").
Proof.
  apply (unknown_venue_fails example_env "SushiSwap" "Uniswap"
           (Js.ofBigInt 90000) (Js.ofBigInt 90200) Js.zero true Uniswap example_state);
    discriminate.
Defined.

(** ** The budget *)

(** C4. Every event cycle, and the initial analysis, leaves the budget
    unchanged or adds to it the strictly positive net profit of a
    simulation judged profitable; a simulation whose net profit is not
    above zero leaves it unchanged.  In a well-formed monitor (canonical
    binary64 costs and prices, a budget other than NaN and [-Infinity])
    the budget after a cycle is never below the budget before it, and so
    after the start-up and after any sequence of cycles. *)
Theorem budget_never_decreases (env : MonitorEnv) :
  (forall st v raw,
     compounded (overallBudgetUSDC st) (overallBudgetUSDC (snd (onSwap env v raw st)))) /\
  (forall st,
     compounded (overallBudgetUSDC st)
                (overallBudgetUSDC (snd (initialSpreadAnalysis env st)))) /\
  (forall st announce best r,
     simulateArbitrageForPair (config env) (dex1 best) (price1 best)
       (dex2 best) (price2 best) (overallBudgetUSDC st) (budgetPercent env) = ok r ->
     Js.gt (netProfitUSDC r) Js.zero = false ->
     overallBudgetUSDC (snd (simulateAndCompound env announce best st))
       = overallBudgetUSDC st) /\
  (wf_costs (costs (config env)) = true ->
   (forall st v raw,
      wf_state st = true ->
      wf_state (snd (onSwap env v raw st)) = true /\
      Js.le (overallBudgetUSDC st)
            (overallBudgetUSDC (snd (onSwap env v raw st))) = true) /\
   (forall st evs,
      wf_state st = true ->
      wf_state (runEvents env evs st) = true /\
      Js.le (overallBudgetUSDC st)
            (overallBudgetUSDC (runEvents env evs st)) = true) /\
   (forall initialBudget uniSlot0 aeroSlot0 pancakeSlot0 st0 evs,
      addable initialBudget = true ->
      startMonitor env initialBudget uniSlot0 aeroSlot0 pancakeSlot0 = ok st0 ->
      wf_state st0 = true /\
      Js.le initialBudget (overallBudgetUSDC st0) = true /\
      Js.le initialBudget (overallBudgetUSDC (runEvents env evs st0)) = true)).
Proof.
  split; [intros; apply onSwap_compounded|].
  split; [intros; apply initialSpreadAnalysis_compounded|].
  split.
  { intros st announce best r Sim Hle.
    pose proof (simulateAndCompound_effect env announce best st) as (_ & _ & _ & H).
    rewrite Sim in H. destruct H as [_ H]. rewrite H, Hle, andb_false_r. reflexivity. }
  intros W.
  split; [intros st v raw Wst; apply onSwap_keeps; assumption|].
  split; [intros st evs Wst; apply runEvents_keeps; assumption|].
  intros b0 u a p st0 evs Ab Hs.
  destruct (startMonitor_inv env b0 u a p st0 Hs) as (pu & pa & pp & Vu & Va & Vp & ->).
  set (st := {| lastUniswapPrice := pu; lastAerodromePrice := pa;
                lastPancakePrice := pp; overallBudgetUSDC := b0; console := [] |}).
  assert (Wst : wf_state st = true) by (rewrite wf_state_iff; auto).
  destruct (initialSpreadAnalysis_keeps env st W Wst) as [K1 K2].
  destruct (runEvents_keeps env evs _ W K1) as [_ K3].
  split; [exact K1|]. split; [exact K2|].
  exact (SFleb_trans _ _ _ K2 K3).
Qed.

Lemma budget_never_decreases_witness :
  Js.le (overallBudgetUSDC example_state)
        (overallBudgetUSDC
           (runEvents example_env
              [(Aerodrome, RawBigInt (2 ^ 96 * 1000 / 29833)); (PancakeSwap, RawBigInt 0)]
              example_state)) = true.
Proof.
  assert (W : wf_costs (costs (config example_env)) = true)
    by (vm_compute; reflexivity).
  assert (Wst : wf_state example_state = true) by (vm_compute; reflexivity).
  destruct (budget_never_decreases example_env) as (_ & _ & _ & H).
  destruct (H W) as (_ & E & _).
  exact (proj2 (E example_state _ Wst)).
Defined.
(** * Further properties of the code *)

(** ** The spread and the selection of the best pair *)

(** X1. When none of the three absolute spreads is NaN, the selection
    [spreads.reduce((max, curr) => curr.spread > max.spread ? curr : max)]
    returns an entry of the table with the largest spread, and among
    entries of equal spread the first one: every entry before it is
    strictly smaller, every entry after it is not larger. *)
Theorem maxSpreadPair_first_maximum (st : MonitorState) :
  (forall e, In e (spreadTable st) -> isNaN (spread e) = false) ->
  exists best before after,
    maxSpreadPair st = ok best /\
    spreadTable st = before ++ best :: after /\
    (forall e, In e before -> Js.lt (spread e) (spread best) = true) /\
    (forall e, In e after -> Js.le (spread e) (spread best) = true).
Proof.
  intros H. unfold maxSpreadPair.
  destruct (spreadTable st) as [|x l] eqn:T; [discriminate T|].
  destruct (fold_pickMax_split l [] x []) as (l1 & l2 & E & P1 & P2).
  - intros e He. apply isNaN_false, H. right. exact He.
  - apply isNaN_false, H. left. reflexivity.
  - intros e [].
  - intros e [].
  - exists (fold_left pickMax l x), l1, l2. cbn [reduce].
    split; [reflexivity|]. split; [exact E|]. split; assumption.
Qed.

Lemma maxSpreadPair_first_maximum_witness :
  exists best before after,
    maxSpreadPair example_state = ok best /\
    spreadTable example_state = before ++ best :: after /\
    (forall e, In e before -> Js.lt (spread e) (spread best) = true) /\
    (forall e, In e after -> Js.le (spread e) (spread best) = true).
Proof.
  assert (H : forall e, In e (spreadTable example_state) -> isNaN (spread e) = false).
  { intros e He. cbn [spreadTable In] in He.
    destruct He as [<-|[<-|[<-|[]]]]; vm_compute; reflexivity. }
  exact (maxSpreadPair_first_maximum example_state H).
Defined.

(** X2. On any non-empty array the same [reduce] never moves away from a
    first entry whose spread is NaN, and it never returns a later entry
    whose spread is NaN: a NaN result is the first entry. *)
Theorem reduce_pickMax_nan (x : SpreadEntry) (l : list SpreadEntry) :
  (isNaN (spread x) = true -> reduce pickMax (x :: l) = ok x) /\
  (forall best, reduce pickMax (x :: l) = ok best ->
     isNaN (spread best) = true -> best = x).
Proof.
  cbn [reduce]. split.
  - intros H. rewrite fold_pickMax_nan; [reflexivity|]. apply isNaN_true, H.
  - intros best E H. unfold ok in E. inversion E as [E']. clear E.
    destruct (isNaN (spread x)) eqn:N.
    + rewrite fold_pickMax_nan; [reflexivity|]. apply isNaN_true, N.
    + exfalso. apply isNaN_false in N.
      apply (fold_pickMax_not_nan l x N). rewrite E'. apply isNaN_true, H.
Qed.

(** X3. When the stored Uniswap price is not finite (Infinity, as a zero
    sample on an inverted pool leaves it, or NaN), the selection returns
    the pair Uniswap/Aerodrome with a NaN spread, whatever the
    PancakeSwap price is. *)
Theorem maxSpreadPair_uniswap_not_finite (st : MonitorState) :
  Js.isFinite (lastUniswapPrice st) = false ->
  exists best,
    maxSpreadPair st = ok best /\
    dex1 best = "Uniswap" /\ dex2 best = "Aerodrome" /\
    price1 best = lastUniswapPrice st /\ price2 best = lastAerodromePrice st /\
    isNaN (spread best) = true.
Proof.
  intros H. unfold maxSpreadPair, spreadTable.
  set (first := {| dex1 := "Uniswap"; dex2 := "Aerodrome";
                   spread := Js.abs (calculateSpread (lastAerodromePrice st)
                                                     (lastUniswapPrice st));
                   price1 := lastUniswapPrice st;
                   price2 := lastAerodromePrice st |}).
  assert (N : isNaN (spread first) = true).
  { cbn [spread first]. rewrite SFabs_isNaN, calculateSpread_isNaN, H.
    cbn [negb]. rewrite orb_true_r. reflexivity. }
  exists first. split.
  - cbn [reduce]. rewrite fold_pickMax_nan; [reflexivity|]. apply isNaN_true, N.
  - repeat split. exact N.
Qed.

Lemma maxSpreadPair_uniswap_not_finite_witness :
  exists best,
    maxSpreadPair stalled_state = ok best /\
    dex1 best = "Uniswap" /\ dex2 best = "Aerodrome" /\
    price1 best = lastUniswapPrice stalled_state /\
    price2 best = lastAerodromePrice stalled_state /\
    isNaN (spread best) = true.
Proof.
  exact (maxSpreadPair_uniswap_not_finite stalled_state eq_refl).
Defined.

(** X4. [calculateSpread(price1, price2)] is NaN exactly when [price1] is
    NaN, [price2] is not finite (NaN or an infinity), or both are zero;
    otherwise it is a number or an infinity. *)
Theorem calculateSpread_nan_cases (price1 price2 : Js.number) :
  isNaN (calculateSpread price1 price2) =
    isNaN price1 || negb (Js.isFinite price2) || (isZero price1 && isZero price2).
Proof. apply calculateSpread_isNaN. Qed.

(** X5. For canonical prices with [price2 > 0], the sign of
    [calculateSpread(price1, price2)] tells which price is the larger: a
    spread above zero needs [price1 > price2], a spread below zero needs
    [price1 < price2]. *)
Theorem calculateSpread_sign_is_order (price1 price2 : Js.number) :
  valid price1 = true -> valid price2 = true -> Js.gt price2 Js.zero = true ->
  (Js.gt (calculateSpread price1 price2) Js.zero = true -> Js.gt price1 price2 = true) /\
  (Js.lt (calculateSpread price1 price2) Js.zero = true -> Js.lt price1 price2 = true).
Proof.
  intros V1 V2 H2. unfold calculateSpread, Js.gt, Js.lt, Js.zero, Js.mul, Js.div, Js.sub in *.
  rewrite hundred_eq.
  pose proof (SFmul_sign_pos (SFdiv prec emax (SFsub prec emax price1 price2) price2)
                _ _ (SFdiv_valid _ _) hundred_bounded) as [M1 M2].
  pose proof (SFdiv_sign_pos (SFsub prec emax price1 price2) price2 H2) as [D1 D2].
  split; intros H.
  - apply SFsub_pos_gt; auto.
  - apply SFsub_neg_lt; auto.
Qed.

Lemma calculateSpread_sign_is_order_witness :
  (Js.gt (calculateSpread (Js.ofBigInt 90200) (Js.ofBigInt 89900)) Js.zero = true ->
   Js.gt (Js.ofBigInt 90200) (Js.ofBigInt 89900) = true) /\
  (Js.lt (calculateSpread (Js.ofBigInt 90200) (Js.ofBigInt 89900)) Js.zero = true ->
   Js.lt (Js.ofBigInt 90200) (Js.ofBigInt 89900) = true).
Proof.
  exact (calculateSpread_sign_is_order (Js.ofBigInt 90200) (Js.ofBigInt 89900)
           eq_refl eq_refl eq_refl).
Defined.

(** X6. The spread of a finite, non-zero price against itself is zero;
    against a reference price of zero (the value the price variables are
    initialised with) it is never a finite number. *)
Theorem calculateSpread_edge_values :
  (forall p, Js.isFinite p = true -> isZero p = false ->
             isZero (calculateSpread p p) = true) /\
  (forall price1 price2, isZero price2 = true ->
             Js.isFinite (calculateSpread price1 price2) = false).
Proof.
  split.
  - intros p F Z. destruct p as [s|s| |s m e]; try discriminate F.
    + destruct s; discriminate Z.
    + apply calculateSpread_diag.
  - intros price1 price2 Z.
    destruct price2 as [s|s| |s m e]; try (destruct s; discriminate Z);
      try discriminate Z.
    apply calculateSpread_zero_reference.
Qed.

(** ** The event cycle *)

(** X7. A Swap listener never throws, and it changes at most the stored
    price of its own venue: the two other prices are as before, and the
    venue's price is either unchanged or the price derived from the
    event's sample, which then differs from the old one by more than the
    threshold. *)
Theorem onSwap_changes_own_price_only
    (env : MonitorEnv) (v : Venue) (raw : RawSample) (st : MonitorState) :
  let st' := snd (onSwap env v raw st) in
  fst (onSwap env v raw st) = ok tt /\
  (forall w, w <> v -> lastPrice w st' = lastPrice w st) /\
  (lastPrice v st' = lastPrice v st \/
   venuePrice env v raw (isInverted env v) = ok (lastPrice v st') /\
   Js.gt (Js.abs (Js.sub (lastPrice v st') (lastPrice v st)))
         (priceChange (config env)) = true).
Proof.
  cbn zeta. split; [apply onSwap_returns|].
  destruct (onSwap_prices env v raw st) as [F O]. split; [exact F|].
  destruct O as [O|O]; [left | right]; exact O.
Qed.



(** X9. What one event cycle prints and stores.  A sample that cannot be
    priced adds one error line and nothing else.  A price within the
    threshold of the stored one changes nothing.  Otherwise the cycle
    prints the price update, the pair that the selection returns for the
    new prices, and the result of simulating that pair with the budget
    before the cycle; when that result is profitable the budget grows by
    its net profit and a fourth line shows the old budget, the profit and
    the budget now stored. *)
Theorem onSwap_console
    (env : MonitorEnv) (v : Venue) (raw : RawSample) (st : MonitorState) :
  let st' := snd (onSwap env v raw st) in
  match venuePrice env v raw (isInverted env v) with
  | inl error => st' = snd (log (LogError v error) st)
  | inr newPrice =>
      if Js.gt (Js.abs (Js.sub newPrice (lastPrice v st))) (priceChange (config env))
      then
        exists best r,
          maxSpreadPair st' = ok best /\
          simulateArbitrageForPair (config env) (dex1 best) (price1 best)
            (dex2 best) (price2 best) (overallBudgetUSDC st) (budgetPercent env) = ok r /\
          let compound := isProfitable r && Js.gt (netProfitUSDC r) Js.zero in
          overallBudgetUSDC st' =
            (if compound then Js.add (overallBudgetUSDC st) (netProfitUSDC r)
             else overallBudgetUSDC st) /\
          console st' =
            console st ++
              [LogPriceUpdate v newPrice
                 (Js.mul (Js.div (Js.sub newPrice (lastPrice v st)) (lastPrice v st))
                         hundred);
               LogMaxSpread (dex1 best) (dex2 best) (spread best);
               LogArbitrage r] ++
              (if compound
               then [LogBudgetUpdated (overallBudgetUSDC st) (netProfitUSDC r)
                                      (overallBudgetUSDC st')]
               else [])
      else st' = st
  end.
Proof.
  cbn zeta.
  destruct (venuePrice env v raw (isInverted env v)) as [e|p] eqn:Hp.
  - rewrite (onSwap_error env v raw st e Hp). reflexivity.
  - destruct (Js.gt (Js.abs (Js.sub p (lastPrice v st))) (priceChange (config env))) eqn:G.
    + apply (onSwap_update_log env v raw st p Hp G).
    + rewrite (onSwap_quiet env v raw st p Hp G). reflexivity.
Qed.

(** X10. With a negative decimal count in the configuration every price
    derivation throws a RangeError, whatever the sample: the start-up
    fails with it, and every Swap listener prints it and leaves prices
    and budget as they are. *)
Theorem negative_decimals_always_throw (env : MonitorEnv) :
  USDC_decimals (config env) < 0 \/ cbBTC_decimals (config env) < 0 ->
  (forall raw inv, calculatePrice (config env) raw inv = throw RangeError) /\
  (forall raw inv, calculateAerodromePrice (config env) raw inv = throw RangeError) /\
  (forall b u a p, startMonitor env b u a p = throw RangeError) /\
  (forall v raw st, onSwap env v raw st = (ok tt, snd (log (LogError v RangeError) st))).
Proof.
  intros H.
  assert (P : forall raw inv, calculatePrice (config env) raw inv = throw RangeError)
    by (intros; apply calculatePrice_negative_decimals, H).
  split; [exact P|]. split; [exact P|]. split.
  - intros b u a p. unfold startMonitor. rewrite P. reflexivity.
  - intros v raw st. apply onSwap_error. rewrite venuePrice_eq. apply P.
Qed.

Lemma negative_decimals_always_throw_witness :
  (forall raw inv, calculatePrice (config negative_env) raw inv = throw RangeError) /\
  (forall raw inv, calculateAerodromePrice (config negative_env) raw inv
                   = throw RangeError) /\
  (forall b u a p, startMonitor negative_env b u a p = throw RangeError) /\
  (forall v raw st,
     onSwap negative_env v raw st = (ok tt, snd (log (LogError v RangeError) st))).
Proof.
  assert (H : USDC_decimals (config negative_env) < 0
              \/ cbBTC_decimals (config negative_env) < 0)
    by (left; reflexivity).
  exact (negative_decimals_always_throw negative_env H).
Defined.

(** ** Fees, gas and profit *)

(** X11. With canonical costs that are at least zero, a trade size that
    is not negative and a sell price between zero and the buy price,
    [calculateArbDirection] never reports a profit: fees and gas only
    lower the result. *)
Theorem no_profit_without_spread (cfg : Config) (p : DirectionParams) (r : ArbResult) :
  wf_costs (costs cfg) = true -> nonneg_costs (costs cfg) = true ->
  valid (p_tradeSizeCbBTC p) = true -> not_negative (p_tradeSizeCbBTC p) = true ->
  valid (p_buyPrice p) = true -> valid (p_sellPrice p) = true ->
  Js.le Js.zero (p_sellPrice p) = true ->
  Js.le (p_sellPrice p) (p_buyPrice p) = true ->
  calculateArbDirection cfg p = ok r ->
  isProfitable r = false /\ Js.gt (netProfitUSDC r) Js.zero = false.
Proof.
  intros W N Vt Ht Vb Vs Hs Hsb H.
  pose proof (direction_needs_spread cfg p r W N Vt Ht Vb Vs Hs Hsb H) as NP.
  split; [exact NP|].
  destruct (calculateArbDirection_ok_inv cfg p r H) as (bm & sm & Hbm & Hsm).
  destruct (calculateArbDirection_spec cfg p bm sm Hbm Hsm)
    as (r' & H' & _ & _ & _ & _ & _ & _ & _ & _ & _ & E & _).
  rewrite H in H'. assert (r' = r) by (unfold ok in H'; congruence). subst r'.
  rewrite <- E. exact NP.
Qed.

Lemma no_profit_without_spread_witness :
  exists r,
    calculateArbDirection example_config
      {| p_buyDex := "Aerodrome"; p_sellDex := "PancakeSwap";
         p_buyPrice := Js.ofBigInt 90000; p_sellPrice := Js.ofBigInt 90000;
         p_tradeSizeCbBTC := Js.decimal 5 3;
         p_tradeSizeUSDC := Js.ofBigInt 450;
         p_currentBudgetUSDC := Js.ofBigInt 10000 |} = ok r /\
    isProfitable r = false /\ Js.gt (netProfitUSDC r) Js.zero = false.
Proof.
  set (p := {| p_buyDex := "Aerodrome"; p_sellDex := "PancakeSwap";
               p_buyPrice := Js.ofBigInt 90000; p_sellPrice := Js.ofBigInt 90000;
               p_tradeSizeCbBTC := Js.decimal 5 3;
               p_tradeSizeUSDC := Js.ofBigInt 450;
               p_currentBudgetUSDC := Js.ofBigInt 10000 |}).
  destruct (calculateArbDirection example_config p) as [e|r] eqn:H.
  - exfalso. vm_compute in H. discriminate H.
  - exists r. split; [reflexivity|].
    exact (no_profit_without_spread example_config p r
             eq_refl eq_refl eq_refl eq_refl eq_refl eq_refl eq_refl eq_refl H).
Defined.

(** X12. With canonical costs that are at least zero, positive prices
    and a budget and percentage that are not negative, a result of
    [simulateArbitrageForPair] that is judged profitable buys at the
    strictly lower of the two prices. *)
Theorem profitable_simulation_buys_low
    (cfg : Config) (dex1Name : string) (dex1Price : Js.number)
    (dex2Name : string) (dex2Price : Js.number)
    (currentBudgetUSDC budgetPct : Js.number) (r : ArbResult) :
  wf_costs (costs cfg) = true -> nonneg_costs (costs cfg) = true ->
  valid dex1Price = true -> valid dex2Price = true ->
  Js.gt dex1Price Js.zero = true -> Js.gt dex2Price Js.zero = true ->
  valid currentBudgetUSDC = true -> not_negative currentBudgetUSDC = true ->
  not_negative budgetPct = true ->
  simulateArbitrageForPair cfg dex1Name dex1Price dex2Name dex2Price
    currentBudgetUSDC budgetPct = ok r ->
  isProfitable r = true ->
  Js.lt (buyPrice (details r)) (sellPrice (details r)) = true.
Proof. apply simulate_profit_buys_low. Qed.

Lemma profitable_simulation_buys_low_witness :
  exists r,
    simulateArbitrageForPair example_config
      "Aerodrome" (Js.ofBigInt 89900) "PancakeSwap" (Js.ofBigInt 90200)
      (Js.ofBigInt 10000) (Js.ofBigInt 5) = ok r /\
    isProfitable r = true /\
    Js.lt (buyPrice (details r)) (sellPrice (details r)) = true.
Proof.
  destruct (simulateArbitrageForPair example_config
              "Aerodrome" (Js.ofBigInt 89900) "PancakeSwap" (Js.ofBigInt 90200)
              (Js.ofBigInt 10000) (Js.ofBigInt 5)) as [e|r] eqn:H.
  - exfalso. vm_compute in H. discriminate H.
  - assert (Pr : isProfitable r = true).
    { assert (E : match simulateArbitrageForPair example_config
                          "Aerodrome" (Js.ofBigInt 89900) "PancakeSwap"
                          (Js.ofBigInt 90200) (Js.ofBigInt 10000) (Js.ofBigInt 5) with
                  | inr r0 => isProfitable r0
                  | inl _ => false
                  end = true) by (vm_compute; reflexivity).
      rewrite H in E. exact E. }
    exists r. split; [reflexivity|]. split; [exact Pr|].
    exact (profitable_simulation_buys_low example_config
             "Aerodrome" (Js.ofBigInt 89900) "PancakeSwap" (Js.ofBigInt 90200)
             (Js.ofBigInt 10000) (Js.ofBigInt 5) r
             eq_refl eq_refl eq_refl eq_refl eq_refl eq_refl eq_refl eq_refl eq_refl
             H Pr).
Defined.

(** X13. When the three stored prices are one positive canonical price,
    the best-spread simulation leaves the budget as it is (costs at
    least zero, budget and percentage not negative). *)
Theorem equal_prices_keep_budget (env : MonitorEnv) (st : MonitorState) (p : Js.number) :
  wf_costs (costs (config env)) = true -> nonneg_costs (costs (config env)) = true ->
  lastUniswapPrice st = p -> lastAerodromePrice st = p -> lastPancakePrice st = p ->
  valid p = true -> Js.gt p Js.zero = true ->
  valid (overallBudgetUSDC st) = true -> not_negative (overallBudgetUSDC st) = true ->
  not_negative (budgetPercent env) = true ->
  overallBudgetUSDC (snd (findAndSimulateBestSpread env st)) = overallBudgetUSDC st /\
  overallBudgetUSDC (snd (initialSpreadAnalysis env st)) = overallBudgetUSDC st.
Proof.
  intros W N EU EA EP V G Vb Hb Hp.
  assert (T : forall best, In best (spreadTable st) ->
                price1 best = p /\ price2 best = p).
  { intros best Hin. unfold spreadTable in Hin. cbn [In] in Hin.
    destruct Hin as [<-|[<-|[<-|[]]]]; cbn; auto. }
  split.
  - destruct (findAndSimulateBestSpread_effect env st) as (best & _ & Hin & ->).
    destruct (T best Hin) as [E1 E2].
    apply (simulateAndCompound_no_spread env true best
             (snd (log (LogMaxSpread (dex1 best) (dex2 best) (spread best)) st)));
      try assumption; rewrite ?E1, ?E2; auto.
  - destruct (initialSpreadAnalysis_effect env st) as (best & _ & Hin & ->).
    destruct (T best Hin) as [E1 E2].
    apply (simulateAndCompound_no_spread env false best
             (snd (log (LogMaxSpread (dex1 best) (dex2 best) (spread best)) st)));
      try assumption; rewrite ?E1, ?E2; auto.
Qed.

Lemma equal_prices_keep_budget_witness :
  overallBudgetUSDC (snd (findAndSimulateBestSpread example_env flat_state))
    = overallBudgetUSDC flat_state /\
  overallBudgetUSDC (snd (initialSpreadAnalysis example_env flat_state))
    = overallBudgetUSDC flat_state.
Proof.
  exact (equal_prices_keep_budget example_env flat_state (Js.ofBigInt 90000)
           eq_refl eq_refl eq_refl eq_refl eq_refl eq_refl eq_refl eq_refl eq_refl
           eq_refl).
Defined.

(** X14. For a finite budget that is at least zero and a percentage
    between 0 and 100, the trade size [budget * (percent / 100)] lies
    between zero and the budget. *)
Theorem trade_size_within_budget (overallBudget budgetPct : Js.number) :
  valid overallBudget = true -> valid budgetPct = true ->
  Js.isFinite overallBudget = true -> Js.le Js.zero overallBudget = true ->
  Js.le Js.zero budgetPct = true -> Js.le budgetPct hundred = true ->
  Js.le Js.zero (getArbTradeSizeUSDC overallBudget budgetPct) = true /\
  Js.le (getArbTradeSizeUSDC overallBudget budgetPct) overallBudget = true.
Proof.
  intros Vb Vp Fb Hb Hp0 Hp1. unfold getArbTradeSizeUSDC.
  rewrite hundred_eq in *.
  destruct (share_bounds budgetPct _ _ Vp hundred_bounded Hp0 Hp1 eq_refl) as [S0 S1].
  set (c := Js.div budgetPct _) in *.
  assert (Vc : valid c = true) by apply valid_div.
  assert (N : Js.mul overallBudget c <> S754_nan).
  { apply mul_finite_not_nan; try assumption. apply le_one_finite; assumption. }
  split.
  - apply SFltb_false_leb; [exact N | discriminate |].
    apply SFmul_not_negative; try assumption; apply SFleb_not_ltb; assumption.
  - apply SFmul_le_self; assumption.
Qed.

Lemma trade_size_within_budget_witness :
  Js.le Js.zero (getArbTradeSizeUSDC (Js.ofBigInt 10000) (Js.ofBigInt 5)) = true /\
  Js.le (getArbTradeSizeUSDC (Js.ofBigInt 10000) (Js.ofBigInt 5)) (Js.ofBigInt 10000)
    = true.
Proof.
  exact (trade_size_within_budget (Js.ofBigInt 10000) (Js.ofBigInt 5)
           eq_refl eq_refl eq_refl eq_refl eq_refl eq_refl).
Defined.

(** X15. [applyTradeFeeUSDC] returns the amount itself for a fee of zero
    basis points; for a finite amount that is at least zero and a fee
    between 0 and 10000 basis points its result lies between zero and
    the amount. *)
Theorem applyTradeFeeUSDC_within_amount (amountUSDC feeBps : Js.number) :
  valid amountUSDC = true -> valid feeBps = true ->
  Js.isFinite amountUSDC = true -> Js.le Js.zero amountUSDC = true ->
  Js.le Js.zero feeBps = true -> Js.le feeBps tenThousand = true ->
  (isZero feeBps = true -> applyTradeFeeUSDC amountUSDC feeBps = amountUSDC) /\
  Js.le Js.zero (applyTradeFeeUSDC amountUSDC feeBps) = true /\
  Js.le (applyTradeFeeUSDC amountUSDC feeBps) amountUSDC = true.
Proof.
  intros Va Vf Fa Ha Hf0 Hf1. split.
  { unfold isZero, applyTradeFeeUSDC. intros ->. reflexivity. }
  unfold applyTradeFeeUSDC.
  destruct (Js.eqb feeBps Js.zero).
  - split; [exact Ha|]. apply SFleb_refl, (le_zero_not_nan _ Ha).
  - rewrite tenThousand_eq in *.
    assert (Bt : bounded prec emax 5497558138880000 (-39) = true) by reflexivity.
    destruct (share_bounds feeBps _ _ Vf Bt Hf0 Hf1 eq_refl) as [S0 S1].
    set (g := Js.div feeBps _) in *.
    assert (Vg : valid g = true) by apply valid_div.
    destruct (sub_one_bounds g Vg S0 S1) as [C0 C1].
    set (c := Js.sub Js.one g) in *.
    assert (Vc : valid c = true) by (apply valid_sub; [reflexivity | exact Vg]).
    assert (N : Js.mul amountUSDC c <> S754_nan).
    { apply mul_finite_not_nan; try assumption. apply le_one_finite; assumption. }
    split.
    + apply SFltb_false_leb; [exact N | discriminate |].
      apply SFmul_not_negative; try assumption; apply SFleb_not_ltb; assumption.
    + apply SFmul_le_self; assumption.
Qed.

Lemma applyTradeFeeUSDC_within_amount_witness :
  (isZero (Js.ofBigInt 30) = true ->
   applyTradeFeeUSDC (Js.ofBigInt 450) (Js.ofBigInt 30) = Js.ofBigInt 450) /\
  Js.le Js.zero (applyTradeFeeUSDC (Js.ofBigInt 450) (Js.ofBigInt 30)) = true /\
  Js.le (applyTradeFeeUSDC (Js.ofBigInt 450) (Js.ofBigInt 30)) (Js.ofBigInt 450) = true.
Proof.
  exact (applyTradeFeeUSDC_within_amount (Js.ofBigInt 450) (Js.ofBigInt 30)
           eq_refl eq_refl eq_refl eq_refl eq_refl eq_refl).
Defined.

(** X16. The two directions that [simulateArbitrageForPair] evaluates
    are charged the same gas and trade the same USDC amount. *)
Theorem directions_share_gas
    (cfg : Config) (dex1Name : string) (dex1Price : Js.number)
    (dex2Name : string) (dex2Price : Js.number)
    (currentBudgetUSDC budgetPct : Js.number) (A B : ArbResult) :
  directionA cfg dex1Name dex1Price dex2Name dex2Price currentBudgetUSDC budgetPct = ok A ->
  directionB cfg dex1Name dex1Price dex2Name dex2Price currentBudgetUSDC budgetPct = ok B ->
  totalGasCostUSDC (details A) = totalGasCostUSDC (details B) /\
  tradeSizeUSDC (details A) = tradeSizeUSDC (details B).
Proof.
  intros HA HB. unfold directionA in HA. unfold directionB in HB.
  destruct (calculateArbDirection_details _ _ _ HA) as (_ & _ & _ & A4 & _).
  destruct (calculateArbDirection_details _ _ _ HB) as (_ & _ & _ & B4 & _).
  match type of HA with
  | calculateArbDirection _ ?pa = _ =>
      destruct (calculateArbDirection_ok_inv cfg pa A HA) as (bm & sm & Hbm & Hsm);
      destruct (calculateArbDirection_spec cfg pa bm sm Hbm Hsm)
        as (A' & HA' & _ & _ & _ & _ & _ & _ & GA & _)
  end.
  match type of HB with
  | calculateArbDirection _ ?pb = _ =>
      destruct (calculateArbDirection_spec cfg pb sm bm Hsm Hbm)
        as (B' & HB' & _ & _ & _ & _ & _ & _ & GB & _)
  end.
  rewrite HA in HA'. rewrite HB in HB'.
  assert (EA : A' = A) by (unfold ok in *; congruence).
  assert (EB : B' = B) by (unfold ok in *; congruence).
  subst A' B'. split.
  - rewrite GA, GB. apply SFadd_comm.
  - rewrite A4, B4. reflexivity.
Qed.

Lemma directions_share_gas_witness :
  exists A B,
    directionA example_config "Aerodrome" (Js.ofBigInt 89900)
      "PancakeSwap" (Js.ofBigInt 90200) (Js.ofBigInt 10000) (Js.ofBigInt 5) = ok A /\
    directionB example_config "Aerodrome" (Js.ofBigInt 89900)
      "PancakeSwap" (Js.ofBigInt 90200) (Js.ofBigInt 10000) (Js.ofBigInt 5) = ok B /\
    totalGasCostUSDC (details A) = totalGasCostUSDC (details B) /\
    tradeSizeUSDC (details A) = tradeSizeUSDC (details B).
Proof.
  destruct (directionA example_config "Aerodrome" (Js.ofBigInt 89900)
              "PancakeSwap" (Js.ofBigInt 90200) (Js.ofBigInt 10000) (Js.ofBigInt 5))
    as [e|A] eqn:HA.
  - exfalso. vm_compute in HA. discriminate HA.
  - destruct (directionB example_config "Aerodrome" (Js.ofBigInt 89900)
                "PancakeSwap" (Js.ofBigInt 90200) (Js.ofBigInt 10000) (Js.ofBigInt 5))
      as [e|B] eqn:HB.
    + exfalso. vm_compute in HB. discriminate HB.
    + exists A, B. split; [reflexivity|]. split; [reflexivity|].
      exact (directions_share_gas example_config _ _ _ _ _ _ A B HA HB).
Defined.

(** ** The price, again *)

(** X17. For an integer sample, quote decimals that are not negative and
    between 0 and 250 base decimals, [calculatePrice] returns a canonical
    number that is [+0], positive or [+Infinity] in both orientations:
    never NaN and never negative. *)
Theorem calculatePrice_not_negative (cfg : Config) (S : Z) (isInverted : bool) :
  0 <= USDC_decimals cfg -> 0 <= cbBTC_decimals cfg <= 250 ->
  exists p,
    calculatePrice cfg (RawBigInt S) isInverted = ok p /\
    calculateAerodromePrice cfg (RawBigInt S) isInverted = ok p /\
    valid p = true /\ isNaN p = false /\ Js.le Js.zero p = true.
Proof.
  intros Hq Hb.
  destruct (calculatePrice_bounds cfg S isInverted Hq Hb) as (p & Hp & V & N).
  exists p. split; [exact Hp|]. split; [exact Hp|]. split; [exact V|].
  split; [|apply SFleb_zero_nonneg, N].
  destruct p as [s|s| |s m e]; try reflexivity. contradiction.
Qed.

Lemma calculatePrice_not_negative_witness :
  exists p,
    calculatePrice example_config (RawBigInt (2 ^ 96 * 1000 / 29833)) true = ok p /\
    calculateAerodromePrice example_config (RawBigInt (2 ^ 96 * 1000 / 29833)) true
      = ok p /\
    valid p = true /\ isNaN p = false /\ Js.le Js.zero p = true.
Proof.
  assert (Hq : 0 <= USDC_decimals example_config) by (simpl; lia).
  assert (Hb : 0 <= cbBTC_decimals example_config <= 250) by (simpl; lia).
  exact (calculatePrice_not_negative example_config (2 ^ 96 * 1000 / 29833) true Hq Hb).
Defined.

(** X18. The price depends on the sample through its square only: a
    sample and its negation have the same price.  With quote decimals
    that are not negative and between 0 and 250 base decimals, when the
    absolute value of the sample grows the non-inverted price does not
    decrease and the inverted price does not increase. *)
Theorem calculatePrice_monotone_in_size (cfg : Config) (S1 S2 : Z) :
  0 <= USDC_decimals cfg -> 0 <= cbBTC_decimals cfg <= 250 ->
  Z.abs S1 <= Z.abs S2 ->
  exists p1 p2 q1 q2,
    calculatePrice cfg (RawBigInt S1) false = ok p1 /\
    calculatePrice cfg (RawBigInt S2) false = ok p2 /\
    calculatePrice cfg (RawBigInt S1) true = ok q1 /\
    calculatePrice cfg (RawBigInt S2) true = ok q2 /\
    Js.le p1 p2 = true /\ Js.le q2 q1 = true.
Proof.
  intros Hq Hb HS.
  assert (A : forall S inv, calculatePrice cfg (RawBigInt S) inv
                            = calculatePrice cfg (RawBigInt (Z.abs S)) inv).
  { intros S inv. destruct (Z.abs_spec S) as [[_ ->]|[_ ->]]; [reflexivity|].
    symmetry. apply calculatePrice_sign. }
  rewrite (A S1 false), (A S2 false), (A S1 true), (A S2 true).
  apply calculatePrice_monotone; try assumption.
  split; [apply Z.abs_nonneg | exact HS].
Qed.

Lemma calculatePrice_monotone_in_size_witness :
  exists p1 p2 q1 q2,
    calculatePrice example_config (RawBigInt (- (3000 * 2 ^ 96))) false = ok p1 /\
    calculatePrice example_config (RawBigInt (3001 * 2 ^ 96)) false = ok p2 /\
    calculatePrice example_config (RawBigInt (- (3000 * 2 ^ 96))) true = ok q1 /\
    calculatePrice example_config (RawBigInt (3001 * 2 ^ 96)) true = ok q2 /\
    Js.le p1 p2 = true /\ Js.le q2 q1 = true.
Proof.
  assert (Hq : 0 <= USDC_decimals example_config) by (simpl; lia).
  assert (Hb : 0 <= cbBTC_decimals example_config <= 250) by (simpl; lia).
  assert (HS : Z.abs (- (3000 * 2 ^ 96)) <= Z.abs (3001 * 2 ^ 96))
    by (vm_compute; discriminate).
  exact (calculatePrice_monotone_in_size example_config
           (- (3000 * 2 ^ 96)) (3001 * 2 ^ 96) Hq Hb HS).
Defined.

(** ** The dual monitor *)

(** X19. What a Swap listener of the dual monitor does.  It prices the
    value read from [slot0()], not the event's argument.  A failed read
    or a value that cannot be priced adds one error line; a price within
    the threshold changes nothing; otherwise the listener stores the
    price for its own venue only and prints one update whose spread is
    the spread of the Aerodrome price against the Uniswap price as they
    are stored after the update. *)
Theorem dual_onSwap_cases
    (env : Dual.Env) (v : Dual.Venue) (sqrtPriceX96 : RawSample)
    (slot0 : Result RawSample) (st : Dual.State) :
  let st' := Dual.onSwap env v sqrtPriceX96 slot0 st in
  match bindR slot0 (fun s => Dual.venuePrice env v s (Dual.isInverted env v)) with
  | inl error => st' = Dual.log (Dual.LogError v error) st
  | inr newPrice =>
      if Js.gt (Js.abs (Js.sub newPrice (Dual.lastPrice v st)))
               (priceChange (Dual.config env))
      then
        Dual.lastPrice v st' = newPrice /\
        (forall w, w <> v -> Dual.lastPrice w st' = Dual.lastPrice w st) /\
        Dual.console st' =
          Dual.console st ++
            [Dual.LogPriceUpdate v newPrice
               (Js.mul (Js.div (Js.sub newPrice (Dual.lastPrice v st))
                               (Dual.lastPrice v st)) hundred)
               (calculateSpread (Dual.lastAerodromePrice st')
                                (Dual.lastUniswapPrice st'))]
      else st' = st
  end.
Proof.
  cbn zeta.
  destruct (bindR slot0 (fun s => Dual.venuePrice env v s (Dual.isInverted env v)))
    as [e|p] eqn:Hp.
  - apply dual_onSwap_error. exact Hp.
  - destruct (Js.gt (Js.abs (Js.sub p (Dual.lastPrice v st)))
                    (priceChange (Dual.config env))) eqn:G.
    + apply (dual_onSwap_update env v sqrtPriceX96 slot0 st p Hp G).
    + apply (dual_onSwap_quiet env v sqrtPriceX96 slot0 st p Hp G).
Qed.

(** X20. The dual and the triple monitor stay in step.  When both hold
    the same Uniswap and Aerodrome prices, use the same configuration
    and token ordering, and the read of [slot0()] returns the sample the
    event carries, a Uniswap or Aerodrome event leaves them with the same
    two prices again; a PancakeSwap event of the triple monitor does not
    touch these two prices. *)
Theorem dual_and_triple_stay_in_step
    (denv : Dual.Env) (env : MonitorEnv) (d : Dual.State) (st : MonitorState) :
  same_setup denv env -> same_prices d st ->
  (forall v raw,
     same_prices (Dual.onSwap denv v raw (ok raw) d)
                 (snd (onSwap env (ofDualVenue v) raw st))) /\
  (forall raw, same_prices d (snd (onSwap env PancakeSwap raw st))).
Proof.
  intros S P. split.
  - intros v raw. apply dual_step; assumption.
  - intros raw. apply pancake_step, P.
Qed.

Lemma dual_and_triple_stay_in_step_witness :
  (forall v raw,
     same_prices (Dual.onSwap example_dual_env v raw (ok raw) example_dual_state)
                 (snd (onSwap example_env (ofDualVenue v) raw example_state))) /\
  (forall raw,
     same_prices example_dual_state (snd (onSwap example_env PancakeSwap raw example_state))).
Proof.
  assert (S : same_setup example_dual_env example_env) by (repeat split).
  assert (P : same_prices example_dual_state example_state) by (split; reflexivity).
  exact (dual_and_triple_stay_in_step example_dual_env example_env
           example_dual_state example_state S P).
Defined.

(** ** The configuration loader *)

(** X21. A variable that is set to the empty string counts as not set:
    [getRequiredEnv] returns a value exactly when the variable holds a
    non-empty string and otherwise throws the error that names the key
    and its description; [getOptionalEnv] returns what [getRequiredEnv]
    would return, and the default when that would throw. *)
Theorem env_lookup_treats_empty_as_unset
    (processEnv : string -> option string) (key description defaultValue : string) :
  (forall value,
     getRequiredEnv processEnv key description = ok value <->
     processEnv key = Some value /\ value <> EmptyString) /\
  ((forall value, getRequiredEnv processEnv key description <> ok value) ->
   getRequiredEnv processEnv key description =
     throw (Error ("Missing required environment variable: " ++ key
                     ++ " (" ++ description ++ ")")%string)) /\
  getOptionalEnv processEnv key defaultValue =
    match getRequiredEnv processEnv key description with
    | inr value => value
    | inl _ => defaultValue
    end.
Proof.
  split; [intros value; apply getRequiredEnv_ok|].
  split; [|apply getOptionalEnv_spec].
  intros H. unfold getRequiredEnv in *.
  destruct (processEnv key) as [v|]; [|reflexivity].
  destruct (String.eqb v EmptyString); [reflexivity|].
  exfalso. apply (H v). reflexivity.
Qed.

(** X22. A configuration that loads holds no NaN: the two decimal
    counts, the two thresholds, the three cost figures and the trade
    size all passed the [isNaN] test of [parseIntSafe] or
    [parseFloatSafe]. *)
Theorem loaded_config_has_no_nan
    (processEnv : string -> option string) (parseInt parseFloat : string -> Js.number)
    (c : LoadedConfig) :
  loadConfig processEnv parseInt parseFloat = ok c ->
  isNaN (tokens_cbBTC_decimals c) = false /\ isNaN (tokens_USDC_decimals c) = false /\
  isNaN (thresholds_priceChange c) = false /\ isNaN (thresholds_spread c) = false /\
  isNaN (costs_uniswapGasFeeUSDC c) = false /\
  isNaN (costs_aerodromeGasFeeUSDC c) = false /\
  isNaN (costs_aerodromeFeeBps c) = false /\
  isNaN (arbitrage_tradeSizeCbBTC c) = false.
Proof.
  unfold loadConfig, bindR.
  repeat match goal with
         | |- match ?x with inl _ => _ | inr _ => _ end = _ -> _ =>
             let E := fresh "E" in destruct x eqn:E; [discriminate|]
         end.
  intros H. unfold ok in H. inversion H. cbn.
  repeat split;
    first [ eapply parseIntSafe_ok; eassumption | eapply parseFloatSafe_ok; eassumption ].
Qed.

Lemma loaded_config_has_no_nan_witness :
  exists c,
    loadConfig example_processEnv example_parse example_parse = ok c /\
    isNaN (tokens_cbBTC_decimals c) = false /\ isNaN (tokens_USDC_decimals c) = false /\
    isNaN (thresholds_priceChange c) = false /\ isNaN (thresholds_spread c) = false /\
    isNaN (costs_uniswapGasFeeUSDC c) = false /\
    isNaN (costs_aerodromeGasFeeUSDC c) = false /\
    isNaN (costs_aerodromeFeeBps c) = false /\
    isNaN (arbitrage_tradeSizeCbBTC c) = false.
Proof.
  destruct (loadConfig example_processEnv example_parse example_parse) as [e|c] eqn:H.
  - exfalso. vm_compute in H. discriminate H.
  - exists c. split; [reflexivity|].
    exact (loaded_config_has_no_nan example_processEnv example_parse example_parse c H).
Defined.

(** ** The report and the start-up *)

(** X23. The report of [logArbitrageOpportunity] agrees with what the
    monitor stores.  For the result of the simulation that a cycle runs,
    the full report is printed exactly when the budget is compounded; it
    then shows the budget before the cycle as the previous budget and
    the budget stored after it as the new budget.  Otherwise the short
    report is printed and the budget is unchanged. *)
Theorem report_matches_budget
    (env : MonitorEnv) (announce : bool) (best : SpreadEntry) (st : MonitorState)
    (r : ArbResult) :
  simulateArbitrageForPair (config env) (dex1 best) (price1 best)
    (dex2 best) (price2 best) (overallBudgetUSDC st) (budgetPercent env) = ok r ->
  let st' := snd (simulateAndCompound env announce best st) in
  match logArbitrageOpportunity r with
  | ProfitableReport report =>
      r_currentBudgetUSDC report = overallBudgetUSDC st /\
      r_newBudgetUSDC report = overallBudgetUSDC st' /\
      r_netProfitUSDC report = netProfitUSDC r /\
      Js.gt (netProfitUSDC r) Js.zero = true
  | NotProfitableReport _ _ _ _ _ =>
      overallBudgetUSDC st' = overallBudgetUSDC st
  end.
Proof.
  intros Sim. cbn zeta.
  destruct (simulateArbitrageForPair_result _ _ _ _ _ _ _ _ Sim) as (Pr & Cb & _).
  destruct (simulateAndCompound_log env announce best st r Sim) as [B _].
  cbn zeta in B. unfold logArbitrageOpportunity.
  destruct (isProfitable r) eqn:E; cbn [negb andb] in *.
  - rewrite <- Pr in B.
    cbn [r_currentBudgetUSDC r_newBudgetUSDC r_netProfitUSDC].
    rewrite Cb, B. auto.
  - exact B.
Qed.

Lemma report_matches_budget_witness :
  exists r,
    simulateArbitrageForPair (config example_env) "Aerodrome" (Js.ofBigInt 89900)
      "PancakeSwap" (Js.ofBigInt 90200) (overallBudgetUSDC example_state)
      (budgetPercent example_env) = ok r /\
    match logArbitrageOpportunity r with
    | ProfitableReport report =>
        r_currentBudgetUSDC report = overallBudgetUSDC example_state /\
        r_newBudgetUSDC report =
          overallBudgetUSDC
            (snd (simulateAndCompound example_env true
                    {| dex1 := "Aerodrome"; dex2 := "PancakeSwap";
                       spread := Js.zero;
                       price1 := Js.ofBigInt 89900; price2 := Js.ofBigInt 90200 |}
                    example_state)) /\
        r_netProfitUSDC report = netProfitUSDC r /\
        Js.gt (netProfitUSDC r) Js.zero = true
    | NotProfitableReport _ _ _ _ _ =>
        overallBudgetUSDC
          (snd (simulateAndCompound example_env true
                  {| dex1 := "Aerodrome"; dex2 := "PancakeSwap";
                     spread := Js.zero;
                     price1 := Js.ofBigInt 89900; price2 := Js.ofBigInt 90200 |}
                  example_state))
        = overallBudgetUSDC example_state
    end.
Proof.
  set (best := {| dex1 := "Aerodrome"; dex2 := "PancakeSwap"; spread := Js.zero;
                  price1 := Js.ofBigInt 89900; price2 := Js.ofBigInt 90200 |}).
  destruct (simulateArbitrageForPair (config example_env) "Aerodrome" (Js.ofBigInt 89900)
              "PancakeSwap" (Js.ofBigInt 90200) (overallBudgetUSDC example_state)
              (budgetPercent example_env)) as [e|r] eqn:H.
  - exfalso. vm_compute in H. discriminate H.
  - exists r. split; [reflexivity|].
    exact (report_matches_budget example_env true best example_state r H).
Defined.

(** X24. With decimal counts that are not negative, the start-up on
    three integer samples never fails.  It stores the three derived
    prices, prints the pair that the selection returns and the result of
    simulating it with the initial budget, and compounds the budget when
    that result is profitable, without the budget line that the
    listeners print. *)
Theorem startMonitor_succeeds
    (env : MonitorEnv) (initialBudget : Js.number) (Su Sa Sp : Z) :
  0 <= USDC_decimals (config env) -> 0 <= cbBTC_decimals (config env) ->
  exists st0 pu pa pp best r,
    startMonitor env initialBudget (RawBigInt Su) (RawBigInt Sa) (RawBigInt Sp) = ok st0 /\
    calculatePrice (config env) (RawBigInt Su) (uniswapIsInverted env) = ok pu /\
    calculateAerodromePrice (config env) (RawBigInt Sa) (aerodromeIsInverted env) = ok pa /\
    calculatePrice (config env) (RawBigInt Sp) (pancakeIsInverted env) = ok pp /\
    lastUniswapPrice st0 = pu /\ lastAerodromePrice st0 = pa /\
    lastPancakePrice st0 = pp /\
    maxSpreadPair st0 = ok best /\
    simulateArbitrageForPair (config env) (dex1 best) (price1 best)
      (dex2 best) (price2 best) initialBudget (budgetPercent env) = ok r /\
    console st0 = [LogMaxSpread (dex1 best) (dex2 best) (spread best); LogArbitrage r] /\
    overallBudgetUSDC st0 =
      (if isProfitable r && Js.gt (netProfitUSDC r) Js.zero
       then Js.add initialBudget (netProfitUSDC r) else initialBudget).
Proof.
  intros Hq Hb.
  assert (P : forall S inv, exists p, calculatePrice (config env) (RawBigInt S) inv = ok p)
    by (intros S inv; eexists; apply (calculatePrice_run (config env) S inv Hq Hb)).
  destruct (P Su (uniswapIsInverted env)) as [pu Hu].
  destruct (P Sa (aerodromeIsInverted env)) as [pa Ha].
  destruct (P Sp (pancakeIsInverted env)) as [pp Hp].
  rewrite <- (calculateAerodromePrice_eq (config env) (RawBigInt Sa)) in Ha.
  set (st := {| lastUniswapPrice := pu; lastAerodromePrice := pa;
                lastPancakePrice := pp; overallBudgetUSDC := initialBudget;
                console := [] |}).
  pose proof (startMonitor_run env initialBudget _ _ _ pu pa pp Hu Ha Hp) as Run.
  fold st in Run.
  destruct (initialSpreadAnalysis_log env st) as (best & r & Hbest & Sim & C & B).
  exists (snd (initialSpreadAnalysis env st)), pu, pa, pp, best, r.
  split; [exact Run|]. split; [exact Hu|]. split; [exact Ha|]. split; [exact Hp|].
  split; [apply (initialSpreadAnalysis_prices env st Uniswap)|].
  split; [apply (initialSpreadAnalysis_prices env st Aerodrome)|].
  split; [apply (initialSpreadAnalysis_prices env st PancakeSwap)|].
  split.
  { unfold maxSpreadPair.
    rewrite (spreadTable_same_prices st _ (initialSpreadAnalysis_prices env st)).
    exact Hbest. }
  split; [exact Sim|]. split; [exact C|exact B].
Qed.

Lemma startMonitor_succeeds_witness :
  exists st0 pu pa pp best r,
    startMonitor example_env (Js.ofBigInt 10000)
      (RawBigInt (2 ^ 96 * 1000 / 30000)) (RawBigInt (2 ^ 96 * 1000 / 29833))
      (RawBigInt (2 ^ 96 * 1000 / 30100)) = ok st0 /\
    calculatePrice (config example_env) (RawBigInt (2 ^ 96 * 1000 / 30000))
      (uniswapIsInverted example_env) = ok pu /\
    calculateAerodromePrice (config example_env) (RawBigInt (2 ^ 96 * 1000 / 29833))
      (aerodromeIsInverted example_env) = ok pa /\
    calculatePrice (config example_env) (RawBigInt (2 ^ 96 * 1000 / 30100))
      (pancakeIsInverted example_env) = ok pp /\
    lastUniswapPrice st0 = pu /\ lastAerodromePrice st0 = pa /\
    lastPancakePrice st0 = pp /\
    maxSpreadPair st0 = ok best /\
    simulateArbitrageForPair (config example_env) (dex1 best) (price1 best)
      (dex2 best) (price2 best) (Js.ofBigInt 10000) (budgetPercent example_env) = ok r /\
    console st0 = [LogMaxSpread (dex1 best) (dex2 best) (spread best); LogArbitrage r] /\
    overallBudgetUSDC st0 =
      (if isProfitable r && Js.gt (netProfitUSDC r) Js.zero
       then Js.add (Js.ofBigInt 10000) (netProfitUSDC r) else Js.ofBigInt 10000).
Proof.
  assert (Hq : 0 <= USDC_decimals (config example_env)) by (simpl; lia).
  assert (Hb : 0 <= cbBTC_decimals (config example_env)) by (simpl; lia).
  exact (startMonitor_succeeds example_env (Js.ofBigInt 10000)
           (2 ^ 96 * 1000 / 30000) (2 ^ 96 * 1000 / 29833) (2 ^ 96 * 1000 / 30100)
           Hq Hb).
Defined.

(** ** Runs of events *)

(** X25. Without a budget or without a percentage nothing is ever
    compounded.  In a well-formed monitor with costs at least zero, when
    the budget is zero or the budget percentage is zero (the defaults of
    both settings), the initial analysis and every sequence of Swap
    events leave the budget exactly as it is. *)
Theorem no_budget_no_compounding
    (env : MonitorEnv) (st : MonitorState) (evs : list (Venue * RawSample)) :
  wf_costs (costs (config env)) = true -> nonneg_costs (costs (config env)) = true ->
  wf_state st = true ->
  isZero (overallBudgetUSDC st) = true \/ isZero (budgetPercent env) = true ->
  overallBudgetUSDC (runEvents env evs st) = overallBudgetUSDC st /\
  overallBudgetUSDC (snd (initialSpreadAnalysis env st)) = overallBudgetUSDC st.
Proof.
  intros W N Wst Z. split.
  - revert st Wst Z. induction evs as [|[v raw] evs IH]; intros st Wst Z;
      [reflexivity|].
    cbn [runEvents fold_left]. unfold runCycle at 2. cbn [fst snd].
    pose proof (onSwap_no_budget env v raw st W N Wst Z) as E.
    destruct (onSwap_keeps env v raw st W Wst) as [W1 _].
    fold (runEvents env evs (snd (onSwap env v raw st))).
    rewrite IH; [exact E | exact W1 | rewrite E; exact Z].
  - destruct (initialSpreadAnalysis_effect env st) as (best & _ & Hin & ->).
    destruct (spreadTable_valid st best Wst Hin) as [V1 V2].
    apply (simulateAndCompound_no_budget env false best
             (snd (log (LogMaxSpread (dex1 best) (dex2 best) (spread best)) st)));
      assumption.
Qed.

Lemma no_budget_no_compounding_witness :
  overallBudgetUSDC
    (runEvents example_env
       [(Aerodrome, example_sample); (PancakeSwap, RawBigInt 0)] unfunded_state)
    = overallBudgetUSDC unfunded_state /\
  overallBudgetUSDC (snd (initialSpreadAnalysis example_env unfunded_state))
    = overallBudgetUSDC unfunded_state.
Proof.
  assert (Z : isZero (overallBudgetUSDC unfunded_state) = true
              \/ isZero (budgetPercent example_env) = true) by (left; reflexivity).
  exact (no_budget_no_compounding example_env unfunded_state
           [(Aerodrome, example_sample); (PancakeSwap, RawBigInt 0)]
           eq_refl eq_refl eq_refl Z).
Defined.

(** X26. With decimal counts that are not negative, a run of Swap
    events that carry integer samples only appends to the console and
    never prints an error line. *)
Theorem integer_events_print_no_error
    (env : MonitorEnv) (zs : list (Venue * Z)) (st : MonitorState) :
  0 <= USDC_decimals (config env) -> 0 <= cbBTC_decimals (config env) ->
  exists l,
    console (runEvents env (integerEvents zs) st) = console st ++ l /\
    forallb (fun line => negb (isErrorLine line)) l = true.
Proof.
  intros Hq Hb. revert st. induction zs as [|[v S] zs IH]; intros st.
  - exists []. cbn. rewrite app_nil_r. split; reflexivity.
  - cbn [integerEvents map runEvents fold_left fst snd]. unfold runCycle at 2.
    cbn [fst snd].
    destruct (onSwap_integer_lines env v S st Hq Hb) as (l1 & E1 & F1).
    destruct (IH (snd (onSwap env v (RawBigInt S) st))) as (l2 & E2 & F2).
    exists (l1 ++ l2). split.
    + unfold runEvents, integerEvents in E2. rewrite E2, E1, app_assoc. reflexivity.
    + rewrite forallb_app, F1, F2. reflexivity.
Qed.

Lemma integer_events_print_no_error_witness :
  exists l,
    console (runEvents example_env
               (integerEvents [(Aerodrome, 2 ^ 96 * 1000 / 29833); (PancakeSwap, 0)])
               example_state)
      = console example_state ++ l /\
    forallb (fun line => negb (isErrorLine line)) l = true.
Proof.
  assert (Hq : 0 <= USDC_decimals (config example_env)) by (simpl; lia).
  assert (Hb : 0 <= cbBTC_decimals (config example_env)) by (simpl; lia).
  exact (integer_events_print_no_error example_env
           [(Aerodrome, 2 ^ 96 * 1000 / 29833); (PancakeSwap, 0)] example_state Hq Hb).
Defined.

(** X27. With quote decimals that are not negative and between 0 and 250
    base decimals, Swap events that carry integer samples keep every
    stored price a canonical number that is at least zero (zero,
    positive or [+Infinity], never NaN and never negative). *)
Theorem integer_events_keep_prices_not_negative
    (env : MonitorEnv) (zs : list (Venue * Z)) (st : MonitorState) :
  0 <= USDC_decimals (config env) -> 0 <= cbBTC_decimals (config env) <= 250 ->
  (forall w, valid (lastPrice w st) = true /\ Js.le Js.zero (lastPrice w st) = true) ->
  forall w,
    valid (lastPrice w (runEvents env (integerEvents zs) st)) = true /\
    Js.le Js.zero (lastPrice w (runEvents env (integerEvents zs) st)) = true.
Proof.
  intros Hq Hb. revert st. induction zs as [|[v S] zs IH]; intros st H w.
  - apply H.
  - cbn [integerEvents map runEvents fold_left fst snd]. unfold runCycle at 2.
    cbn [fst snd].
    apply (IH (snd (onSwap env v (RawBigInt S) st))).
    apply onSwap_integer_prices; assumption.
Qed.

Lemma integer_events_keep_prices_not_negative_witness :
  valid (lastPrice Aerodrome
           (runEvents example_env
              (integerEvents [(Aerodrome, 2 ^ 96 * 1000 / 29833); (PancakeSwap, 0)])
              example_state)) = true /\
  Js.le Js.zero
    (lastPrice Aerodrome
       (runEvents example_env
          (integerEvents [(Aerodrome, 2 ^ 96 * 1000 / 29833); (PancakeSwap, 0)])
          example_state)) = true.
Proof.
  assert (Hq : 0 <= USDC_decimals (config example_env)) by (simpl; lia).
  assert (Hb : 0 <= cbBTC_decimals (config example_env) <= 250) by (simpl; lia).
  assert (H : forall w, valid (lastPrice w example_state) = true /\
                        Js.le Js.zero (lastPrice w example_state) = true)
    by (intros w; destruct w; split; reflexivity).
  exact (integer_events_keep_prices_not_negative example_env
           [(Aerodrome, 2 ^ 96 * 1000 / 29833); (PancakeSwap, 0)] example_state
           Hq Hb H Aerodrome).
Defined.
